(** * The "simple TEEHR dataset" notebook (01-ex1-simple.ipynb)

    The notebook is a linear Python script over three libraries: pathlib
    and pandas/geopandas (file conversion), and the TEEHR DuckDB classes
    (join, calculated field, export).  The development below embeds the
    cells as state transformers over

    - a file system (a finite map from paths to directories and files),
    - the notebook's global variables holding data frames,
    - the log of the shell commands and library calls performed so far,

    with Python exceptions as an explicit [Raise] result.

    The download cell ([!rm -rf], [!aws s3 cp]) is the first statement
    pair of the notebook; what the download delivers is a parameter of
    the notebook.  A cell that only displays ([!tree], a frame at the end
    of a cell, [display(...)], a plot) changes nothing and is left out,
    as are the imports. *)

From Stdlib Require Import ZArith QArith Lia OrdersEx Ascii.
From stdpp Require Import base decidable option list strings gmap sorting.

Open Scope string_scope.
Open Scope list_scope.
Open Scope Z_scope.

(** ** Python values *)

Module Py.

Definition is_leap (y : Z) : bool :=
  (y mod 4 =? 0) && (negb (y mod 100 =? 0) || (y mod 400 =? 0)).

Definition days_in_month (y m : Z) : Z :=
  if m =? 2 then (if is_leap y then 29 else 28)
  else if (m =? 4) || (m =? 6) || (m =? 9) || (m =? 11) then 30
  else 31.

(** The range checks of [datetime.datetime(...)]: an object of the class
    exists only when they pass ([ValueError] otherwise). *)
Definition datetime_check (y mo d h mi s us : Z) : bool :=
  (1 <=? y) && (y <=? 9999) && (1 <=? mo) && (mo <=? 12)
  && (1 <=? d) && (d <=? days_in_month y mo)
  && (0 <=? h) && (h <? 24) && (0 <=? mi) && (mi <? 60)
  && (0 <=? s) && (s <? 60) && (0 <=? us) && (us <? 1000000).

Record datetime := mk_datetime {
  year : Z; month : Z; day : Z;
  hour : Z; minute : Z; second : Z; microsecond : Z;
  datetime_ok :
    Is_true (datetime_check year month day hour minute second microsecond)
}.

Definition datetime_fields (t : datetime) : Z * Z * Z * Z * Z * Z * Z :=
  (year t, month t, day t, hour t, minute t, second t, microsecond t).

(** A scalar held in a data frame cell or a table field.  [PyNone], [NaN]
    and [NaT] are the three missing values of pandas; all three are NULL
    once in a Parquet file or a table.  A float is kept as the rational
    it denotes; the notebook never computes on it. *)
Inductive scalar :=
| Str (s : string)
| Int (z : Z)
| Float (q : Q)
| Timestamp (t : datetime)
| PyNone
| NaN
| NaT.

Definition is_null (v : scalar) : bool :=
  match v with
  | PyNone | NaN | NaT => true
  | _ => false
  end.

End Py.
Export Py.

#[global] Instance datetime_eq_dec : EqDecision datetime.
Proof.
  intros t1 t2.
  destruct (decide (datetime_fields t1 = datetime_fields t2)) as [E|N].
  - left. destruct t1, t2. unfold datetime_fields in E; simpl in E.
    injection E as -> -> -> -> -> -> ->. f_equal. apply proof_irrel.
  - right. intros ->. by apply N.
Defined.

#[global] Instance Q_eq_dec : EqDecision Q.
Proof. solve_decision. Defined.

#[global] Instance scalar_eq_dec : EqDecision scalar.
Proof. solve_decision. Defined.

(** ** pandas data frames *)

Module Pandas.

Inductive dtype := object | int64 | float64 | datetime64_ns.

Definition dtype_name (d : dtype) : string :=
  match d with
  | object => "object"
  | int64 => "int64"
  | float64 => "float64"
  | datetime64_ns => "datetime64[ns]"
  end.

(** The dtype pandas infers for a column filled with one scalar. *)
Definition dtype_of_scalar (v : scalar) : dtype :=
  match v with
  | Str _ | PyNone => object
  | Int _ => int64
  | Float _ | NaN => float64
  | Timestamp _ | NaT => datetime64_ns
  end.

(** The value pandas puts where a label has no data. *)
Definition na_value (d : dtype) : scalar :=
  match d with
  | datetime64_ns => NaT
  | _ => NaN
  end.

Record Column := { col_dtype : dtype; col_values : list scalar }.

(** The dtype of a column once it has to hold a missing value. *)
Definition promote (d : dtype) : dtype :=
  match d with
  | int64 => float64
  | _ => d
  end.

(** The row labels of a frame or a series: the default index
    [RangeIndex(n)], with the labels 0, 1, ..., n-1, or an index holding
    given labels. *)
Inductive Index :=
| RangeIndex (n : nat)
| LabelIndex (d : dtype) (l : list scalar).

Definition labels (i : Index) : list scalar :=
  match i with
  | RangeIndex n => (λ k, Int (Z.of_nat k)) <$> seq 0 n
  | LabelIndex _ l => l
  end.

(** [len(index)] *)
Definition size (i : Index) : nat := length (labels i).

Record Series := { s_index : Index; s_dtype : dtype; s_values : list scalar }.

(** A frame: its row labels and its named columns, in column order; each
    column has one value per label. *)
Record DataFrame := { index : Index; columns : list (string * Column) }.

Definition col_names (df : DataFrame) : list string := (columns df).*1.

Fixpoint assoc {A} (k : string) (l : list (string * A)) : option A :=
  match l with
  | [] => None
  | (k', a) :: l' => if decide (k = k') then Some a else assoc k l'
  end.

(** [df[c] = ...] replaces column [c] in place when the frame has it and
    appends it as the last column otherwise. *)
Fixpoint set_col {A} (k : string) (a : A) (l : list (string * A)) : list (string * A) :=
  match l with
  | [] => [(k, a)]
  | (k', a') :: l' =>
      if decide (k = k') then (k, a) :: l' else (k', a') :: set_col k a l'
  end.

(** [df[c]] *)
Definition getitem (df : DataFrame) (c : string) : option Series :=
  col ← assoc c (columns df);
  Some {| s_index := index df; s_dtype := col_dtype col; s_values := col_values col |}.

(** [df[c] = v] for a scalar [v]: the value is broadcast to every row. *)
Definition setitem_scalar (df : DataFrame) (c : string) (v : scalar) : DataFrame :=
  {| index := index df;
     columns :=
       set_col c {| col_dtype := dtype_of_scalar v;
                    col_values := replicate (size (index df)) v |} (columns df) |}.

(** The value a series holds at a label (the first one, labels being
    unique whenever pandas has to look one up). *)
Fixpoint at_label (lbl : scalar) (idx : list scalar) (vs : list scalar) : option scalar :=
  match idx, vs with
  | i :: idx', v :: vs' => if decide (lbl = i) then Some v else at_label lbl idx' vs'
  | _, _ => None
  end.

(** [s.reindex(idx)]: the series' values at the labels [idx], the missing
    value of the dtype where the series has no such label. *)
Definition reindex (s : Series) (idx : list scalar) : list scalar :=
  (λ lbl, default (na_value (s_dtype s)) (at_label lbl (labels (s_index s)) (s_values s)))
    <$> idx.

(** A column reindexed to [n] labels it has no value for. *)
Definition all_missing (n : nat) (c : Column) : Column :=
  {| col_dtype := promote (col_dtype c);
     col_values := replicate n (na_value (promote (col_dtype c))) |}.

(** [df[c] = s] for a series [s]: the values are aligned on the frame's
    index, not taken by position.

    - A frame with no rows that is assigned a series with rows takes the
      index of the series: its columns are reindexed to it, which fills
      them with missing values, and the series is stored as it is.
    - With equal labels the values are taken as they are.
    - Otherwise pandas reindexes the series to the frame's labels, which
      it refuses ([ValueError]) when the series has duplicate labels. *)
Definition setitem_series (df : DataFrame) (c : string) (s : Series) : option DataFrame :=
  let col vs := {| col_dtype := s_dtype s; col_values := vs |} in
  if decide (labels (index df) = [] ∧ labels (s_index s) ≠ []) then
    Some {| index := s_index s;
            columns := set_col c (col (s_values s))
                         (prod_map id (all_missing (size (s_index s))) <$> columns df) |}
  else if decide (labels (s_index s) = labels (index df)) then
    Some {| index := index df; columns := set_col c (col (s_values s)) (columns df) |}
  else if decide (NoDup (labels (s_index s))) then
    Some {| index := index df;
            columns := set_col c (col (reindex s (labels (index df)))) (columns df) |}
  else None.

(** The cast of one cell to [datetime64[ns]].  A missing value becomes
    [NaT].  Parsing of text and conversion of numbers are not modelled
    (they give [None] here): the notebook casts only columns it has just
    filled with [None] or cast before. *)
Definition to_datetime64 (v : scalar) : option scalar :=
  match v with
  | PyNone | NaN | NaT => Some NaT
  | Timestamp t => Some (Timestamp t)
  | Str _ | Int _ | Float _ => None
  end.

(** [s.astype('datetime64[ns]')] *)
Definition astype_datetime64 (s : Series) : option Series :=
  vs ← mapM to_datetime64 (s_values s);
  Some {| s_index := s_index s; s_dtype := datetime64_ns; s_values := vs |}.

(** [df.rename(columns={old: new}, inplace=True)]; a frame without the
    column [old] is left as it is. *)
Definition rename (old new : string) (df : DataFrame) : DataFrame :=
  {| index := index df;
     columns := (λ '(k, c), (if decide (k = old) then new else k, c)) <$> columns df |}.

End Pandas.
Export Pandas.

(** ** Tables, files and the interpreter state *)

(** A record of a Parquet file or of a database table: its fields by
    name. *)
Definition row := list (string * scalar).

Record table := { schema : list (string * string); rows : list row }.

Definition field (r : row) (c : string) : option scalar := assoc c r.

(** The field a Parquet file holds for the index of a frame: the default
    index is kept as metadata only, another index is stored as the last
    column, named [__index_level_0__]. *)
Definition index_schema (i : Index) : list (string * string) :=
  match i with
  | RangeIndex _ => []
  | LabelIndex d _ => [("__index_level_0__", dtype_name d)]
  end.

Definition index_field (i : Index) (k : nat) : row :=
  match i with
  | RangeIndex _ => []
  | LabelIndex d l => [("__index_level_0__", default (na_value d) (l !! k))]
  end.

(** Row [i] of a frame. *)
Definition frame_row (df : DataFrame) (i : nat) : row :=
  ((λ '(k, c), (k, default (na_value (col_dtype c)) (col_values c !! i))) <$> columns df)
  ++ index_field (index df) i.

Definition frame_rows (df : DataFrame) : list row :=
  frame_row df <$> seq 0 (size (index df)).

(** What [df.to_parquet] stores: the columns with their dtypes, the index
    when it is not the default one, and the rows. *)
Definition frame_table (df : DataFrame) : table :=
  {| schema := ((λ '(k, c), (k, dtype_name (col_dtype c))) <$> columns df)
               ++ index_schema (index df);
     rows := frame_rows df |}.

Definition path := list string.

Definition parent (p : path) : path := take (length p - 1)%nat p.

(** A CSV or GeoJSON file is kept as what its reader yields.  For a CSV
    file that is the named columns of the header and, when the rows have
    one cell more than the header has names, the column of the first
    cells, which [pd.read_csv] takes as the row labels.

    Text is not parsed here.  In particular a cell that holds a time is
    a [Timestamp] from the start: [pd.read_csv] yields text for it, which
    stays text in the Parquet file and which the database casts when it
    stores the joined records.  The encoding moves that cast to the
    reader; the dtype of such a column is [datetime64[ns]] here where the
    notebook's frame has [object]. *)
Inductive content :=
| Csv (row_labels : option Column) (cols : list (string * Column))
| GeoJSON (cols : list (string * Column))
| Parquet (t : table)
| DuckDB (tables : gmap string table).

Inductive node := Dir | File (c : content).

Inductive error :=
| FileNotFoundError
| FileExistsError
| NotADirectoryError
| IsADirectoryError
| ParserError
| DataSourceError
| NameError (var : string)
| KeyError (key : string)
| ValueError
| TypeError
| AttributeError
| IOException
| CatalogException
| BinderException
| InvalidInputException.

(** One entry per shell command and per library call, in the order they
    are made. *)
Inductive event :=
| ShellRm (p : path)
| ShellAwsS3Cp (p : path)
| CallMkdir (p : path)
| CallReadFile (p : path)
| CallReadCsv (p : path)
| CallRename (var : string)
| CallSetitem (var col : string)
| CallToParquet (p : path)
| CallIsFile (p : path)
| CallUnlink (p : path)
| CallDuckDBDatabase (p : path)
| CallInsertJoinedTimeseries
| CallInsertAttributes
| CallInsertCalculatedField (name : string)
| CallGetJoinedTimeseriesSchema
| CallQueryCopy (p : path)
| CallDuckDBJoinedParquet
| CallGetJoinedTimeseries
| CallGetMetrics.

Record state := {
  fs : gmap path node;
  globals : gmap string DataFrame;
  calls : list event
}.

Inductive res (A : Type) := Val (a : A) | Err (e : error).
Arguments Val {A} a.
Arguments Err {A} e.

Definition res_bind {A B} (x : res A) (f : A → res B) : res B :=
  match x with
  | Val a => f a
  | Err e => Err e
  end.

Notation "x ←! y ; z" := (res_bind y (λ x, z))
  (at level 20, y at level 100, z at level 200, right associativity).

Definition of_option {A} (e : error) (o : option A) : res A :=
  match o with
  | Some a => Val a
  | None => Err e
  end.

Fixpoint res_mapM {A B} (f : A → res B) (l : list A) : res (list B) :=
  match l with
  | [] => Val []
  | a :: l' => b ←! f a; bs ←! res_mapM f l'; Val (b :: bs)
  end.

(** The outcome of a statement: the next state, or the exception raised
    and the state it was raised in. *)
Inductive result := Ok (st : state) | Raise (e : error) (st : state).

Definition stmt := state → result.

Definition set_fs (m : gmap path node) (st : state) : state :=
  {| fs := m; globals := globals st; calls := calls st |}.

Definition set_global (var : string) (df : DataFrame) (st : state) : state :=
  {| fs := fs st; globals := <[var := df]> (globals st); calls := calls st |}.

Definition log_call (ev : event) (st : state) : state :=
  {| fs := fs st; globals := globals st; calls := calls st ++ [ev] |}.

(** A library call: it is logged, then it updates the state or raises. *)
Definition call (ev : event) (body : state → res state) : stmt :=
  λ st, let st1 := log_call ev st in
        match body st1 with
        | Val st2 => Ok st2
        | Err e => Raise e st1
        end.

Definition get_global (var : string) (st : state) : res DataFrame :=
  of_option (NameError var) (globals st !! var).

(** Statements run one after the other; an exception ends the run. *)
Fixpoint run (prog : list stmt) (st : state) : result :=
  match prog with
  | [] => Ok st
  | s :: prog' =>
      match s st with
      | Ok st1 => run prog' st1
      | Raise e st1 => Raise e st1
      end
  end.

(** ** pathlib *)

Definition is_dir (m : gmap path node) (p : path) : bool :=
  match p with
  | [] => true
  | _ => match m !! p with Some Dir => true | _ => false end
  end.

Definition is_file (m : gmap path node) (p : path) : bool :=
  match m !! p with Some (File _) => true | _ => false end.

(** [p.mkdir(exist_ok=True, parents=True)] with [p = done ++ rest]: every
    missing directory on the way is created, an existing one is kept, and
    a file in the way raises. *)
Fixpoint mkdir_parents (done rest : path) (m : gmap path node) : res (gmap path node) :=
  match rest with
  | [] => Val m
  | seg :: rest' =>
      let p := done ++ [seg] in
      match m !! p with
      | Some (File _) =>
          Err (match rest' with [] => FileExistsError | _ => NotADirectoryError end)
      | _ => mkdir_parents p rest' (<[p := Dir]> m)
      end
  end.

Definition mkdir (p : path) : stmt :=
  call (CallMkdir p) (λ st, m ←! mkdir_parents [] p (fs st); Val (set_fs m st)).

(** Creating or replacing the file [p]. *)
Definition write_file (p : path) (c : content) (m : gmap path node) : res (gmap path node) :=
  match m !! p with
  | Some Dir => Err IsADirectoryError
  | _ => if is_dir m (parent p) then Val (<[p := File c]> m)
         else Err FileNotFoundError
  end.

Definition read_content (p : path) (m : gmap path node) : res content :=
  match m !! p with
  | Some (File c) => Val c
  | Some Dir => Err IsADirectoryError
  | None => Err FileNotFoundError
  end.

(** [p.unlink()] *)
Definition unlink (p : path) : stmt :=
  call (CallUnlink p) (λ st,
    match fs st !! p with
    | Some (File _) => Val (set_fs (delete p (fs st)) st)
    | Some Dir => Err IsADirectoryError
    | None => Err FileNotFoundError
    end).

(** [if p.is_file(): p.unlink()] *)
Definition if_is_file_unlink (p : path) : stmt :=
  λ st, let st1 := log_call (CallIsFile p) st in
        if is_file (fs st1) p then unlink p st1 else Ok st1.

(** ** The shell commands of the download cell

    A line [!command] is run by the shell; IPython raises nothing,
    whatever the exit status of the command. *)

(** [rm -rf p]: [p] and everything below it is removed; nothing happens
    when there is no [p]. *)
Definition rm_rf (p : path) (m : gmap path node) : gmap path node :=
  filter (λ kv, ¬ p `prefix_of` kv.1) m.

Definition shell_rm_rf (p : path) : stmt :=
  λ st, Ok (set_fs (rm_rf p (fs st)) (log_call (ShellRm p) st)).

(** The copy of one object to the file [dst/key]: the directories above
    the file are created as for [mkdir -p], then the file is written,
    replacing a file that is there.  The object is skipped when a file
    stands where a directory is needed, or a directory where the file
    goes. *)
Definition copy_object (dst : path) (m : gmap path node) (o : path * content)
    : gmap path node :=
  match o.1 with
  | [] => m
  | _ =>
      let q := dst ++ o.1 in
      match mkdir_parents [] (parent q) m with
      | Err _ => m
      | Val m' =>
          match m' !! q with
          | Some Dir => m'
          | _ => <[q := File o.2]> m'
          end
      end
  end.

(** [aws s3 cp --recursive src dst], for the objects [objs] the command
    transfers: each with its key relative to [src], as a path, in the
    order they are written.  [objs] is empty when the command fails (no
    network, no client). *)
Definition s3_cp_recursive (objs : list (path * content)) (dst : path)
    (m : gmap path node) : gmap path node :=
  foldl (copy_object dst) m objs.

Definition shell_aws_s3_cp (objs : list (path * content)) (dst : path) : stmt :=
  λ st, Ok (set_fs (s3_cp_recursive objs dst (fs st)) (log_call (ShellAwsS3Cp dst) st)).

(** ** pandas statements *)

Definition nrows (cols : list (string * Column)) : nat :=
  match cols with
  | [] => 0%nat
  | (_, c) :: _ => length (col_values c)
  end.

(** A frame read from a file gets the default index 0, 1, ..., n-1. *)
Definition frame_of_columns (cols : list (string * Column)) : DataFrame :=
  {| index := RangeIndex (nrows cols); columns := cols |}.

(** The frame of a CSV file: the default index, or the row labels the
    file gives. *)
Definition frame_of_csv (row_labels : option Column) (cols : list (string * Column))
    : DataFrame :=
  match row_labels with
  | None => frame_of_columns cols
  | Some l => {| index := LabelIndex (col_dtype l) (col_values l); columns := cols |}
  end.

(** [gpd.read_file(p)]: whatever is not a GeoJSON file makes the reader
    fail with [DataSourceError] (the exception of the engine pyogrio;
    with the engine fiona it is called [DriverError]), also a path with
    nothing at it. *)
Definition gpd_read_file (p : path) (m : gmap path node) : res DataFrame :=
  match m !! p with
  | Some (File (GeoJSON cols)) => Val (frame_of_columns cols)
  | _ => Err DataSourceError
  end.

(** [pd.read_csv(p)] *)
Definition pd_read_csv (p : path) (m : gmap path node) : res DataFrame :=
  c ←! read_content p m;
  match c with
  | Csv l cols => Val (frame_of_csv l cols)
  | _ => Err ParserError
  end.

(** [df.to_parquet(p)]: the frame is converted first, which fails with
    [ValueError] when two columns have one name; then the file is
    written. *)
Definition DataFrame_to_parquet (df : DataFrame) (p : path) (m : gmap path node)
    : res (gmap path node) :=
  if decide (NoDup (col_names df)) then write_file p (Parquet (frame_table df)) m
  else Err ValueError.

(** [var = gpd.read_file(p)] *)
Definition read_file (var : string) (p : path) : stmt :=
  call (CallReadFile p) (λ st,
    df ←! gpd_read_file p (fs st); Val (set_global var df st)).

(** [var = pd.read_csv(p)] *)
Definition read_csv (var : string) (p : path) : stmt :=
  call (CallReadCsv p) (λ st,
    df ←! pd_read_csv p (fs st); Val (set_global var df st)).

(** [var.rename(columns={old: new}, inplace=True)] *)
Definition rename_inplace (var old new : string) : stmt :=
  call (CallRename var) (λ st,
    df ←! get_global var st; Val (set_global var (rename old new df) st)).

(** [var.to_parquet(p)] *)
Definition to_parquet (var : string) (p : path) : stmt :=
  call (CallToParquet p) (λ st,
    df ←! get_global var st;
    m ←! DataFrame_to_parquet df p (fs st);
    Val (set_fs m st)).

(** [var[c] = v] for a scalar [v] *)
Definition setitem (var c : string) (v : scalar) : stmt :=
  call (CallSetitem var c) (λ st,
    df ←! get_global var st; Val (set_global var (setitem_scalar df c v) st)).

(** [var[c] = src[src_c].astype('datetime64[ns]')] *)
Definition setitem_astype_datetime64 (var c src src_c : string) : stmt :=
  call (CallSetitem var c) (λ st,
    sdf ←! get_global src st;
    s ←! of_option (KeyError src_c) (getitem sdf src_c);
    s' ←! of_option ValueError (astype_datetime64 s);
    df ←! get_global var st;
    df' ←! of_option ValueError (setitem_series df c s');
    Val (set_global var df' st)).

(** ** SQL values: equality and order *)

(** [a = b] in a join condition: NULL equals nothing. *)
Definition sql_eq (a b : scalar) : bool :=
  negb (is_null a) && negb (is_null b) && bool_decide (a = b).

(** Timestamps in chronological order: the fields, most significant
    first, in mixed radix. *)
Definition datetime_ordinal (t : datetime) : Z :=
  (((((year t * 12 + (month t - 1)) * 31 + (day t - 1)) * 24 + hour t) * 60
    + minute t) * 60 + second t) * 1000000 + microsecond t.

(** Text in byte order (the engine's default collation). *)
Definition string_le (s1 s2 : string) : Prop := String_as_OT.compare s1 s2 ≠ Gt.

(** The lexicographic order of two preorders: smaller on the first
    component, or equivalent there and not larger on the second. *)
Definition lex_le {A B} (R1 : A → A → Prop) (R2 : B → B → Prop) : A * B → A * B → Prop :=
  λ x y, R1 x.1 y.1 ∧ (R1 y.1 x.1 → R2 x.2 y.2).

(** The sort key of a value under [ORDER BY ... ASC]: numbers by value,
    text in byte order, timestamps in time order; values of one column
    have one type, the class number only makes the order total; NULL
    comes last (NULLS LAST is the engine's default). *)
Definition scalar_class (v : scalar) : Z :=
  match v with
  | Int _ | Float _ => 0
  | Str _ => 1
  | Timestamp _ => 2
  | PyNone | NaN | NaT => 3
  end.

Definition scalar_num (v : scalar) : Q :=
  match v with
  | Int z => inject_Z z
  | Float q => q
  | _ => 0%Q
  end.

Definition scalar_str (v : scalar) : string :=
  match v with
  | Str s => s
  | _ => ""
  end.

Definition scalar_time (v : scalar) : Z :=
  match v with
  | Timestamp t => datetime_ordinal t
  | _ => 0
  end.

Definition scalar_key (v : scalar) : Z * (Q * (string * Z)) :=
  (scalar_class v, (scalar_num v, (scalar_str v, scalar_time v))).

Definition scalar_le (a b : scalar) : Prop :=
  lex_le Z.le (lex_le Qle (lex_le string_le Z.le)) (scalar_key a) (scalar_key b).

#[global] Instance string_le_dec s1 s2 : Decision (string_le s1 s2).
Proof. unfold string_le. destruct (String_as_OT.compare s1 s2); [left|left|right]; congruence. Defined.

#[global] Instance Qle_dec (a b : Q) : Decision (Qle a b).
Proof. unfold Qle. apply _. Defined.

#[global] Instance lex_le_dec {A B} (R1 : A → A → Prop) (R2 : B → B → Prop)
  `{∀ x y, Decision (R1 x y)} `{∀ x y, Decision (R2 x y)} x y :
  Decision (lex_le R1 R2 x y).
Proof. unfold lex_le. apply _. Defined.

#[global] Instance scalar_le_dec a b : Decision (scalar_le a b).
Proof. unfold scalar_le. apply _. Defined.

(** ** The TEEHR data model and its DuckDB classes

    The classes [DuckDBDatabase] and [DuckDBJoinedParquet] belong to the
    TEEHR package, which the notebook imports.  What they do is taken from
    the data model of the specification and from the way the notebook
    calls them. *)

Module Teehr.

(** Modelled from the spec: the timeseries record (primary or secondary),
    "(location_id, value_time, value, variable_name, unit, configuration,
    reference_time)", the unit being the column [measurement_unit] of the
    files the notebook writes. *)
Record timeseries := {
  location_id : scalar;
  value_time : scalar;
  value : scalar;
  variable_name : scalar;
  measurement_unit : scalar;
  configuration : scalar;
  reference_time : scalar
}.

(** Modelled from the spec: the crosswalk, a "mapping between
    primary-location identifiers and secondary-location identifiers". *)
Record crosswalk := {
  primary_location_id : scalar;
  secondary_location_id : scalar
}.

(** Modelled from the spec: the attribute, a "(location_id,
    attribute_name, value) triple". *)
Record attribute := {
  attr_location_id : scalar;
  attribute_name : string;
  attr_value : scalar
}.

Definition timeseries_of_row (r : row) : option timeseries :=
  l ← field r "location_id";
  vt ← field r "value_time";
  v ← field r "value";
  vn ← field r "variable_name";
  mu ← field r "measurement_unit";
  c ← field r "configuration";
  rt ← field r "reference_time";
  Some {| location_id := l; value_time := vt; value := v; variable_name := vn;
          measurement_unit := mu; configuration := c; reference_time := rt |}.

Definition crosswalk_of_row (r : row) : option crosswalk :=
  p ← field r "primary_location_id";
  s ← field r "secondary_location_id";
  Some {| primary_location_id := p; secondary_location_id := s |}.

Definition attribute_of_row (r : row) : option attribute :=
  l ← field r "location_id";
  n ← field r "attribute_name";
  v ← field r "value";
  match n with
  | Str name => Some {| attr_location_id := l; attribute_name := name; attr_value := v |}
  | _ => None
  end.

(** *** The path patterns

    The database engine matches a pattern [f"{dir}/**/*.parquet"] segment
    by segment.  A segment without one of the characters [*], [?], [[]
    is a name; [**] stands for any number of directories, none included;
    any other segment is matched against a name by the engine's glob
    function: [*] matches any run of characters, [?] one character,
    [[...]] one character of the listed ones or of a range [a-z], [[!...]]
    one character that is none of them, and a backslash makes the next
    character a literal one. *)

(** The set of a bracket, after [[] or [[!]: whether the character [c] is
    in it, and the pattern after the closing bracket.  A closing bracket
    in first place is a member of the set; a set that is not closed
    matches nothing. *)
Fixpoint glob_bracket (c : ascii) (first matched : bool) (pat : list ascii)
    : option (bool * list ascii) :=
  match pat with
  | [] => None
  | p :: rest =>
      if bool_decide (p = "]"%char) && negb first then Some (matched, rest)
      else
        match rest with
        | [] => None
        | q :: rest2 =>
            if bool_decide (q = "-"%char) then
              match rest2 with
              | [] => None
              | hi :: rest3 =>
                  glob_bracket c false
                    (matched || ((nat_of_ascii p <=? nat_of_ascii c)%nat
                                 && (nat_of_ascii c <=? nat_of_ascii hi)%nat)) rest3
              end
            else glob_bracket c false (matched || bool_decide (p = c)) rest
        end
  end.

(** The non-empty suffixes of a text, the longest first. *)
Fixpoint suffixes (s : list ascii) : list (list ascii) :=
  match s with
  | [] => []
  | _ :: s' => s :: suffixes s'
  end.

Definition is_star (c : ascii) : bool := bool_decide (c = "*"%char).

Fixpoint skip_stars (pat : list ascii) : list ascii :=
  match pat with
  | c :: pat' => if is_star c then skip_stars pat' else pat
  | [] => []
  end.

(** The glob function, on a name [s] and a pattern [pat]; every step
    shortens the pattern, [fuel] bounds the steps. *)
Fixpoint glob (fuel : nat) (s pat : list ascii) : bool :=
  match fuel with
  | O => false
  | S fuel' =>
      match s, pat with
      | _, [] => bool_decide (s = [])
      | [], _ => forallb is_star pat
      | c :: s', p :: pat' =>
          if is_star p then
            match skip_stars pat' with
            | [] => true
            | pat'' => existsb (λ t, glob fuel' t pat'') (suffixes s)
            end
          else if bool_decide (p = "?"%char) then glob fuel' s' pat'
          else if bool_decide (p = "["%char) then
            let '(invert, set) :=
              match pat' with
              | e :: set' => if bool_decide (e = "!"%char) then (true, set') else (false, pat')
              | [] => (false, [])
              end in
            match glob_bracket c true false set with
            | Some (matched, rest) => xorb matched invert && glob fuel' s' rest
            | None => false
            end
          else if bool_decide (p = "\"%char) then
            match pat' with
            | [] => false
            | q :: pat'' => bool_decide (c = q) && glob fuel' s' pat''
            end
          else bool_decide (c = p) && glob fuel' s' pat'
      end
  end.

Definition has_glob (seg : string) : bool :=
  existsb (λ c, bool_decide (c = "*"%char) || bool_decide (c = "?"%char)
                || bool_decide (c = "["%char))
    (String.list_ascii_of_string seg).

(** A segment of a pattern against a name. *)
Definition segment_match (seg name : string) : bool :=
  if has_glob seg then
    glob (S (String.length seg)) (String.list_ascii_of_string name)
      (String.list_ascii_of_string seg)
  else bool_decide (name = seg).

(** The files the pattern [f"{dir}/**/*.parquet"] selects: the files
    whose path starts with directories that match the segments of [dir]
    and whose name matches [*.parquet], at any depth below. *)
Definition glob_match (dir p : path) : bool :=
  (length dir <? length p)%nat
  && bool_decide (Forall2 (λ seg name, segment_match seg name = true) dir
                    (take (length dir) p))
  && match last p with
     | Some name => segment_match "*.parquet" name
     | None => false
     end.

Definition glob_files (m : gmap path node) (dir : path) : list (path * content) :=
  omap (λ pn, match pn.2 with
              | File c => if glob_match dir pn.1 then Some (pn.1, c) else None
              | Dir => None
              end) (map_to_list m).

(** Reading the records of the selected files.  The engine accepts [**]
    once in a pattern and finds it a second time when a directory of
    [dir] is called [**]; it fails when the pattern selects no file. *)
Definition read_parquet (m : gmap path node) (dir : path) : res (list row) :=
  if bool_decide ("**" ∈ dir) then Err IOException
  else
    match glob_files m dir with
    | [] => Err IOException
    | files =>
        ts ←! res_mapM (λ pc, match pc.2 with
                              | Parquet t => Val (rows t)
                              | _ => Err InvalidInputException
                              end) files;
        Val (mjoin ts)
    end.

Definition read_records {A} (of_row : row → option A) (m : gmap path node) (dir : path) : res (list A) :=
  rs ←! read_parquet m dir;
  res_mapM (λ r, of_option BinderException (of_row r)) rs.

(** Modelled from the spec: the fields of a joined timeseries record
    before attributes and calculated fields are added; the values of the
    pair, the two locations, the time, and the static fields of the
    secondary record. *)
Definition joined_fields : list (string * string) :=
  [ ("reference_time", "TIMESTAMP"); ("value_time", "TIMESTAMP");
    ("secondary_location_id", "VARCHAR"); ("secondary_value", "FLOAT");
    ("configuration", "VARCHAR"); ("measurement_unit", "VARCHAR");
    ("variable_name", "VARCHAR"); ("primary_value", "FLOAT");
    ("primary_location_id", "VARCHAR") ].

Definition joined_row (p s : timeseries) : row :=
  [ ("reference_time", reference_time s); ("value_time", value_time s);
    ("secondary_location_id", location_id s); ("secondary_value", value s);
    ("configuration", configuration s); ("measurement_unit", measurement_unit s);
    ("variable_name", variable_name s); ("primary_value", value p);
    ("primary_location_id", location_id p) ].

(** Modelled from the spec: the join of "primary and secondary timeseries
    on location (via crosswalk) and time". *)
Definition join (P S : list timeseries) (X : list crosswalk) : list row :=
  s ← S; x ← X; p ← P;
  if sql_eq (secondary_location_id x) (location_id s)
     && sql_eq (primary_location_id x) (location_id p)
     && sql_eq (value_time s) (value_time p)
  then [joined_row p s] else [].

Definition joined_timeseries : string := "joined_timeseries".

Definition empty_joined_timeseries : table := {| schema := joined_fields; rows := [] |}.

Definition open_database (p : path) (m : gmap path node) : res (gmap string table) :=
  match m !! p with
  | Some (File (DuckDB db)) => Val db
  | _ => Err IOException
  end.

Definition get_table (name : string) (db : gmap string table) : res table :=
  of_option CatalogException (db !! name).

(** Modelled from the spec: a method of the database object [ddb] that
    changes the joined records reads the table [joined_timeseries] of the
    database file and stores the new one. *)
Definition update_joined_timeseries (ev : event) (ddb : path)
    (f : gmap path node → table → res table) : stmt :=
  call ev (λ st,
    db ←! open_database ddb (fs st);
    t ←! get_table joined_timeseries db;
    t' ←! f (fs st) t;
    Val (set_fs (<[ddb := File (DuckDB (<[joined_timeseries := t']> db))]> (fs st)) st)).

(** Modelled from the spec: [DuckDBDatabase(p)] creates the database file
    ("created ... as scratch space") with an empty table of joined
    timeseries; a database that is there already is opened. *)
Definition DuckDBDatabase (p : path) : stmt :=
  call (CallDuckDBDatabase p) (λ st,
    match fs st !! p with
    | None =>
        if is_dir (fs st) (parent p)
        then Val (set_fs (<[p := File (DuckDB {[ joined_timeseries := empty_joined_timeseries ]})]>
                            (fs st)) st)
        else Err IOException
    | Some (File (DuckDB db)) =>
        match db !! joined_timeseries with
        | Some _ => Val st
        | None =>
            Val (set_fs (<[p := File (DuckDB (<[joined_timeseries := empty_joined_timeseries]> db))]>
                           (fs st)) st)
        end
    | Some _ => Err IOException
    end).

Definition keep_fields (names : list string) (r : row) : row :=
  filter (λ kv, kv.1 ∈ names) r.

(** Modelled from the spec: [ddb.insert_joined_timeseries(...)] adds the
    joined records to the table; with [drop_added_fields] the fields that
    were added to the table before (attributes, calculated fields) are
    dropped first. *)
Definition insert_joined_timeseries (ddb primary_filepath secondary_filepath
    crosswalk_filepath : path) (drop_added_fields : bool) : stmt :=
  update_joined_timeseries CallInsertJoinedTimeseries ddb (λ m t,
    P ←! read_records timeseries_of_row m primary_filepath;
    S ←! read_records timeseries_of_row m secondary_filepath;
    X ←! read_records crosswalk_of_row m crosswalk_filepath;
    let t0 := if drop_added_fields
              then {| schema := joined_fields;
                      rows := keep_fields joined_fields.*1 <$> rows t |}
              else t in
    Val {| schema := schema t0; rows := rows t0 ++ join P S X |}).

(** The names of the attributes, each once, in order of appearance. *)
Definition attribute_names (A : list attribute) : list string :=
  remove_dups (attribute_name <$> A).

(** The value of attribute [name] at location [loc], NULL when the
    attribute table has none. *)
Definition attribute_at (A : list attribute) (loc : scalar) (name : string) : scalar :=
  match list_find (λ a, Is_true (sql_eq (attr_location_id a) loc) ∧ attribute_name a = name) A with
  | Some (_, a) => attr_value a
  | None => PyNone
  end.

(** Modelled from the spec: the joined records are "enriched with
    attributes": one new text field per attribute name, holding the value
    of that attribute at the record's primary location.  (The notebook:
    "all attribute values are added to the db as type 'str'"; how a
    number is printed is not modelled, the value is kept.) *)
Definition add_attributes (A : list attribute) (t : table) : res table :=
  let names := attribute_names A in
  if decide (Exists (λ n, n ∈ (schema t).*1) names) then Err BinderException
  else
    Val {| schema := schema t ++ ((λ n, (n, "VARCHAR")) <$> names);
           rows := (λ r, r ++ ((λ n, (n, attribute_at A (default PyNone (field r "primary_location_id")) n))
                               <$> names)) <$> rows t |}.

(** Modelled from the spec: [ddb.insert_attributes(pattern)] enriches the
    table with the attributes of the files the pattern selects. *)
Definition insert_attributes (ddb attributes_filepath : path) : stmt :=
  update_joined_timeseries CallInsertAttributes ddb (λ m t,
    A ←! read_records attribute_of_row m attributes_filepath;
    add_attributes A t).

(** Modelled from the spec: a calculated field is a new field of the
    joined records, of the given type, whose value in each record is the
    user-defined function applied to the record's parameter fields. *)
Definition add_calculated_field (new_field_name new_field_type : string)
    (parameter_names : list string) (user_defined_function : list scalar → res scalar)
    (t : table) : res table :=
  rs ←! res_mapM (λ r,
          args ←! res_mapM (λ p, of_option BinderException (field r p)) parameter_names;
          v ←! user_defined_function args;
          Val (set_col new_field_name v r)) (rows t);
  Val {| schema := set_col new_field_name new_field_type (schema t); rows := rs |}.

(** Modelled from the spec: [ddb.insert_calculated_field(...)] adds the
    calculated field to the table. *)
Definition insert_calculated_field (ddb : path) (new_field_name new_field_type : string)
    (parameter_names : list string) (user_defined_function : list scalar → res scalar) : stmt :=
  update_joined_timeseries (CallInsertCalculatedField new_field_name) ddb (λ _ t,
    add_calculated_field new_field_name new_field_type parameter_names
      user_defined_function t).

(** Modelled from the spec: [ddb.get_joined_timeseries_schema()] reads
    the table's fields, which the cell displays. *)
Definition get_joined_timeseries_schema (ddb : path) : stmt :=
  call CallGetJoinedTimeseriesSchema (λ st,
    db ←! open_database ddb (fs st);
    _ ←! get_table joined_timeseries db;
    Val st).

(** [ORDER BY cols]: ascending on the first column, ties broken by the
    next ones. *)
Fixpoint rows_le (cols : list string) (r1 r2 : row) : Prop :=
  match cols with
  | [] => True
  | c :: cols' =>
      let a := default PyNone (field r1 c) in
      let b := default PyNone (field r2 c) in
      scalar_le a b ∧ (scalar_le b a → rows_le cols' r1 r2)
  end.

#[global] Instance rows_le_dec cols r1 r2 : Decision (rows_le cols r1 r2).
Proof. induction cols as [|c cols IH]; simpl; apply _. Defined.

(** The file a [COPY ... TO] statement writes; the engine reports a file
    it cannot write as [IOException]. *)
Definition copy_to (p : path) (c : content) (m : gmap path node) : res (gmap path node) :=
  match write_file p c m with
  | Val m' => Val m'
  | Err _ => Err IOException
  end.

(** [ddb.query("COPY (SELECT * FROM name ORDER BY cols) TO 'target'
    (FORMAT PARQUET)")] *)
Definition query_copy_order_by (ddb : path) (name : string) (cols : list string)
    (target : path) : stmt :=
  call (CallQueryCopy target) (λ st,
    db ←! open_database ddb (fs st);
    t ←! get_table name db;
    if decide (Forall (λ c, c ∈ (schema t).*1) cols) then
      m ←! copy_to target
             (Parquet {| schema := schema t; rows := merge_sort (rows_le cols) (rows t) |})
             (fs st);
      Val (set_fs m st)
    else Err BinderException).

(** Modelled from the spec: the queries of the class
    [DuckDBJoinedParquet] ("simple comparative queries/plots") read the
    exported files; the frames they return are displayed and plotted, not
    stored, and are not kept here. *)
Definition DuckDBJoinedParquet (joined geometry : path) : stmt :=
  call CallDuckDBJoinedParquet (λ st, Val st).

Definition get_joined_timeseries (joined : path) : stmt :=
  call CallGetJoinedTimeseries (λ st, _ ←! read_parquet (fs st) joined; Val st).

Definition get_metrics (joined geometry : path) : stmt :=
  call CallGetMetrics (λ st,
    _ ←! read_parquet (fs st) joined;
    _ ←! read_parquet (fs st) geometry;
    Val st).

End Teehr.
Export Teehr.

(** ** The notebook *)

(** [def add_month_field(arg1: datetime) -> int: return arg1.month] *)
Definition add_month_field (arg1 : scalar) : res scalar :=
  match arg1 with
  | Timestamp t => Val (Int (month t))
  | _ => Err AttributeError
  end.

(** A function of one parameter, as the database calls it. *)
Definition udf1 (f : scalar → res scalar) (args : list scalar) : res scalar :=
  match args with
  | [a] => f a
  | _ => Err TypeError
  end.

Section Notebook.

(** [Path.home()], which is also the directory [~] of the shell. *)
Context (home : path).

(** [~/teehr/example-1] *)
Definition example_1 : path := home ++ ["teehr"; "example-1"].

(** The download cell; [objs] are the objects the download delivers. *)
Definition cell_download (objs : list (path * content)) : list stmt :=
  [ shell_rm_rf example_1;
    shell_aws_s3_cp objs example_1 ].

Definition RAW_DATA_FILEPATH : path := home ++ ["teehr"; "example-1"; "raw"].
Definition TEEHR_BASE : path := home ++ ["teehr"; "example-1"; "teehr_base"].

Definition PRIMARY_FILEPATH : path := TEEHR_BASE ++ ["primary"].
Definition SECONDARY_FILEPATH : path := TEEHR_BASE ++ ["secondary"].
Definition CROSSWALK_FILEPATH : path := TEEHR_BASE ++ ["crosswalk"].
Definition GEOMETRY_FILEPATH : path := TEEHR_BASE ++ ["geometry"].
Definition ATTRIBUTE_FILEPATH : path := TEEHR_BASE ++ ["attribute"].
Definition JOINED_FILEPATH : path := TEEHR_BASE ++ ["joined"].
Definition DB_FILEPATH : path := TEEHR_BASE ++ ["teehr.db"].

Definition cell_folders : list stmt :=
  [ mkdir PRIMARY_FILEPATH;
    mkdir SECONDARY_FILEPATH;
    mkdir CROSSWALK_FILEPATH;
    mkdir GEOMETRY_FILEPATH;
    mkdir ATTRIBUTE_FILEPATH;
    mkdir JOINED_FILEPATH ].

Definition cell_locations : list stmt :=
  [ read_file "locations" (RAW_DATA_FILEPATH ++ ["gages.geojson"]);
    rename_inplace "locations" "station" "name";
    to_parquet "locations" (GEOMETRY_FILEPATH ++ ["locations.parquet"]) ].

Definition cell_baseline_xw : list stmt :=
  [ read_csv "baseline_xw" (RAW_DATA_FILEPATH ++ ["baseline-crosswalk.csv"]);
    to_parquet "baseline_xw" (CROSSWALK_FILEPATH ++ ["baseline-crosswalk.parquet"]) ].

Definition cell_sim_xw : list stmt :=
  [ read_csv "sim_xw" (RAW_DATA_FILEPATH ++ ["sim-crosswalk.csv"]);
    to_parquet "sim_xw" (CROSSWALK_FILEPATH ++ ["sim-crosswalk.parquet"]) ].

Definition cell_attributes : list stmt :=
  [ read_csv "attr1" (RAW_DATA_FILEPATH ++ ["gage_attr_2yr_discharge.csv"]);
    to_parquet "attr1" (ATTRIBUTE_FILEPATH ++ ["2yr_discharge.parquet"]);
    read_csv "attr2" (RAW_DATA_FILEPATH ++ ["gage_attr_drainage_area_km2.csv"]);
    to_parquet "attr2" (ATTRIBUTE_FILEPATH ++ ["drainage_area.parquet"]);
    read_csv "attr3" (RAW_DATA_FILEPATH ++ ["gage_attr_ecoregion.csv"]);
    to_parquet "attr3" (ATTRIBUTE_FILEPATH ++ ["ecoregion.parquet"]) ].

Definition cell_obs_read : list stmt :=
  [ read_csv "obs_ts" (RAW_DATA_FILEPATH ++ ["obs.csv"]) ].

Definition cell_obs_convert : list stmt :=
  [ setitem "obs_ts" "configuration" (Str "usgs");
    setitem "obs_ts" "variable_name" (Str "streamflow_daily_mean");
    setitem "obs_ts" "measurement_unit" (Str "cms");
    setitem "obs_ts" "reference_time" PyNone;
    setitem_astype_datetime64 "obs_ts" "reference_time" "obs_ts" "reference_time";
    to_parquet "obs_ts" (PRIMARY_FILEPATH ++ ["obs.parquet"]) ].

Definition cell_baseline_read : list stmt :=
  [ read_csv "baseline_ts" (RAW_DATA_FILEPATH ++ ["baseline.csv"]) ].

Definition cell_baseline_convert : list stmt :=
  [ setitem "baseline_ts" "configuration" (Str "baseline");
    setitem "baseline_ts" "variable_name" (Str "streamflow_daily_mean");
    setitem "baseline_ts" "measurement_unit" (Str "cms");
    setitem "baseline_ts" "reference_time" PyNone;
    setitem_astype_datetime64 "baseline_ts" "reference_time" "baseline_ts" "reference_time";
    to_parquet "baseline_ts" (SECONDARY_FILEPATH ++ ["baseline.parquet"]) ].

Definition cell_sim_read : list stmt :=
  [ read_csv "sim_ts" (RAW_DATA_FILEPATH ++ ["sim.csv"]) ].

(** The cast reads the column of [baseline_ts], as the cell has it. *)
Definition cell_sim_convert : list stmt :=
  [ setitem "sim_ts" "configuration" (Str "sim");
    setitem "sim_ts" "variable_name" (Str "streamflow_daily_mean");
    setitem "sim_ts" "measurement_unit" (Str "cms");
    setitem "sim_ts" "reference_time" PyNone;
    setitem_astype_datetime64 "sim_ts" "reference_time" "baseline_ts" "reference_time";
    to_parquet "sim_ts" (SECONDARY_FILEPATH ++ ["sim.parquet"]) ].

(** The patterns [f"{dir}/**/*.parquet"], each given by its directory. *)
Definition PRIMARY_FOLDER : path := PRIMARY_FILEPATH.
Definition SECONDARY_FOLDER : path := SECONDARY_FILEPATH.
Definition GEOMETRY_FOLDER : path := GEOMETRY_FILEPATH.
Definition CROSSWALK_FOLDER : path := CROSSWALK_FILEPATH.
Definition ATTRIBUTE_FOLDER : path := ATTRIBUTE_FILEPATH.
Definition JOINED_FOLDER : path := JOINED_FILEPATH.

(** The database object [ddb] is the database file it was opened on. *)
Definition ddb : path := DB_FILEPATH.

Definition cell_database : list stmt :=
  [ if_is_file_unlink DB_FILEPATH;
    DuckDBDatabase DB_FILEPATH ].

Definition cell_insert_joined : list stmt :=
  [ insert_joined_timeseries ddb PRIMARY_FOLDER SECONDARY_FOLDER CROSSWALK_FOLDER true ].

Definition cell_insert_attributes : list stmt :=
  [ insert_attributes ddb ATTRIBUTE_FOLDER ].

Definition cell_month : list stmt :=
  [ insert_calculated_field ddb "month" "INTEGER" ["value_time"] (udf1 add_month_field) ].

Definition cell_schema : list stmt :=
  [ get_joined_timeseries_schema ddb ].

Definition cell_export : list stmt :=
  [ query_copy_order_by ddb "joined_timeseries"
      ["configuration"; "primary_location_id"; "value_time"]
      (JOINED_FILEPATH ++ ["joined.parquet"]) ].

Definition cell_delete_database : list stmt :=
  [ if_is_file_unlink DB_FILEPATH ].

Definition cell_queries : list stmt :=
  [ DuckDBJoinedParquet JOINED_FOLDER GEOMETRY_FOLDER;
    get_joined_timeseries JOINED_FOLDER;
    get_metrics JOINED_FOLDER GEOMETRY_FOLDER ].

(** The cells in the order of the notebook, under its three headings. *)
Definition section_convert : list stmt :=
  cell_folders ++ cell_locations ++ cell_baseline_xw ++ cell_sim_xw ++ cell_attributes
  ++ cell_obs_read ++ cell_obs_convert ++ cell_baseline_read ++ cell_baseline_convert
  ++ cell_sim_read ++ cell_sim_convert.

Definition section_join : list stmt :=
  cell_database ++ cell_insert_joined ++ cell_insert_attributes ++ cell_month
  ++ cell_schema ++ cell_export ++ cell_delete_database.

Definition section_query : list stmt := cell_queries.

(** The cells after the download cell. *)
Definition pipeline : list stmt := section_convert ++ section_join ++ section_query.

Definition notebook (objs : list (path * content)) : list stmt :=
  cell_download objs ++ pipeline.

(** The Parquet files the cells name as outputs. *)
Definition parquet_outputs : list path :=
  [ GEOMETRY_FILEPATH ++ ["locations.parquet"];
    CROSSWALK_FILEPATH ++ ["baseline-crosswalk.parquet"];
    CROSSWALK_FILEPATH ++ ["sim-crosswalk.parquet"];
    ATTRIBUTE_FILEPATH ++ ["2yr_discharge.parquet"];
    ATTRIBUTE_FILEPATH ++ ["drainage_area.parquet"];
    ATTRIBUTE_FILEPATH ++ ["ecoregion.parquet"];
    PRIMARY_FILEPATH ++ ["obs.parquet"];
    SECONDARY_FILEPATH ++ ["baseline.parquet"];
    SECONDARY_FILEPATH ++ ["sim.parquet"];
    JOINED_FILEPATH ++ ["joined.parquet"] ].

(** The six folders of the TEEHR base directory. *)
Definition table_folders : list path :=
  [ PRIMARY_FILEPATH; SECONDARY_FILEPATH; CROSSWALK_FILEPATH;
    GEOMETRY_FILEPATH; ATTRIBUTE_FILEPATH; JOINED_FILEPATH ].

(** The three timeseries conversions: input file, cells, output file. *)
Definition timeseries_cells : list (path * list stmt * path) :=
  [ (RAW_DATA_FILEPATH ++ ["obs.csv"], cell_obs_read ++ cell_obs_convert,
     PRIMARY_FILEPATH ++ ["obs.parquet"]);
    (RAW_DATA_FILEPATH ++ ["baseline.csv"], cell_baseline_read ++ cell_baseline_convert,
     SECONDARY_FILEPATH ++ ["baseline.parquet"]);
    (RAW_DATA_FILEPATH ++ ["sim.csv"], cell_sim_read ++ cell_sim_convert,
     SECONDARY_FILEPATH ++ ["sim.parquet"]) ].

(** The kinds of table of a TEEHR dataset and their folders. *)
Inductive entity := Primary | Secondary | Crosswalk | Geometry | Attribute | Joined.

Definition folder (e : entity) : string :=
  match e with
  | Primary => "primary"
  | Secondary => "secondary"
  | Crosswalk => "crosswalk"
  | Geometry => "geometry"
  | Attribute => "attribute"
  | Joined => "joined"
  end.

(** The raw files the cells convert, with the kind of table each cell
    says it converts and the name of the file it writes. *)
Definition converted_inputs : list (string * entity * string) :=
  [ ("gages.geojson", Geometry, "locations.parquet");
    ("baseline-crosswalk.csv", Crosswalk, "baseline-crosswalk.parquet");
    ("sim-crosswalk.csv", Crosswalk, "sim-crosswalk.parquet");
    ("gage_attr_2yr_discharge.csv", Attribute, "2yr_discharge.parquet");
    ("gage_attr_drainage_area_km2.csv", Attribute, "drainage_area.parquet");
    ("gage_attr_ecoregion.csv", Attribute, "ecoregion.parquet");
    ("obs.csv", Primary, "obs.parquet");
    ("baseline.csv", Secondary, "baseline.parquet");
    ("sim.csv", Secondary, "sim.parquet") ].


Definition section_convert_calls : list event :=
  [ CallMkdir PRIMARY_FILEPATH; CallMkdir SECONDARY_FILEPATH; CallMkdir CROSSWALK_FILEPATH;
    CallMkdir GEOMETRY_FILEPATH; CallMkdir ATTRIBUTE_FILEPATH; CallMkdir JOINED_FILEPATH;
    CallReadFile (RAW_DATA_FILEPATH ++ ["gages.geojson"]);
    CallRename "locations";
    CallToParquet (GEOMETRY_FILEPATH ++ ["locations.parquet"]);
    CallReadCsv (RAW_DATA_FILEPATH ++ ["baseline-crosswalk.csv"]);
    CallToParquet (CROSSWALK_FILEPATH ++ ["baseline-crosswalk.parquet"]);
    CallReadCsv (RAW_DATA_FILEPATH ++ ["sim-crosswalk.csv"]);
    CallToParquet (CROSSWALK_FILEPATH ++ ["sim-crosswalk.parquet"]);
    CallReadCsv (RAW_DATA_FILEPATH ++ ["gage_attr_2yr_discharge.csv"]);
    CallToParquet (ATTRIBUTE_FILEPATH ++ ["2yr_discharge.parquet"]);
    CallReadCsv (RAW_DATA_FILEPATH ++ ["gage_attr_drainage_area_km2.csv"]);
    CallToParquet (ATTRIBUTE_FILEPATH ++ ["drainage_area.parquet"]);
    CallReadCsv (RAW_DATA_FILEPATH ++ ["gage_attr_ecoregion.csv"]);
    CallToParquet (ATTRIBUTE_FILEPATH ++ ["ecoregion.parquet"]);
    CallReadCsv (RAW_DATA_FILEPATH ++ ["obs.csv"]);
    CallSetitem "obs_ts" "configuration"; CallSetitem "obs_ts" "variable_name";
    CallSetitem "obs_ts" "measurement_unit"; CallSetitem "obs_ts" "reference_time";
    CallSetitem "obs_ts" "reference_time";
    CallToParquet (PRIMARY_FILEPATH ++ ["obs.parquet"]);
    CallReadCsv (RAW_DATA_FILEPATH ++ ["baseline.csv"]);
    CallSetitem "baseline_ts" "configuration"; CallSetitem "baseline_ts" "variable_name";
    CallSetitem "baseline_ts" "measurement_unit"; CallSetitem "baseline_ts" "reference_time";
    CallSetitem "baseline_ts" "reference_time";
    CallToParquet (SECONDARY_FILEPATH ++ ["baseline.parquet"]);
    CallReadCsv (RAW_DATA_FILEPATH ++ ["sim.csv"]);
    CallSetitem "sim_ts" "configuration"; CallSetitem "sim_ts" "variable_name";
    CallSetitem "sim_ts" "measurement_unit"; CallSetitem "sim_ts" "reference_time";
    CallSetitem "sim_ts" "reference_time";
    CallToParquet (SECONDARY_FILEPATH ++ ["sim.parquet"]) ].

Definition section_join_calls (db_exists : bool) : list event :=
  [ CallIsFile DB_FILEPATH ]
  ++ (if db_exists then [ CallUnlink DB_FILEPATH ] else [])
  ++ [ CallDuckDBDatabase DB_FILEPATH;
       CallInsertJoinedTimeseries;
       CallInsertAttributes;
       CallInsertCalculatedField "month";
       CallGetJoinedTimeseriesSchema;
       CallQueryCopy (JOINED_FILEPATH ++ ["joined.parquet"]);
       CallIsFile DB_FILEPATH;
       CallUnlink DB_FILEPATH ].

Definition section_query_calls : list event :=
  [ CallDuckDBJoinedParquet; CallGetJoinedTimeseries; CallGetMetrics ].

Definition pipeline_calls (db_exists : bool) : list event :=
  section_convert_calls ++ section_join_calls db_exists ++ section_query_calls.


(** The changes the cells after the download may make to the file
    system: a new directory on the way to one of the six folders, one of
    the Parquet outputs, or the database file deleted or created. *)
Definition fs_changes (m m' : gmap path node) : Prop :=
  ∀ p : path,
    m' !! p = m !! p ∨
    (m !! p = None ∧ m' !! p = Some Dir ∧ ∃ d, d ∈ table_folders ∧ p `prefix_of` d) ∨
    (p ∈ parquet_outputs ∧ ∃ t, m' !! p = Some (File (Parquet t))) ∨
    (p = DB_FILEPATH ∧ (m' !! p = None ∨ ∃ db, m' !! p = Some (File (DuckDB db)))).

End Notebook.

(** The state a run ends in, completed or not. *)
Definition final (r : result) : state :=
  match r with
  | Ok st => st
  | Raise _ st => st
  end.

(** A statement that leaves the entry of the file system at [p] as it is,
    whether it returns or raises. *)
Definition preserves (p : path) (s : stmt) : Prop :=
  ∀ st, fs (final (s st)) !! p = fs st !! p.

(** A statement that, when it returns, has logged the one call [ev]. *)
Definition logs (s : stmt) (ev : event) : Prop :=
  ∀ st st', s st = Ok st' → calls st' = calls st ++ [ev].

(** The four static columns of a conversion cell, assigned in the cell's
    order. *)
Definition add_static_columns (cfg : string) (df : DataFrame) : DataFrame :=
  setitem_scalar
    (setitem_scalar
       (setitem_scalar
          (setitem_scalar df "configuration" (Str cfg))
          "variable_name" (Str "streamflow_daily_mean"))
       "measurement_unit" (Str "cms"))
    "reference_time" PyNone.

(** The statements of a conversion cell: frame [var], configuration
    [cfg], cast of the column of frame [src], output file [target]. *)
Definition convert (var cfg src : string) (target : path) : list stmt :=
  [ setitem var "configuration" (Str cfg);
    setitem var "variable_name" (Str "streamflow_daily_mean");
    setitem var "measurement_unit" (Str "cms");
    setitem var "reference_time" PyNone;
    setitem_astype_datetime64 var "reference_time" src "reference_time";
    to_parquet var target ].

(** What a statement may do to the file system. *)
Inductive effect :=
| NoEffect
| MakesDirs (q : path)
| WritesParquet (q : path)
| Database (q : path).

Definition has_effect (s : stmt) (e : effect) : Prop :=
  ∀ st,
    let m := fs st in
    let m' := fs (final (s st)) in
    match e with
    | NoEffect => m' = m
    | MakesDirs q =>
        ∀ p : path,
          m' !! p = m !! p ∨ (m !! p = None ∧ m' !! p = Some Dir ∧ p `prefix_of` q)
    | WritesParquet q => m' = m ∨ ∃ t, m' = <[q := File (Parquet t)]> m
    | Database q =>
        (∀ p : path, p ≠ q → m' !! p = m !! p) ∧
        (m' !! q = m !! q ∨ m' !! q = None ∨ ∃ db, m' !! q = Some (File (DuckDB db)))
    end.

Definition effect_avoids (p : path) (e : effect) : Prop :=
  match e with
  | NoEffect => True
  | MakesDirs q => ¬ p `prefix_of` q
  | WritesParquet q | Database q => p ≠ q
  end.

(** The names of the columns after the four static columns are assigned:
    a column the frame has keeps its place, a new one comes last. *)
Definition add_name (k : string) (names : list string) : list string :=
  if decide (k ∈ names) then names else names ++ [k].

Definition with_static_columns (names : list string) : list string :=
  add_name "reference_time"
    (add_name "measurement_unit" (add_name "variable_name" (add_name "configuration" names))).


Definition effect_allowed (home : path) (e : effect) : Prop :=
  match e with
  | NoEffect => True
  | MakesDirs q => q ∈ table_folders home
  | WritesParquet q => q ∈ parquet_outputs home
  | Database q => q = DB_FILEPATH home
  end.

(** A statement that, when it returns, has left a Parquet file at [q]. *)
Definition writes (s : stmt) (q : path) : Prop :=
  ∀ st st', s st = Ok st' → ∃ t, fs st' !! q = Some (File (Parquet t)).

(** The state the download cell leaves. *)
Definition downloaded (home : path) (objs : list (path * content)) (st : state) : state :=
  final (run (cell_download home objs) st).

(** ** The failures of the library

    [library_raises s st e]: the library function that statement [s]
    calls fails with the exception [e] in state [st], or a name the
    statement uses is not bound ([NameError]).  The failures are those
    of the functions of pathlib, pandas, geopandas and the database
    classes as defined above; the shell commands and the test
    [p.is_file()] have none. *)
Inductive library_raises : stmt → state → error → Prop :=
| mkdir_raises p st e :
    mkdir_parents [] p (fs st) = Err e → library_raises (mkdir p) st e
| read_file_raises var p st e :
    gpd_read_file p (fs st) = Err e → library_raises (read_file var p) st e
| read_csv_raises var p st e :
    pd_read_csv p (fs st) = Err e → library_raises (read_csv var p) st e
| rename_unbound var old new st :
    globals st !! var = None →
    library_raises (rename_inplace var old new) st (NameError var)
| to_parquet_unbound var p st :
    globals st !! var = None → library_raises (to_parquet var p) st (NameError var)
| to_parquet_raises var p st df e :
    globals st !! var = Some df → DataFrame_to_parquet df p (fs st) = Err e →
    library_raises (to_parquet var p) st e
| setitem_unbound var c v st :
    globals st !! var = None → library_raises (setitem var c v) st (NameError var)
| astype_source_unbound var c src src_c st :
    globals st !! src = None →
    library_raises (setitem_astype_datetime64 var c src src_c) st (NameError src)
| astype_no_column var c src src_c st sdf :
    globals st !! src = Some sdf → getitem sdf src_c = None →
    library_raises (setitem_astype_datetime64 var c src src_c) st (KeyError src_c)
| astype_raises var c src src_c st sdf s :
    globals st !! src = Some sdf → getitem sdf src_c = Some s →
    astype_datetime64 s = None →
    library_raises (setitem_astype_datetime64 var c src src_c) st ValueError
| astype_target_unbound var c src src_c st sdf s s' :
    globals st !! src = Some sdf → getitem sdf src_c = Some s →
    astype_datetime64 s = Some s' → globals st !! var = None →
    library_raises (setitem_astype_datetime64 var c src src_c) st (NameError var)
| setitem_series_raises var c src src_c st sdf s s' df :
    globals st !! src = Some sdf → getitem sdf src_c = Some s →
    astype_datetime64 s = Some s' → globals st !! var = Some df →
    setitem_series df c s' = None →
    library_raises (setitem_astype_datetime64 var c src src_c) st ValueError
| DuckDBDatabase_no_directory p st :
    fs st !! p = None → is_dir (fs st) (parent p) = false →
    library_raises (DuckDBDatabase p) st IOException
| DuckDBDatabase_no_database p st n :
    fs st !! p = Some n → (∀ db, n ≠ File (DuckDB db)) →
    library_raises (DuckDBDatabase p) st IOException
| update_no_database ev ddb f st e :
    open_database ddb (fs st) = Err e →
    library_raises (update_joined_timeseries ev ddb f) st e
| update_no_table ev ddb f st db e :
    open_database ddb (fs st) = Val db → get_table joined_timeseries db = Err e →
    library_raises (update_joined_timeseries ev ddb f) st e
| update_raises ev ddb f st db t e :
    open_database ddb (fs st) = Val db → get_table joined_timeseries db = Val t →
    f (fs st) t = Err e →
    library_raises (update_joined_timeseries ev ddb f) st e
| schema_no_database ddb st e :
    open_database ddb (fs st) = Err e →
    library_raises (get_joined_timeseries_schema ddb) st e
| schema_no_table ddb st db e :
    open_database ddb (fs st) = Val db → get_table joined_timeseries db = Err e →
    library_raises (get_joined_timeseries_schema ddb) st e
| query_no_database ddb name cols target st e :
    open_database ddb (fs st) = Err e →
    library_raises (query_copy_order_by ddb name cols target) st e
| query_no_table ddb name cols target st db e :
    open_database ddb (fs st) = Val db → get_table name db = Err e →
    library_raises (query_copy_order_by ddb name cols target) st e
| query_no_column ddb name cols target st db t :
    open_database ddb (fs st) = Val db → get_table name db = Val t →
    ¬ Forall (λ c, c ∈ (schema t).*1) cols →
    library_raises (query_copy_order_by ddb name cols target) st BinderException
| query_copy_raises ddb name cols target st db t e :
    open_database ddb (fs st) = Val db → get_table name db = Val t →
    Forall (λ c, c ∈ (schema t).*1) cols →
    copy_to target
      (Parquet {| schema := schema t; rows := merge_sort (rows_le cols) (rows t) |})
      (fs st) = Err e →
    library_raises (query_copy_order_by ddb name cols target) st e
| get_joined_timeseries_raises joined st e :
    read_parquet (fs st) joined = Err e →
    library_raises (get_joined_timeseries joined) st e
| get_metrics_raises_joined joined geometry st e :
    read_parquet (fs st) joined = Err e →
    library_raises (get_metrics joined geometry) st e
| get_metrics_raises_geometry joined geometry st rs e :
    read_parquet (fs st) joined = Val rs → read_parquet (fs st) geometry = Err e →
    library_raises (get_metrics joined geometry) st e.

(** A statement that is one shell command, one library call or the
    guarded [unlink], with nothing around it: no [try], no loop, no test
    of a result. *)
Inductive plain_statement : stmt → Prop :=
| plain_rm_rf p : plain_statement (shell_rm_rf p)
| plain_aws_s3_cp objs p : plain_statement (shell_aws_s3_cp objs p)
| plain_mkdir p : plain_statement (mkdir p)
| plain_read_file var p : plain_statement (read_file var p)
| plain_read_csv var p : plain_statement (read_csv var p)
| plain_rename var old new : plain_statement (rename_inplace var old new)
| plain_setitem var c v : plain_statement (setitem var c v)
| plain_setitem_astype var c src src_c :
    plain_statement (setitem_astype_datetime64 var c src src_c)
| plain_to_parquet var p : plain_statement (to_parquet var p)
| plain_guard p : plain_statement (if_is_file_unlink p)
| plain_DuckDBDatabase p : plain_statement (DuckDBDatabase p)
| plain_update ev ddb f : plain_statement (update_joined_timeseries ev ddb f)
| plain_schema ddb : plain_statement (get_joined_timeseries_schema ddb)
| plain_query ddb name cols target :
    plain_statement (query_copy_order_by ddb name cols target)
| plain_DuckDBJoinedParquet joined geometry :
    plain_statement (DuckDBJoinedParquet joined geometry)
| plain_get_joined_timeseries joined : plain_statement (get_joined_timeseries joined)
| plain_get_metrics joined geometry : plain_statement (get_metrics joined geometry).

(** ** The frames the conversion cells save *)

(** The column reference_time after the cast, for a frame with the index
    [i]: missing in every row. *)
Definition missing_reference_time (i : Index) : Series :=
  {| s_index := i; s_dtype := datetime64_ns; s_values := replicate (size i) NaT |}.

(** The frame a timeseries cell saves, from the frame [df] it has read:
    the four static columns assigned, then the column reference_time
    assigned from the cast column of a frame with the index [src] (the
    frame's own index in the cells of obs and baseline, the index of
    [baseline_ts] in the cell of sim). *)
Definition converted (cfg : string) (src : Index) (df : DataFrame) : option DataFrame :=
  setitem_series (add_static_columns cfg df) "reference_time" (missing_reference_time src).

(** The frame a reader makes of a raw file. *)
Definition read_frame (c : content) : option DataFrame :=
  match c with
  | Csv l cols => Some (frame_of_csv l cols)
  | GeoJSON cols => Some (frame_of_columns cols)
  | _ => None
  end.

(** The names of the four static columns. *)
Definition static_columns : list string :=
  [ "configuration"; "variable_name"; "measurement_unit"; "reference_time" ].

(** The columns the cell of a raw file assigns, and the name under which
    it saves a column of the file. *)
Definition assigned (input : string) : list string :=
  if decide (input ∈ ["obs.csv"; "baseline.csv"; "sim.csv"]) then static_columns else [].

Definition saved_name (input k : string) : string :=
  if decide (input = "gages.geojson" ∧ k = "station") then "name" else k.

(** The table [t] holds the rows of the frame [f] read from the raw file
    [input]: record [i] of the table has, for every column of the frame
    that the cell does not assign, the frame's value of row [i]. *)
Definition holds_rows (input : string) (f : DataFrame) (t : table) : Prop :=
  ∀ i, (i < size (index f))%nat →
    ∃ r, rows t !! i = Some r ∧
      ∀ k col, assoc k (columns f) = Some col → k ∉ assigned input →
        field r (saved_name input k)
        = Some (default (na_value (col_dtype col)) (col_values col !! i)).

(** The CSV files that are saved as they are read: input and output. *)
Definition csv_conversions (home : path) : list (path * path) :=
  [ (RAW_DATA_FILEPATH home ++ ["baseline-crosswalk.csv"],
     CROSSWALK_FILEPATH home ++ ["baseline-crosswalk.parquet"]);
    (RAW_DATA_FILEPATH home ++ ["sim-crosswalk.csv"],
     CROSSWALK_FILEPATH home ++ ["sim-crosswalk.parquet"]);
    (RAW_DATA_FILEPATH home ++ ["gage_attr_2yr_discharge.csv"],
     ATTRIBUTE_FILEPATH home ++ ["2yr_discharge.parquet"]);
    (RAW_DATA_FILEPATH home ++ ["gage_attr_drainage_area_km2.csv"],
     ATTRIBUTE_FILEPATH home ++ ["drainage_area.parquet"]);
    (RAW_DATA_FILEPATH home ++ ["gage_attr_ecoregion.csv"],
     ATTRIBUTE_FILEPATH home ++ ["ecoregion.parquet"]) ].

(** The fields of a timeseries record as the data model of the
    specification lists them, and as the cells write them. *)
Definition spec_timeseries_fields : list string :=
  [ "location_id"; "value_time"; "value"; "variable_name"; "unit"; "configuration";
    "reference_time" ].

Definition timeseries_fields : list string :=
  [ "location_id"; "value_time"; "value"; "configuration"; "variable_name";
    "measurement_unit"; "reference_time" ].

(** A timeseries CSV file as the data model has it: the three columns
    location_id, value_time and value, and no cell more in a row. *)
Definition timeseries_csv (c : content) : Prop :=
  ∃ cols, c = Csv None cols ∧ cols.*1 = [ "location_id"; "value_time"; "value" ].

(** Whether the download puts a file where the database file goes: the
    outcome of the download on an empty disk. *)
Definition delivers_database (home : path) (objs : list (path * content)) : bool :=
  is_file (s3_cp_recursive objs (example_1 home) ∅) (DB_FILEPATH home).

(** A statement that leaves every directory in place, whether it returns
    or raises. *)
Definition keeps_dirs (s : stmt) : Prop :=
  ∀ st (p : path), fs st !! p = Some Dir → fs (final (s st)) !! p = Some Dir.

(** The statements between the cell that opens the database and the cell
    that deletes its file. *)
Definition join_cells (home : path) : list stmt :=
  cell_insert_joined home ++ cell_insert_attributes home ++ cell_month home
  ++ cell_schema home ++ cell_export home.

Definition is_database (m : gmap path node) (p : path) : Prop :=
  ∃ db, m !! p = Some (File (DuckDB db)).

(** A statement that leaves a database file a database file, whether it
    returns or raises. *)
Definition keeps_database (p : path) (s : stmt) : Prop :=
  ∀ st, is_database (fs st) p → is_database (fs (final (s st))) p.

(** Whether a run completed, and the exception it raised if not. *)
Definition is_ok (r : result) : bool :=
  match r with
  | Ok _ => true
  | Raise _ _ => false
  end.

Definition raised (r : result) : option error :=
  match r with
  | Ok _ => None
  | Raise e _ => Some e
  end.

(** A record of the Parquet files a path pattern selects. *)
Definition record_in {A} (of_row : row → option A) (m : gmap path node) (dir : path)
    (a : A) : Prop :=
  ∃ (p : path) t r,
    glob_match dir p = true ∧ m !! p = Some (File (Parquet t)) ∧
    r ∈ rows t ∧ of_row r = Some a.

(** ** A small dataset

    Two gauges, two simulations and one attribute file per attribute, in
    the layout the notebook reads; used to run the notebook. *)

Definition example_home : path := ["home"; "jovyan"].

Definition jan_1 : datetime := mk_datetime 2020 1 1 0 0 0 0 I.
Definition feb_1 : datetime := mk_datetime 2020 2 1 0 0 0 0 I.

Definition text_column (l : list string) : Column :=
  {| col_dtype := object; col_values := Str <$> l |}.

Definition time_column (l : list datetime) : Column :=
  {| col_dtype := datetime64_ns; col_values := Timestamp <$> l |}.

Definition float_column (l : list Q) : Column :=
  {| col_dtype := float64; col_values := Float <$> l |}.

Definition example_attribute (name : string) (values : list string) : content :=
  Csv None [ ("location_id", text_column ["gage-A"; "gage-B"]);
             ("attribute_name", text_column [name; name]);
             ("value", text_column values) ].

Definition example_raw : list (string * content) :=
  [ ("gages.geojson",
     GeoJSON [ ("id", text_column ["gage-A"; "gage-B"]);
               ("station", text_column ["A"; "B"]);
               ("geometry", text_column ["POINT (1 2)"; "POINT (3 4)"]) ]);
    ("baseline-crosswalk.csv",
     Csv None [ ("primary_location_id", text_column ["gage-A"; "gage-B"]);
                ("secondary_location_id", text_column ["fcst-1"; "fcst-2"]) ]);
    ("sim-crosswalk.csv",
     Csv None [ ("primary_location_id", text_column ["gage-A"]);
                ("secondary_location_id", text_column ["sim-1"]) ]);
    ("gage_attr_2yr_discharge.csv", example_attribute "2yr_discharge" ["100"; "200"]);
    ("gage_attr_drainage_area_km2.csv", example_attribute "drainage_area" ["10"; "20"]);
    ("gage_attr_ecoregion.csv", example_attribute "ecoregion" ["coastal"; "mountain"]);
    ("obs.csv",
     Csv None [ ("location_id", text_column ["gage-A"; "gage-A"; "gage-B"]);
                ("value_time", time_column [jan_1; feb_1; jan_1]);
                ("value", float_column [1; 2; 3]%Q) ]);
    ("baseline.csv",
     Csv None [ ("location_id", text_column ["fcst-1"; "fcst-2"]);
                ("value_time", time_column [jan_1; jan_1]);
                ("value", float_column [5; 6]%Q) ]);
    ("sim.csv",
     Csv None [ ("location_id", text_column ["sim-1"; "sim-1"; "sim-1"]);
                ("value_time", time_column [feb_1; jan_1; jan_1]);
                ("value", float_column [7; 8; 9]%Q) ]) ].

(** The objects of a download: the raw files, under the key [raw/]. *)
Definition objects_of (raw : list (string * content)) : list (path * content) :=
  (λ '(name, c), (["raw"; name], c)) <$> raw.

Definition example_objects : list (path * content) := objects_of example_raw.

(** The download without the file [gages.geojson]. *)
Definition example_objects_without_gages : list (path * content) :=
  objects_of (filter (λ nc, nc.1 ≠ "gages.geojson") example_raw).


(** The download with an [obs.csv] that has no column "value". *)
Definition example_objects_without_values : list (path * content) :=
  objects_of
    (set_col "obs.csv"
       (Csv None [ ("location_id", text_column ["gage-A"; "gage-A"; "gage-B"]);
                   ("value_time", time_column [jan_1; feb_1; jan_1]) ])
       example_raw).

(** A disk with the home directory and what an earlier run of the
    notebook has left: the directory of the example with a raw file and a
    database file. *)
Definition example_fs : gmap path node :=
  list_to_map
    [ (["home"], Dir); (example_home, Dir);
      (example_home ++ ["teehr"], Dir);
      (example_1 example_home, Dir);
      (RAW_DATA_FILEPATH example_home, Dir);
      (RAW_DATA_FILEPATH example_home ++ ["old.csv"], File (Csv None []));
      (TEEHR_BASE example_home, Dir);
      (DB_FILEPATH example_home, File (DuckDB ∅)) ].

Definition example_state : state := {| fs := example_fs; globals := ∅; calls := [] |}.

(** A disk with nothing on it. *)
Definition empty_state : state := {| fs := ∅; globals := ∅; calls := [] |}.


(** The states of the small dataset along a run of the notebook. *)
Definition example_downloaded : state := downloaded example_home example_objects example_state.

Definition example_before_sim : state :=
  final (run (cell_folders example_home ++ cell_locations example_home
              ++ cell_baseline_xw example_home ++ cell_sim_xw example_home
              ++ cell_attributes example_home
              ++ cell_obs_read example_home ++ cell_obs_convert example_home
              ++ cell_baseline_read example_home ++ cell_baseline_convert example_home
              ++ cell_sim_read example_home) example_downloaded).

Definition example_converted : state :=
  final (run (section_convert example_home) example_downloaded).

Definition example_joined : state :=
  final (run (cell_database example_home ++ cell_insert_joined example_home
              ++ cell_insert_attributes example_home) example_converted).

Definition example_with_month : state :=
  final (run (cell_month example_home) example_joined).

Definition example_exported : state :=
  final (run (cell_export example_home) example_with_month).

Definition example_final : state :=
  final (run (notebook example_home example_objects) example_state).

(** ** Relations between file systems *)

(** What the download cell may change at a path that is not at or below
    [dst]: nothing, or a missing directory above [dst] is created. *)
Definition frame_above (dst : path) (m m' : gmap path node) : Prop :=
  ∀ q : path, ¬ dst `prefix_of` q →
    m' !! q = m !! q ∨ (m !! q = None ∧ m' !! q = Some Dir ∧ q `prefix_of` dst).


(** * Properties *)

(** ** Running statements *)

Lemma run_app prog1 prog2 st :
  run (prog1 ++ prog2) st =
  match run prog1 st with
  | Ok st1 => run prog2 st1
  | Raise e st1 => Raise e st1
  end.
Proof.
  revert st. induction prog1 as [|s prog1 IH]; intros st; simpl; [done|].
  destruct (s st); [apply IH | done].
Qed.

Lemma run_app_Ok prog1 prog2 st st' :
  run (prog1 ++ prog2) st = Ok st' →
  ∃ st1, run prog1 st = Ok st1 ∧ run prog2 st1 = Ok st'.
Proof. rewrite run_app. destruct (run prog1 st) as [st1|]; [eauto | done]. Qed.

Lemma run_cons_Ok s prog st st' :
  run (s :: prog) st = Ok st' → ∃ st1, s st = Ok st1 ∧ run prog st1 = Ok st'.
Proof. simpl. destruct (s st) as [st1|]; [eauto | done]. Qed.

Lemma run_raise pre s post st st1 e st2 :
  run pre st = Ok st1 → s st1 = Raise e st2 →
  run (pre ++ s :: post) st = Raise e st2.
Proof. intros Hpre Hs. rewrite run_app, Hpre. simpl. by rewrite Hs. Qed.

Lemma res_bind_Val {A B} (x : res A) (f : A → res B) b :
  res_bind x f = Val b → ∃ a, x = Val a ∧ f a = Val b.
Proof. destruct x; simpl; [eauto | done]. Qed.

Lemma of_option_Val {A} e (o : option A) a : of_option e o = Val a → o = Some a.
Proof. destruct o; simpl; congruence. Qed.

Lemma call_Ok ev body st st' :
  call ev body st = Ok st' → body (log_call ev st) = Val st'.
Proof. unfold call. destruct (body _); congruence. Qed.

(** Splits the equations [x ←! y; z = Val v] of a hypothesis. *)
Ltac inv_res H :=
  repeat match type of H with
  | res_bind _ _ = Val _ =>
      let a := fresh "a" in let E := fresh "E" in
      apply res_bind_Val in H as (a & E & H)
  end.

(** ** Inversion of the library calls *)

Lemma open_database_Val p m db :
  open_database p m = Val db → m !! p = Some (File (DuckDB db)).
Proof.
  unfold open_database. destruct (m !! p) as [[|[]]|]; congruence.
Qed.

Lemma write_file_Val p c m m' :
  write_file p c m = Val m' →
  m' = <[p := File c]> m ∧ m !! p ≠ Some Dir ∧ is_dir m (parent p) = true.
Proof.
  unfold write_file. intros H.
  destruct (m !! p) as [[|c0]|] eqn:E; [done| |];
    destruct (is_dir m (parent p)); naive_solver.
Qed.

Lemma copy_to_Val p c m m' : copy_to p c m = Val m' → write_file p c m = Val m'.
Proof. unfold copy_to. destruct (write_file p c m); congruence. Qed.

Lemma query_copy_order_by_Ok ddb name cols target st st' :
  query_copy_order_by ddb name cols target st = Ok st' →
  ∃ db t,
    fs st !! ddb = Some (File (DuckDB db)) ∧ db !! name = Some t ∧
    fs st' = <[target := File (Parquet {| schema := schema t;
                                           rows := merge_sort (rows_le cols) (rows t) |})]> (fs st) ∧
    globals st' = globals st ∧
    calls st' = calls st ++ [CallQueryCopy target].
Proof.
  unfold query_copy_order_by. intros H%call_Ok. simpl in H. inv_res H.
  apply open_database_Val in E. apply of_option_Val in E0.
  case_decide; [|done]. inv_res H.
  apply copy_to_Val, write_file_Val in E1 as (-> & _ & _).
  injection H as <-. eauto 10.
Qed.

Lemma res_mapM_Val {A B} (f : A → res B) l l' :
  res_mapM f l = Val l' → Forall2 (λ a b, f a = Val b) l l'.
Proof.
  revert l'. induction l as [|a l IH]; intros l' H; simpl in H.
  - injection H as <-. constructor.
  - inv_res H. injection H as <-. constructor; auto.
Qed.

Lemma assoc_set_col_eq {A} k (a : A) l : assoc k (set_col k a l) = Some a.
Proof.
  induction l as [|[k' a'] l IH]; simpl; [by rewrite decide_True|].
  destruct (decide (k = k')) as [->|N]; simpl.
  - by rewrite decide_True.
  - by rewrite decide_False.
Qed.

Lemma assoc_set_col_ne {A} k k' (a : A) l :
  k ≠ k' → assoc k' (set_col k a l) = assoc k' l.
Proof.
  intros N. induction l as [|[k0 a0] l IH]; simpl; [by rewrite decide_False|].
  destruct (decide (k = k0)) as [->|N0]; simpl.
  - by rewrite !decide_False.
  - by rewrite IH.
Qed.

Lemma update_joined_timeseries_Ok ev ddb f st st' :
  update_joined_timeseries ev ddb f st = Ok st' →
  ∃ db t t',
    fs st !! ddb = Some (File (DuckDB db)) ∧ db !! joined_timeseries = Some t ∧
    f (fs st) t = Val t' ∧
    fs st' = <[ddb := File (DuckDB (<[joined_timeseries := t']> db))]> (fs st) ∧
    globals st' = globals st ∧
    calls st' = calls st ++ [ev].
Proof.
  unfold update_joined_timeseries. intros H%call_Ok. simpl in H. inv_res H.
  apply open_database_Val in E. apply of_option_Val in E0.
  injection H as <-. eauto 10.
Qed.

Lemma read_content_Val p m c : read_content p m = Val c → m !! p = Some (File c).
Proof. unfold read_content. destruct (m !! p) as [[|c0]|]; congruence. Qed.

Lemma get_global_Val var st df : get_global var st = Val df → globals st !! var = Some df.
Proof. apply of_option_Val. Qed.

Lemma pd_read_csv_Val p m df :
  pd_read_csv p m = Val df →
  ∃ l cols, m !! p = Some (File (Csv l cols)) ∧ df = frame_of_csv l cols.
Proof.
  unfold pd_read_csv. intros H. inv_res H.
  apply read_content_Val in E. destruct a; try done.
  injection H as <-. eauto.
Qed.

Lemma gpd_read_file_Val p m df :
  gpd_read_file p m = Val df →
  ∃ cols, m !! p = Some (File (GeoJSON cols)) ∧ df = frame_of_columns cols.
Proof.
  unfold gpd_read_file. destruct (m !! p) as [[|[]]|]; try done.
  intros [= <-]. eauto.
Qed.

Lemma read_csv_Ok var p st st' :
  read_csv var p st = Ok st' →
  ∃ l cols, fs st !! p = Some (File (Csv l cols)) ∧
    globals st' = <[var := frame_of_csv l cols]> (globals st) ∧
    fs st' = fs st ∧ calls st' = calls st ++ [CallReadCsv p].
Proof.
  unfold read_csv. intros H%call_Ok. simpl in H. inv_res H.
  apply pd_read_csv_Val in E as (l & cols & E & ->).
  injection H as <-. eauto 10.
Qed.

Lemma read_file_Ok var p st st' :
  read_file var p st = Ok st' →
  ∃ cols, fs st !! p = Some (File (GeoJSON cols)) ∧
    globals st' = <[var := frame_of_columns cols]> (globals st) ∧ fs st' = fs st.
Proof.
  unfold read_file. intros H%call_Ok. simpl in H. inv_res H.
  apply gpd_read_file_Val in E as (cols & E & ->).
  injection H as <-. eauto 10.
Qed.

Lemma rename_inplace_Ok var old new st st' :
  rename_inplace var old new st = Ok st' →
  ∃ df, globals st !! var = Some df ∧
    globals st' = <[var := rename old new df]> (globals st) ∧ fs st' = fs st.
Proof.
  unfold rename_inplace. intros H%call_Ok. simpl in H. inv_res H.
  apply get_global_Val in E. injection H as <-. eauto 10.
Qed.

Lemma setitem_Ok var c v st st' :
  setitem var c v st = Ok st' →
  ∃ df, globals st !! var = Some df ∧
    globals st' = <[var := setitem_scalar df c v]> (globals st) ∧
    fs st' = fs st ∧ calls st' = calls st ++ [CallSetitem var c].
Proof.
  unfold setitem. intros H%call_Ok. simpl in H. inv_res H.
  apply get_global_Val in E. injection H as <-. eauto 10.
Qed.

Lemma setitem_astype_datetime64_Ok var c src src_c st st' :
  setitem_astype_datetime64 var c src src_c st = Ok st' →
  ∃ sdf s s' df df',
    globals st !! src = Some sdf ∧ getitem sdf src_c = Some s ∧
    astype_datetime64 s = Some s' ∧
    globals st !! var = Some df ∧ setitem_series df c s' = Some df' ∧
    globals st' = <[var := df']> (globals st) ∧
    fs st' = fs st ∧ calls st' = calls st ++ [CallSetitem var c].
Proof.
  unfold setitem_astype_datetime64. intros H%call_Ok. simpl in H. inv_res H.
  apply get_global_Val in E, E2. apply of_option_Val in E0, E1, E3.
  injection H as <-. eauto 15.
Qed.

Lemma DataFrame_to_parquet_Val df p m m' :
  DataFrame_to_parquet df p m = Val m' →
  NoDup (col_names df) ∧ write_file p (Parquet (frame_table df)) m = Val m'.
Proof. unfold DataFrame_to_parquet. by case_decide. Qed.

Lemma to_parquet_Ok var p st st' :
  to_parquet var p st = Ok st' →
  ∃ df, globals st !! var = Some df ∧
    fs st' = <[p := File (Parquet (frame_table df))]> (fs st) ∧
    globals st' = globals st ∧ calls st' = calls st ++ [CallToParquet p] ∧
    NoDup (col_names df).
Proof.
  unfold to_parquet. intros H%call_Ok. simpl in H. inv_res H.
  apply get_global_Val in E.
  apply DataFrame_to_parquet_Val in E0 as (Hnd & (-> & _ & _)%write_file_Val).
  injection H as <-. eauto 10.
Qed.

(** ** The conversion cells *)

Lemma cell_obs_convert_eq home :
  cell_obs_convert home = convert "obs_ts" "usgs" "obs_ts" (PRIMARY_FILEPATH home ++ ["obs.parquet"]).
Proof. reflexivity. Qed.

Lemma cell_baseline_convert_eq home :
  cell_baseline_convert home =
  convert "baseline_ts" "baseline" "baseline_ts" (SECONDARY_FILEPATH home ++ ["baseline.parquet"]).
Proof. reflexivity. Qed.

Lemma cell_sim_convert_eq home :
  cell_sim_convert home =
  convert "sim_ts" "sim" "baseline_ts" (SECONDARY_FILEPATH home ++ ["sim.parquet"]).
Proof. reflexivity. Qed.

Lemma convert_Ok var cfg src target st st' :
  run (convert var cfg src target) st = Ok st' →
  ∃ df sdf s s' df',
    globals st !! var = Some df ∧
    <[var := add_static_columns cfg df]> (globals st) !! src = Some sdf ∧
    getitem sdf "reference_time" = Some s ∧
    astype_datetime64 s = Some s' ∧
    setitem_series (add_static_columns cfg df) "reference_time" s' = Some df' ∧
    fs st' = <[target := File (Parquet (frame_table df'))]> (fs st) ∧
    globals st' = <[var := df']> (globals st).
Proof.
  unfold convert.
  intros (st1 & H1 & H)%run_cons_Ok. apply setitem_Ok in H1 as (df & Hdf & G1 & F1 & _).
  apply run_cons_Ok in H as (st2 & H2 & H). apply setitem_Ok in H2 as (df1 & Hdf1 & G2 & F2 & _).
  apply run_cons_Ok in H as (st3 & H3 & H). apply setitem_Ok in H3 as (df2 & Hdf2 & G3 & F3 & _).
  apply run_cons_Ok in H as (st4 & H4 & H). apply setitem_Ok in H4 as (df3 & Hdf3 & G4 & F4 & _).
  apply run_cons_Ok in H as (st5 & H5 & H).
  apply setitem_astype_datetime64_Ok in H5
    as (sdf & s & s' & df4 & df' & Hsdf & Hs & Hs' & Hdf4 & Hdf' & G5 & F5 & _).
  apply run_cons_Ok in H as (st6 & H6 & H). injection H as <-.
  apply to_parquet_Ok in H6 as (df5 & Hdf5 & F6 & G6 & _).
  rewrite G1, lookup_insert_eq in Hdf1. injection Hdf1 as <-.
  rewrite G2, lookup_insert_eq in Hdf2. injection Hdf2 as <-.
  rewrite G3, lookup_insert_eq in Hdf3. injection Hdf3 as <-.
  rewrite G2, G1, !insert_insert_eq in G3.
  rewrite G4 in Hdf4, Hsdf. rewrite lookup_insert_eq in Hdf4. injection Hdf4 as <-.
  rewrite G3, insert_insert_eq in G4, Hsdf.
  rewrite G5, lookup_insert_eq in Hdf5. injection Hdf5 as <-.
  rewrite G4, insert_insert_eq in G5.
  exists df, sdf, s, s', df'. split_and!; try done.
  - congruence.
  - congruence.
Qed.

Lemma set_col_fst {A} k (a : A) l :
  (set_col k a l).*1 = if decide (k ∈ l.*1) then l.*1 else l.*1 ++ [k].
Proof.
  induction l as [|[k' a'] l IH].
  - rewrite decide_False; [done|]. apply not_elem_of_nil.
  - cbn [set_col]. destruct (decide (k = k')) as [->|N]; rewrite !fmap_cons; cbn [fst].
    + rewrite decide_True; [done|]. apply list_elem_of_here.
    + rewrite IH. destruct (decide (k ∈ l.*1)) as [Hin|Hin].
      * rewrite decide_True; [done|]. by apply list_elem_of_further.
      * rewrite decide_False; [done|]. intros [?|?]%elem_of_cons; done.
Qed.

Lemma assoc_app_l {A} k (l1 l2 : list (string * A)) a :
  assoc k l1 = Some a → assoc k (l1 ++ l2) = Some a.
Proof.
  induction l1 as [|[k' a'] l1 IH]; simpl; [done|].
  destruct (decide (k = k')); [done | apply IH].
Qed.

Lemma assoc_app_r {A} k (l1 l2 : list (string * A)) :
  k ∉ l1.*1 → assoc k (l1 ++ l2) = assoc k l2.
Proof.
  induction l1 as [|[k' a] l1 IH]; simpl; [done|].
  intros [? ?]%not_elem_of_cons. rewrite decide_False by done. by apply IH.
Qed.

Lemma assoc_fmap_snd {A B} (g : A → B) k (l : list (string * A)) :
  assoc k (prod_map id g <$> l) = g <$> assoc k l.
Proof.
  induction l as [|[k' a] l IH]; simpl; [done|].
  destruct (decide (k = k')); [done | apply IH].
Qed.

Lemma field_frame_row df i c col :
  assoc c (columns df) = Some col →
  field (frame_row df i) c = Some (default (na_value (col_dtype col)) (col_values col !! i)).
Proof.
  intros Hc. unfold field, frame_row. apply assoc_app_l.
  revert Hc. induction (columns df) as [|[k col'] l IH]; simpl; [done|].
  destruct (decide (c = k)); [by intros [= ->] | apply IH].
Qed.

Lemma frame_row_fst df i : (frame_row df i).*1 = col_names df ++ (index_schema (index df)).*1.
Proof.
  unfold frame_row, col_names. rewrite fmap_app. f_equal.
  - rewrite <- list_fmap_compose. apply list_fmap_ext. by intros _ [k col] _.
  - by destruct (index df).
Qed.

Lemma frame_rows_lookup df i r :
  frame_rows df !! i = Some r → (i < size (index df))%nat ∧ r = frame_row df i.
Proof.
  unfold frame_rows. rewrite list_lookup_fmap.
  destruct (seq 0 (size (index df)) !! i) as [j|] eqn:E; simpl; [|done].
  apply lookup_seq in E as [-> ?]. intros [= <-]. done.
Qed.

Lemma frame_rows_lookup_lt df i :
  (i < size (index df))%nat → frame_rows df !! i = Some (frame_row df i).
Proof.
  intros Hi. unfold frame_rows. rewrite list_lookup_fmap, lookup_seq_lt by done. done.
Qed.

Lemma length_frame_rows df : length (frame_rows df) = size (index df).
Proof. unfold frame_rows. by rewrite length_fmap, length_seq. Qed.

Lemma frame_table_fst df :
  (schema (frame_table df)).*1 = col_names df ++ (index_schema (index df)).*1.
Proof.
  unfold frame_table, col_names; simpl. rewrite fmap_app. f_equal.
  rewrite <- list_fmap_compose. apply list_fmap_ext. by intros _ [k col] _.
Qed.

Lemma frame_table_type df c col :
  assoc c (columns df) = Some col →
  assoc c (schema (frame_table df)) = Some (dtype_name (col_dtype col)).
Proof.
  intros Hc. unfold frame_table; simpl. apply assoc_app_l.
  revert Hc. induction (columns df) as [|[k col'] l IH]; simpl; [done|].
  destruct (decide (c = k)); [by intros [= ->] | apply IH].
Qed.

Lemma size_RangeIndex n : size (RangeIndex n) = n.
Proof. unfold size; simpl. by rewrite length_fmap, length_seq. Qed.

Lemma NoDup_RangeIndex n : NoDup (labels (RangeIndex n)).
Proof.
  simpl. apply NoDup_fmap_2; [|apply NoDup_seq].
  intros a b [= E]. by apply Nat2Z.inj.
Qed.

(** The three ways an assignment of a series goes through. *)
Lemma setitem_series_Some df c s df' :
  setitem_series df c s = Some df' →
  let col vs := {| col_dtype := s_dtype s; col_values := vs |} in
  (labels (index df) = [] ∧ labels (s_index s) ≠ [] ∧
   index df' = s_index s ∧
   columns df' = set_col c (col (s_values s))
                   (prod_map id (all_missing (size (s_index s))) <$> columns df))
  ∨ (¬ (labels (index df) = [] ∧ labels (s_index s) ≠ []) ∧
     index df' = index df ∧
     ∃ vs, columns df' = set_col c (col vs) (columns df) ∧
           ((labels (s_index s) = labels (index df) ∧ vs = s_values s) ∨
            (NoDup (labels (s_index s)) ∧ vs = reindex s (labels (index df))))).
Proof.
  unfold setitem_series. intros H. cbv zeta.
  destruct (decide (labels (index df) = [] ∧ labels (s_index s) ≠ [])) as [[E1 E2]|N].
  { injection H as <-. left. done. }
  right. split; [done|].
  destruct (decide (labels (s_index s) = labels (index df))) as [E|N'].
  - injection H as <-. simpl. eauto 10.
  - destruct (decide (NoDup (labels (s_index s)))); [|done].
    injection H as <-. simpl. eauto 10.
Qed.

Lemma at_label_lookup lbl idx vs i :
  NoDup idx → idx !! i = Some lbl → at_label lbl idx vs = vs !! i.
Proof.
  revert vs i. induction idx as [|j idx IH]; intros vs i Hnd Hi; [done|].
  apply NoDup_cons in Hnd as [Hj Hnd].
  destruct i as [|i]; simpl in Hi.
  - injection Hi as ->. destruct vs as [|v vs]; simpl; [done|]. by rewrite decide_True.
  - destruct vs as [|v vs]; simpl; [done|].
    rewrite decide_False.
    + by apply IH.
    + intros ->. apply Hj. by eapply list_elem_of_lookup_2.
Qed.

Lemma at_label_absent lbl idx vs : lbl ∉ idx → at_label lbl idx vs = None.
Proof.
  revert vs. induction idx as [|j idx IH]; intros vs Hn; [done|].
  destruct vs as [|v vs]; simpl; [done|].
  apply not_elem_of_cons in Hn as [? ?]. rewrite decide_False by done. by apply IH.
Qed.

Lemma at_label_elem lbl idx vs v : at_label lbl idx vs = Some v → v ∈ vs.
Proof.
  revert vs. induction idx as [|j idx IH]; intros vs H; [done|].
  destruct vs as [|v0 vs]; simpl in H; [done|].
  destruct (decide (lbl = j)).
  - injection H as ->. apply list_elem_of_here.
  - apply list_elem_of_further. by apply IH.
Qed.

(** ** What each statement does to the file system *)

Lemma call_final ev body st :
  final (call ev body st) =
  match body (log_call ev st) with
  | Val st' => st'
  | Err _ => log_call ev st
  end.
Proof. unfold call. by destruct (body _). Qed.

Lemma call_no_effect ev body :
  (∀ st st', body st = Val st' → fs st' = fs st) → has_effect (call ev body) NoEffect.
Proof.
  intros Hbody st; simpl. rewrite call_final.
  destruct (body _) as [st'|] eqn:E; [|done]. by rewrite (Hbody _ _ E).
Qed.

Lemma mkdir_parents_Val done rest m m' :
  mkdir_parents done rest m = Val m' →
  ∀ p, m' !! p = m !! p ∨
       (m !! p = None ∧ m' !! p = Some Dir ∧ p `prefix_of` done ++ rest).
Proof.
  revert done m. induction rest as [|seg rest IH]; intros done m H p; simpl in H.
  - injection H as <-. by left.
  - assert (mkdir_parents (done ++ [seg]) rest (<[done ++ [seg] := Dir]> m) = Val m'
            ∧ (m !! (done ++ [seg]) = None ∨ m !! (done ++ [seg]) = Some Dir)) as [H' Hm].
    { destruct (m !! (done ++ [seg])) as [[|c]|]; [| |]; try done; eauto. }
    destruct (IH _ _ H' p) as [Heq|(Hnone & Hdir & Hpre)].
    + destruct (decide (p = done ++ [seg])) as [->|Hne].
      * rewrite lookup_insert_eq in Heq.
        destruct Hm as [Hm|Hm]; [right|left; congruence].
        split_and!; [done|done|]. exists rest. by rewrite <- app_assoc.
      * rewrite lookup_insert_ne in Heq by done. by left.
    + destruct (decide (p = done ++ [seg])) as [->|Hne].
      * by rewrite lookup_insert_eq in Hnone.
      * rewrite lookup_insert_ne in Hnone by done. right.
        split_and!; [done|done|]. by rewrite <- app_assoc in Hpre.
Qed.

Lemma mkdir_effect q : has_effect (mkdir q) (MakesDirs q).
Proof.
  intros st; simpl. unfold mkdir. rewrite call_final. simpl.
  destruct (mkdir_parents [] q (fs st)) as [m'|] eqn:E; simpl; [|by left].
  intros p. apply (mkdir_parents_Val _ _ _ _ E).
Qed.

Lemma read_file_effect var p : has_effect (read_file var p) NoEffect.
Proof.
  apply call_no_effect. intros st st' H. inv_res H. destruct a; try done.
  by injection H as <-.
Qed.

Lemma read_csv_effect var p : has_effect (read_csv var p) NoEffect.
Proof.
  apply call_no_effect. intros st st' H. inv_res H. destruct a; try done.
  by injection H as <-.
Qed.

Lemma rename_inplace_effect var old new : has_effect (rename_inplace var old new) NoEffect.
Proof. apply call_no_effect. intros st st' H. inv_res H. by injection H as <-. Qed.

Lemma setitem_effect var c v : has_effect (setitem var c v) NoEffect.
Proof. apply call_no_effect. intros st st' H. inv_res H. by injection H as <-. Qed.

Lemma setitem_astype_datetime64_effect var c src src_c :
  has_effect (setitem_astype_datetime64 var c src src_c) NoEffect.
Proof. apply call_no_effect. intros st st' H. inv_res H. by injection H as <-. Qed.

Lemma to_parquet_effect var q : has_effect (to_parquet var q) (WritesParquet q).
Proof.
  intros st; simpl. unfold to_parquet. rewrite call_final.
  destruct (res_bind _ _) as [st'|] eqn:H; [|by left].
  inv_res H. apply DataFrame_to_parquet_Val in E0 as (_ & (-> & _ & _)%write_file_Val).
  injection H as <-. right. eauto.
Qed.

Lemma query_copy_order_by_effect ddb name cols q :
  has_effect (query_copy_order_by ddb name cols q) (WritesParquet q).
Proof.
  intros st; simpl. unfold query_copy_order_by. rewrite call_final.
  destruct (res_bind _ _) as [st'|] eqn:H; [|by left].
  inv_res H. case_decide; [|done]. inv_res H.
  apply copy_to_Val, write_file_Val in E1 as (-> & _ & _). injection H as <-.
  right. eauto.
Qed.

Lemma unlink_effect q : has_effect (unlink q) (Database q).
Proof.
  intros st; simpl. unfold unlink. rewrite call_final. simpl.
  destruct (fs st !! q) as [[|c]|] eqn:E; simpl; try (split; [done|by left]).
  split; [intros p Hp; by apply lookup_delete_ne|].
  right; left. apply lookup_delete_eq.
Qed.

Lemma if_is_file_unlink_effect q : has_effect (if_is_file_unlink q) (Database q).
Proof.
  intros st; simpl. unfold if_is_file_unlink.
  destruct (is_file _ q); [|split; [done|by left]].
  apply (unlink_effect q (log_call (CallIsFile q) st)).
Qed.

Lemma DuckDBDatabase_effect q : has_effect (DuckDBDatabase q) (Database q).
Proof.
  intros st; simpl. unfold DuckDBDatabase. rewrite call_final. simpl.
  destruct (fs st !! q) as [[|[| | |db]]|] eqn:E; simpl; try (split; [done|by left]).
  - destruct (db !! joined_timeseries); simpl; [split; [done|by left]|].
    split; [intros p Hp; by apply lookup_insert_ne|].
    right; right. rewrite lookup_insert_eq. eauto.
  - destruct (is_dir _ _); simpl; [|split; [done|by left]].
    split; [intros p Hp; by apply lookup_insert_ne|].
    right; right. rewrite lookup_insert_eq. eauto.
Qed.

Lemma update_joined_timeseries_effect ev ddb f :
  has_effect (update_joined_timeseries ev ddb f) (Database ddb).
Proof.
  intros st; simpl. unfold update_joined_timeseries. rewrite call_final.
  destruct (res_bind _ _) as [st'|] eqn:H; [|split; [done|by left]].
  inv_res H. injection H as <-. simpl.
  split; [intros p Hp; by apply lookup_insert_ne|].
  right; right. rewrite lookup_insert_eq. eauto.
Qed.

Lemma get_joined_timeseries_schema_effect ddb :
  has_effect (get_joined_timeseries_schema ddb) NoEffect.
Proof. apply call_no_effect. intros st st' H. inv_res H. by injection H as <-. Qed.

Lemma DuckDBJoinedParquet_effect j g : has_effect (DuckDBJoinedParquet j g) NoEffect.
Proof. apply call_no_effect. intros st st' H. by injection H as <-. Qed.

Lemma get_joined_timeseries_effect j : has_effect (get_joined_timeseries j) NoEffect.
Proof. apply call_no_effect. intros st st' H. inv_res H. by injection H as <-. Qed.

Lemma get_metrics_effect j g : has_effect (get_metrics j g) NoEffect.
Proof. apply call_no_effect. intros st st' H. inv_res H. by injection H as <-. Qed.

Lemma has_effect_preserves p s e : has_effect s e → effect_avoids p e → preserves p s.
Proof.
  intros Hs Hp st. specialize (Hs st). destruct e as [|q|q|q]; simpl in *.
  - by rewrite Hs.
  - destruct (Hs p) as [?|(_ & _ & ?)]; done.
  - destruct Hs as [->|[t ->]]; [done|]. by apply lookup_insert_ne.
  - by apply Hs.
Qed.

Lemma run_preserves p prog st :
  Forall (preserves p) prog → fs (final (run prog st)) !! p = fs st !! p.
Proof.
  intros H. revert st. induction H as [|s prog Hs _ IH]; intros st; simpl; [done|].
  specialize (Hs st). destruct (s st) as [st1|e st1]; simpl in *.
  - by rewrite IH.
  - done.
Qed.

(** ** Automation for the cells of the notebook *)

Ltac unfold_cells :=
  unfold pipeline, section_convert, section_join, section_query,
    cell_folders, cell_locations, cell_baseline_xw, cell_sim_xw, cell_attributes,
    cell_obs_read, cell_obs_convert, cell_baseline_read, cell_baseline_convert,
    cell_sim_read, cell_sim_convert, cell_database, cell_insert_joined,
    cell_insert_attributes, cell_month, cell_schema, cell_export,
    cell_delete_database, cell_queries, convert.

Ltac unfold_paths :=
  unfold ddb, PRIMARY_FOLDER, SECONDARY_FOLDER, GEOMETRY_FOLDER, CROSSWALK_FOLDER,
    ATTRIBUTE_FOLDER, JOINED_FOLDER, PRIMARY_FILEPATH, SECONDARY_FILEPATH,
    CROSSWALK_FILEPATH, GEOMETRY_FILEPATH, ATTRIBUTE_FILEPATH, JOINED_FILEPATH,
    DB_FILEPATH, TEEHR_BASE, RAW_DATA_FILEPATH, example_1 in *.

(** Two of the notebook's paths differ, or one is not above the other:
    both start with the home directory and differ after it. *)
Ltac path_neq :=
  unfold_paths; simpl;
  first
    [ exact I
    | let E := fresh "E" in
      intros E; rewrite <- ?app_assoc in E; simpl in E;
      apply app_inv_head in E; discriminate E
    | let E := fresh "E" in let k := fresh "k" in
      intros [k E]; rewrite <- ?app_assoc in E; simpl in E;
      apply app_inv_head in E; discriminate E ].

Ltac stmt_effect :=
  unfold insert_joined_timeseries, insert_attributes, insert_calculated_field;
  first
    [ apply mkdir_effect | apply read_file_effect | apply read_csv_effect
    | apply rename_inplace_effect | apply setitem_effect
    | apply setitem_astype_datetime64_effect | apply to_parquet_effect
    | apply query_copy_order_by_effect | apply if_is_file_unlink_effect
    | apply DuckDBDatabase_effect | apply update_joined_timeseries_effect
    | apply get_joined_timeseries_schema_effect | apply DuckDBJoinedParquet_effect
    | apply get_joined_timeseries_effect | apply get_metrics_effect ].

Ltac solve_preserves :=
  unfold_cells;
  repeat first [ apply Forall_nil_2 | apply Forall_cons_2 | apply Forall_app_2 ];
  (eapply has_effect_preserves; [stmt_effect | path_neq]).

(** The entry at [p] after a completed run of statements that leave it. *)
Lemma run_Ok_preserves p prog st st' :
  run prog st = Ok st' → Forall (preserves p) prog → fs st' !! p = fs st !! p.
Proof. intros H Hp. rewrite <- (run_preserves p prog st Hp). by rewrite H. Qed.

(** ** Casts and alignment *)

Lemma astype_datetime64_Some s s' :
  astype_datetime64 s = Some s' →
  s_index s' = s_index s ∧ s_dtype s' = datetime64_ns ∧
  mapM to_datetime64 (s_values s) = Some (s_values s').
Proof.
  unfold astype_datetime64. destruct (mapM to_datetime64 (s_values s)) as [vs|]; simpl; [|done].
  by intros [= <-].
Qed.

Lemma to_datetime64_missing vs vs' :
  mapM to_datetime64 vs = Some vs' →
  Forall (λ v, is_null v = true) vs → Forall (λ v, v = NaT) vs'.
Proof.
  intros H%mapM_Some. induction H as [|v v' vs vs' Hv _ IH]; intros Hn; [constructor|].
  apply Forall_cons in Hn as [Hv0 Hn]. constructor; [|auto].
  destruct v; simpl in *; congruence.
Qed.

Lemma getitem_Some df c s :
  getitem df c = Some s →
  ∃ col, assoc c (columns df) = Some col ∧
         s_index s = index df ∧ s_dtype s = col_dtype col ∧ s_values s = col_values col.
Proof.
  unfold getitem. destruct (assoc c (columns df)) as [col|]; simpl; [|done].
  intros [= <-]. eauto.
Qed.

(** ** The calls of a run *)

Lemma call_logs ev body :
  (∀ st st', body st = Val st' → calls st' = calls st) → logs (call ev body) ev.
Proof. intros Hbody st st' H%call_Ok. by rewrite (Hbody _ _ H). Qed.

Lemma run_logs prog evs st st' :
  Forall2 logs prog evs → run prog st = Ok st' → calls st' = calls st ++ evs.
Proof.
  intros H. revert st. induction H as [|s ev prog evs Hs _ IH]; intros st Hrun.
  - injection Hrun as <-. by rewrite app_nil_r.
  - apply run_cons_Ok in Hrun as (st1 & H1 & Hrun).
    rewrite (IH _ Hrun), (Hs _ _ H1). by rewrite <- app_assoc.
Qed.

Lemma mkdir_logs q : logs (mkdir q) (CallMkdir q).
Proof. apply call_logs. intros st st' H. inv_res H. by injection H as <-. Qed.

Lemma read_file_logs var p : logs (read_file var p) (CallReadFile p).
Proof.
  apply call_logs. intros st st' H. inv_res H. destruct a; try done. by injection H as <-.
Qed.

Lemma read_csv_logs var p : logs (read_csv var p) (CallReadCsv p).
Proof.
  apply call_logs. intros st st' H. inv_res H. destruct a; try done. by injection H as <-.
Qed.

Lemma rename_inplace_logs var old new : logs (rename_inplace var old new) (CallRename var).
Proof. apply call_logs. intros st st' H. inv_res H. by injection H as <-. Qed.

Lemma setitem_logs var c v : logs (setitem var c v) (CallSetitem var c).
Proof. apply call_logs. intros st st' H. inv_res H. by injection H as <-. Qed.

Lemma setitem_astype_datetime64_logs var c src src_c :
  logs (setitem_astype_datetime64 var c src src_c) (CallSetitem var c).
Proof. apply call_logs. intros st st' H. inv_res H. by injection H as <-. Qed.

Lemma to_parquet_logs var q : logs (to_parquet var q) (CallToParquet q).
Proof. apply call_logs. intros st st' H. inv_res H. by injection H as <-. Qed.

Lemma query_copy_order_by_logs ddb name cols q :
  logs (query_copy_order_by ddb name cols q) (CallQueryCopy q).
Proof.
  apply call_logs. intros st st' H. inv_res H. case_decide; [|done].
  inv_res H. by injection H as <-.
Qed.

Lemma update_joined_timeseries_logs ev ddb f : logs (update_joined_timeseries ev ddb f) ev.
Proof. apply call_logs. intros st st' H. inv_res H. by injection H as <-. Qed.

Lemma get_joined_timeseries_schema_logs ddb :
  logs (get_joined_timeseries_schema ddb) CallGetJoinedTimeseriesSchema.
Proof. apply call_logs. intros st st' H. inv_res H. by injection H as <-. Qed.

Lemma DuckDBJoinedParquet_logs j g : logs (DuckDBJoinedParquet j g) CallDuckDBJoinedParquet.
Proof. apply call_logs. intros st st' H. by injection H as <-. Qed.

Lemma get_joined_timeseries_logs j : logs (get_joined_timeseries j) CallGetJoinedTimeseries.
Proof. apply call_logs. intros st st' H. inv_res H. by injection H as <-. Qed.

Lemma get_metrics_logs j g : logs (get_metrics j g) CallGetMetrics.
Proof. apply call_logs. intros st st' H. inv_res H. by injection H as <-. Qed.

Lemma DuckDBDatabase_logs q : logs (DuckDBDatabase q) (CallDuckDBDatabase q).
Proof.
  apply call_logs. intros st st' H.
  destruct (fs st !! q) as [[|[| | |db]]|]; try done.
  - destruct (db !! joined_timeseries); by injection H as <-.
  - destruct (is_dir _ _); [|done]. by injection H as <-.
Qed.

Ltac stmt_logs :=
  unfold insert_joined_timeseries, insert_attributes, insert_calculated_field;
  first
    [ apply mkdir_logs | apply read_file_logs | apply read_csv_logs
    | apply rename_inplace_logs | apply setitem_logs
    | apply setitem_astype_datetime64_logs | apply to_parquet_logs
    | apply query_copy_order_by_logs | apply DuckDBDatabase_logs
    | apply update_joined_timeseries_logs
    | apply get_joined_timeseries_schema_logs | apply DuckDBJoinedParquet_logs
    | apply get_joined_timeseries_logs | apply get_metrics_logs ].

(** The guard [if p.is_file(): p.unlink()]: the file is deleted exactly
    when it is there. *)
Lemma if_is_file_unlink_Ok q st st' :
  if_is_file_unlink q st = Ok st' →
  globals st' = globals st ∧
  fs st' = (if is_file (fs st) q then delete q (fs st) else fs st) ∧
  is_file (fs st') q = false ∧
  calls st' = calls st ++ CallIsFile q :: (if is_file (fs st) q then [CallUnlink q] else []).
Proof.
  unfold if_is_file_unlink. simpl. destruct (is_file (fs st) q) eqn:E.
  - unfold unlink. intros H%call_Ok. simpl in H. unfold is_file in *.
    destruct (fs st !! q) as [[|c]|] eqn:Eq; try done. injection H as <-. simpl.
    split_and!; [done|done| |by rewrite <- app_assoc].
    by rewrite lookup_delete_eq.
  - by intros [= <-].
Qed.

Lemma DuckDBDatabase_Ok q st st' :
  DuckDBDatabase q st = Ok st' →
  globals st' = globals st ∧
  (∃ db, fs st' !! q = Some (File (DuckDB db))) ∧
  (is_file (fs st) q = false →
   fs st' = <[q := File (DuckDB {[ joined_timeseries := empty_joined_timeseries ]})]> (fs st)).
Proof.
  unfold DuckDBDatabase. intros H%call_Ok. simpl in H. unfold is_file.
  destruct (fs st !! q) as [[|[| | |db]]|] eqn:E; try done.
  - destruct (db !! joined_timeseries); injection H as <-; simpl.
    + split_and!; [done|eauto|done].
    + split_and!; [done| |done]. rewrite lookup_insert_eq. eauto.
  - destruct (is_dir _ _); [|done]. injection H as <-. simpl.
    split_and!; [done| |done]. rewrite lookup_insert_eq. eauto.
Qed.

Lemma section_convert_logs home st st' :
  run (section_convert home) st = Ok st' →
  calls st' = calls st ++ section_convert_calls home.
Proof.
  apply run_logs. unfold_cells. unfold section_convert_calls. cbn [app].
  repeat first [ apply Forall2_nil_2 | apply Forall2_cons_2 ]; stmt_logs.
Qed.

Lemma section_query_logs home st st' :
  run (section_query home) st = Ok st' →
  calls st' = calls st ++ section_query_calls.
Proof.
  apply run_logs. unfold_cells. unfold section_query_calls.
  repeat first [ apply Forall2_nil_2 | apply Forall2_cons_2 ]; stmt_logs.
Qed.

Lemma cell_database_Ok home st st' :
  run (cell_database home) st = Ok st' →
  globals st' = globals st ∧
  fs st' = <[DB_FILEPATH home := File (DuckDB {[ joined_timeseries := empty_joined_timeseries ]})]>
             (fs st) ∧
  calls st' = calls st ++ CallIsFile (DB_FILEPATH home)
                :: (if is_file (fs st) (DB_FILEPATH home) then [CallUnlink (DB_FILEPATH home)] else [])
                ++ [CallDuckDBDatabase (DB_FILEPATH home)].
Proof.
  unfold cell_database.
  intros (s1 & H1 & H)%run_cons_Ok. apply run_cons_Ok in H as (s2 & H2 & [= <-]).
  pose proof (DuckDBDatabase_logs _ _ _ H2) as L2.
  apply if_is_file_unlink_Ok in H1 as (G1 & F1 & N1 & L1).
  apply DuckDBDatabase_Ok in H2 as (G2 & _ & F2). specialize (F2 N1).
  split_and!.
  - congruence.
  - rewrite F2, F1. destruct (is_file (fs st) _); [|done]. apply insert_delete_eq.
  - rewrite L2, L1. rewrite <- app_assoc. done.
Qed.

Lemma section_join_Ok home st st' :
  run (section_join home) st = Ok st' →
  calls st' = calls st ++ section_join_calls home (is_file (fs st) (DB_FILEPATH home)) ∧
  fs st' !! DB_FILEPATH home = None.
Proof.
  unfold section_join.
  intros (s2 & Hdb & H)%run_app_Ok.
  apply cell_database_Ok in Hdb as (_ & _ & L2).
  apply run_cons_Ok in H as (s3 & H3 & H). apply update_joined_timeseries_logs in H3 as L3.
  apply run_cons_Ok in H as (s4 & H4 & H). apply update_joined_timeseries_logs in H4 as L4.
  apply run_cons_Ok in H as (s5 & H5 & H). apply update_joined_timeseries_logs in H5 as L5.
  apply run_cons_Ok in H as (s6 & H6 & H). apply get_joined_timeseries_schema_logs in H6 as L6.
  apply run_cons_Ok in H as (s7 & H7 & H).
  apply query_copy_order_by_Ok in H7 as (db & t & Hdb & _ & F7 & _ & L7).
  apply run_cons_Ok in H as (s8 & H8 & [= <-]).
  apply if_is_file_unlink_Ok in H8 as (_ & F8 & _ & L8).
  assert (is_file (fs s7) (DB_FILEPATH home) = true) as Hfile.
  { unfold is_file, ddb in *. rewrite F7, lookup_insert_ne, Hdb; [done|]. path_neq. }
  rewrite Hfile in F8, L8. split.
  - rewrite L8, L7, L6, L5, L4, L3, L2. unfold section_join_calls.
    rewrite <- !app_assoc. by destruct (is_file (fs st) (DB_FILEPATH home)).
  - rewrite F8. apply lookup_delete_eq.
Qed.

(** The calls of a complete run of the notebook, and the database file
    on the way and at the end. *)
Lemma pipeline_Ok home st st' :
  run (pipeline home) st = Ok st' →
  calls st' = calls st ++ pipeline_calls home (is_file (fs st) (DB_FILEPATH home)) ∧
  fs st' !! DB_FILEPATH home = None ∧
  ∃ st1 db,
    run (section_convert home ++ cell_database home) st = Ok st1 ∧
    fs st1 !! DB_FILEPATH home = Some (File (DuckDB db)).
Proof.
  unfold pipeline.
  intros (s1 & Hconv & H)%run_app_Ok. apply run_app_Ok in H as (s2 & Hjoin & Hquery).
  pose proof (section_convert_logs _ _ _ Hconv) as L1.
  pose proof (section_join_Ok _ _ _ Hjoin) as [L2 F2].
  pose proof (section_query_logs _ _ _ Hquery) as L3.
  assert (fs s1 !! DB_FILEPATH home = fs st !! DB_FILEPATH home) as Hsame.
  { apply (run_Ok_preserves _ _ _ _ Hconv). solve_preserves. }
  split_and!.
  - rewrite L3, L2, L1. unfold pipeline_calls, is_file. rewrite Hsame.
    by rewrite <- !app_assoc.
  - rewrite (run_Ok_preserves _ _ _ _ Hquery) by solve_preserves. done.
  - unfold section_join in Hjoin. apply run_app_Ok in Hjoin as (s1' & Hdb & _).
    pose proof (cell_database_Ok _ _ _ Hdb) as (_ & F & _).
    eexists s1', _. split.
    + rewrite run_app, Hconv. exact Hdb.
    + rewrite F. apply lookup_insert_eq.
Qed.

(** ** The order of [ORDER BY] *)

#[global] Instance string_le_total : Total string_le.
Proof.
  intros a b. unfold string_le.
  destruct (String_as_OT.compare_spec a b) as [E|L|L]; [left|left|right]; try done.
  unfold String_as_OT.lt in L. by rewrite L.
Qed.

#[global] Instance string_le_trans : Transitive string_le.
Proof.
  intros a b c. unfold string_le.
  destruct (String_as_OT.compare_spec a b) as [->|Lab|Lab]; [done| |done].
  destruct (String_as_OT.compare_spec b c) as [<-|Lbc|Lbc]; intros _ H; [|clear H|done].
  - unfold String_as_OT.lt in Lab. by rewrite Lab.
  - pose proof (transitivity Lab Lbc) as Lac.
    unfold String_as_OT.lt in Lac. by rewrite Lac.
Qed.

#[global] Instance Qle_total : Total Qle.
Proof. intros a b. unfold Qle. lia. Qed.

#[global] Instance Qle_transitive : Transitive Qle.
Proof. intros a b c. apply Qle_trans. Qed.

#[global] Instance lex_le_total {A B} (R1 : A → A → Prop) (R2 : B → B → Prop)
  `{!Total R1} `{!Total R2} `{∀ x y, Decision (R1 x y)} : Total (lex_le R1 R2).
Proof.
  intros [a1 b1] [a2 b2]. unfold lex_le; simpl.
  destruct (decide (R1 a1 a2)) as [H12|H12], (decide (R1 a2 a1)) as [H21|H21].
  - destruct (total R2 b1 b2); [left|right]; done.
  - left. done.
  - right. done.
  - destruct (total R1 a1 a2); done.
Qed.

#[global] Instance lex_le_trans {A B} (R1 : A → A → Prop) (R2 : B → B → Prop)
  `{!Transitive R1} `{!Transitive R2} : Transitive (lex_le R1 R2).
Proof.
  intros [a1 b1] [a2 b2] [a3 b3]. unfold lex_le; simpl.
  intros [H12 K12] [H23 K23]. split; [by etrans|].
  intros H31. etrans; [apply K12 | apply K23]; by etrans.
Qed.

#[global] Instance Zle_total : Total Z.le.
Proof. intros a b. lia. Qed.

#[global] Instance scalar_le_total : Total scalar_le.
Proof. intros a b. unfold scalar_le. apply (total _). Qed.

#[global] Instance scalar_le_trans : Transitive scalar_le.
Proof. intros a b c. unfold scalar_le. apply transitivity. Qed.

#[global] Instance rows_le_total cols : Total (rows_le cols).
Proof.
  induction cols as [|c cols IH]; intros r1 r2; simpl; [by left|].
  set (a := default PyNone (field r1 c)). set (b := default PyNone (field r2 c)).
  destruct (decide (scalar_le a b)) as [Hab|Hab], (decide (scalar_le b a)) as [Hba|Hba].
  - destruct (IH r1 r2); [left|right]; done.
  - left. done.
  - right. done.
  - destruct (total scalar_le a b); done.
Qed.

#[global] Instance rows_le_trans cols : Transitive (rows_le cols).
Proof.
  induction cols as [|c cols IH]; intros r1 r2 r3; simpl; [done|].
  intros [H12 K12] [H23 K23]. split; [by etrans|].
  intros H31. etrans; [apply K12 | apply K23]; by etrans.
Qed.

(** C10: the export cell writes to [joined/joined.parquet] the records of
    the table [joined_timeseries], all of them and nothing else, in
    ascending order of (configuration, primary_location_id, value_time);
    the key is the [ORDER BY] list of the cell's own query. *)
Theorem export_sorted_by_key home st st' :
  run (cell_export home) st = Ok st' →
  ∃ db t t',
    fs st !! DB_FILEPATH home = Some (File (DuckDB db)) ∧
    db !! "joined_timeseries" = Some t ∧
    fs st' !! (JOINED_FILEPATH home ++ ["joined.parquet"]) = Some (File (Parquet t')) ∧
    schema t' = schema t ∧
    rows t' ≡ₚ rows t ∧
    StronglySorted (rows_le ["configuration"; "primary_location_id"; "value_time"]) (rows t').
Proof.
  intros (st1 & H & Hnil)%run_cons_Ok. injection Hnil as <-.
  apply query_copy_order_by_Ok in H as (db & t & Hdb & Ht & Hfs & _ & _).
  exists db, t, {| schema := schema t;
                   rows := merge_sort (rows_le ["configuration"; "primary_location_id"; "value_time"])
                                      (rows t) |}.
  split_and!; [done|done| |done| |].
  - rewrite Hfs. apply lookup_insert_eq.
  - apply merge_sort_Permutation.
  - apply (StronglySorted_merge_sort _).
Qed.

Lemma month_range (t : datetime) : 1 ≤ month t ≤ 12.
Proof.
  destruct t as [y mo d h mi s us ok]; simpl.
  unfold datetime_check in ok. apply Is_true_true in ok.
  rewrite !andb_true_iff in ok. lia.
Qed.

Lemma add_month_field_rows t t' :
  add_calculated_field "month" "INTEGER" ["value_time"] (udf1 add_month_field) t = Val t' →
  schema t' = set_col "month" "INTEGER" (schema t) ∧
  Forall2 (λ r r', ∃ d, field r "value_time" = Some (Timestamp d) ∧
                        r' = set_col "month" (Int (month d)) r) (rows t) (rows t').
Proof.
  unfold add_calculated_field. intros H. inv_res H. injection H as <-. simpl.
  split; [done|].
  apply res_mapM_Val in E. eapply Forall2_impl; [exact E|].
  intros r r' Hr; simpl in Hr. inv_res Hr. injection Hr as <-.
  inv_res E0. injection E0 as <-. apply of_option_Val in E2.
  simpl in E1. destruct a2 as [| | |d| | |]; simpl in E1; try done.
  injection E1 as <-. eauto.
Qed.

(** C3 (the calculated-field method is modelled from the spec): the cell
    adds to the table of joined records the field "month" of type
    "INTEGER"; in every record it holds the month of the record's
    value_time, an integer from 1 to 12, and the other fields of the
    records are what they were. *)
Theorem month_field_is_month_of_value_time home st st' :
  run (cell_month home) st = Ok st' →
  ∃ db t db' t',
    fs st !! DB_FILEPATH home = Some (File (DuckDB db)) ∧
    db !! "joined_timeseries" = Some t ∧
    fs st' !! DB_FILEPATH home = Some (File (DuckDB db')) ∧
    db' !! "joined_timeseries" = Some t' ∧
    assoc "month" (schema t') = Some "INTEGER" ∧
    Forall2 (λ r r', ∀ c, c ≠ "month" → field r' c = field r c) (rows t) (rows t') ∧
    ∀ r', r' ∈ rows t' →
      ∃ d, field r' "value_time" = Some (Timestamp d) ∧
           field r' "month" = Some (Int (month d)) ∧
           1 ≤ month d ≤ 12.
Proof.
  intros (st1 & H & Hnil)%run_cons_Ok. injection Hnil as <-.
  apply update_joined_timeseries_Ok in H as (db & t & t' & Hdb & Ht & Hf & Hfs & _ & _).
  apply add_month_field_rows in Hf as [Hschema Hrows].
  exists db, t, (<[joined_timeseries := t']> db), t'. split_and!; [done|done| | | | |].
  - rewrite Hfs. apply lookup_insert_eq.
  - apply lookup_insert_eq.
  - rewrite Hschema. apply assoc_set_col_eq.
  - eapply Forall2_impl; [exact Hrows|]. intros r r' (d & _ & ->) c Hc.
    unfold field. by apply assoc_set_col_ne.
  - intros r' Hr'. apply list_elem_of_lookup in Hr' as [i Hi].
    destruct (Forall2_lookup_r _ _ _ _ _ Hrows Hi) as (r & _ & d & Hvt & ->).
    exists d. unfold field. split_and!.
    + by rewrite assoc_set_col_ne.
    + apply assoc_set_col_eq.
    + apply month_range.
    + apply month_range.
Qed.

(** ** The joined records *)

Lemma elem_of_glob_files m dir (p : path) c :
  (p, c) ∈ glob_files m dir ↔ m !! p = Some (File c) ∧ glob_match dir p = true.
Proof.
  unfold glob_files. rewrite list_elem_of_omap. split.
  - intros ([q n] & Hin & Hf). apply elem_of_map_to_list in Hin. simpl in Hf.
    destruct n as [|c0]; [done|]. destruct (glob_match dir q) eqn:E; [|done].
    injection Hf as -> ->. done.
  - intros [Hp Hg]. exists (p, File c). split; [by apply elem_of_map_to_list|].
    simpl. by rewrite Hg.
Qed.

Lemma res_mapM_elem_r {A B} (f : A → res B) l l' b :
  res_mapM f l = Val l' → b ∈ l' → ∃ a, a ∈ l ∧ f a = Val b.
Proof.
  intros H%res_mapM_Val [i Hi]%list_elem_of_lookup.
  destruct (Forall2_lookup_r _ _ _ _ _ H Hi) as (a & Ha & Hf).
  exists a. split; [by eapply list_elem_of_lookup_2|done].
Qed.

Lemma res_mapM_elem_l {A B} (f : A → res B) l l' a :
  res_mapM f l = Val l' → a ∈ l → ∃ b, b ∈ l' ∧ f a = Val b.
Proof.
  intros H%res_mapM_Val [i Hi]%list_elem_of_lookup.
  destruct (Forall2_lookup_l _ _ _ _ _ H Hi) as (b & Hb & Hf).
  exists b. split; [by eapply list_elem_of_lookup_2|done].
Qed.

Lemma read_parquet_elem m dir rs r :
  read_parquet m dir = Val rs →
  r ∈ rs ↔ ∃ (p : path) t, glob_match dir p = true ∧ m !! p = Some (File (Parquet t)) ∧ r ∈ rows t.
Proof.
  unfold read_parquet. intros H.
  assert (∃ ts, res_mapM (λ pc : path * content,
                   match pc.2 with
                   | Parquet t => Val (rows t)
                   | _ => Err InvalidInputException
                   end) (glob_files m dir) = Val ts ∧ rs = mjoin ts) as (ts & Hts & ->).
  { case_bool_decide; [done|].
    destruct (glob_files m dir); [done|]. inv_res H. injection H as <-. eauto. }
  clear H. rewrite list_elem_of_join. split.
  - intros (l & Hr & Hl).
    destruct (res_mapM_elem_r _ _ _ _ Hts Hl) as ([p c] & Hpc & Hc). simpl in Hc.
    destruct c as [| |t|]; try done. injection Hc as <-.
    apply elem_of_glob_files in Hpc as [Hp Hg]. eauto.
  - intros (p & t & Hg & Hp & Hr).
    assert ((p, Parquet t) ∈ glob_files m dir) as Hpc by by apply elem_of_glob_files.
    destruct (res_mapM_elem_l _ _ _ _ Hts Hpc) as (l & Hl & Hc). simpl in Hc.
    injection Hc as <-. eauto.
Qed.

Lemma read_records_elem {A} (of_row : row → option A) m dir l a :
  read_records of_row m dir = Val l → a ∈ l ↔ record_in of_row m dir a.
Proof.
  unfold read_records, record_in. intros H. inv_res H. rename a0 into rs. split.
  - intros Ha. destruct (res_mapM_elem_r _ _ _ _ H Ha) as (r & Hr & Hf).
    apply of_option_Val in Hf.
    apply (read_parquet_elem _ _ _ _ E) in Hr as (p & t & ? & ? & ?). eauto 10.
  - intros (p & t & r & Hg & Hp & Hr & Hf).
    assert (r ∈ rs) as Hrs by (apply (read_parquet_elem _ _ _ _ E); eauto).
    destruct (res_mapM_elem_l _ _ _ _ H Hrs) as (b & Hb & Hfb).
    apply of_option_Val in Hfb. congruence.
Qed.

Lemma record_in_ext {A} (of_row : row → option A) m m' dir a :
  (∀ p : path, glob_match dir p = true → m' !! p = m !! p) →
  record_in of_row m' dir a → record_in of_row m dir a.
Proof.
  intros Hext (p & t & r & Hg & Hp & Hr & Hf). rewrite (Hext _ Hg) in Hp.
  exists p, t, r. done.
Qed.

Lemma sql_eq_true a b : sql_eq a b = true → a = b ∧ is_null a = false.
Proof.
  unfold sql_eq. rewrite !andb_true_iff, !negb_true_iff, bool_decide_eq_true. tauto.
Qed.

Lemma elem_of_join P S X r :
  r ∈ join P S X ↔
  ∃ s x p, s ∈ S ∧ x ∈ X ∧ p ∈ P ∧
    sql_eq (secondary_location_id x) (location_id s) = true ∧
    sql_eq (primary_location_id x) (location_id p) = true ∧
    sql_eq (value_time s) (value_time p) = true ∧
    r = joined_row p s.
Proof.
  unfold join. rewrite list_elem_of_bind. split.
  - intros (s & Hr & Hs). apply list_elem_of_bind in Hr as (x & Hr & Hx).
    apply list_elem_of_bind in Hr as (p & Hr & Hp).
    destruct (sql_eq (secondary_location_id x) (location_id s)) eqn:E1; simpl in Hr;
      [|by apply elem_of_nil in Hr].
    destruct (sql_eq (primary_location_id x) (location_id p)) eqn:E2; simpl in Hr;
      [|by apply elem_of_nil in Hr].
    destruct (sql_eq (value_time s) (value_time p)) eqn:E3; simpl in Hr;
      [|by apply elem_of_nil in Hr].
    apply list_elem_of_singleton in Hr. eauto 15.
  - intros (s & x & p & Hs & Hx & Hp & E1 & E2 & E3 & ->).
    exists s. split; [|done]. apply list_elem_of_bind. exists x. split; [|done].
    apply list_elem_of_bind. exists p. split; [|done].
    rewrite E1, E2, E3. simpl. apply list_elem_of_here.
Qed.

Lemma assoc_fmap_pair {A} (g : string → A) names n :
  n ∈ names → assoc n ((λ n, (n, g n)) <$> names) = Some (g n).
Proof.
  induction names as [|k names IH]; simpl; [by intros ?%elem_of_nil|].
  destruct (decide (n = k)) as [->|Hne]; [done|].
  intros [?|?]%elem_of_cons; [done|]. by apply IH.
Qed.

Lemma attribute_at_match A loc a :
  a ∈ A → sql_eq (attr_location_id a) loc = true →
  ∃ a', a' ∈ A ∧ sql_eq (attr_location_id a') loc = true ∧
        attribute_name a' = attribute_name a ∧
        attribute_at A loc (attribute_name a) = attr_value a'.
Proof.
  intros Ha Hloc. unfold attribute_at.
  destruct (list_find _ A) as [[i a']|] eqn:E.
  - apply list_find_Some in E as (Hi & [Hl Hn] & _).
    exists a'. split_and!; [by eapply list_elem_of_lookup_2| |done|done].
    by apply Is_true_true.
  - eapply list_find_None, Forall_forall in E; [|exact Ha].
    destruct E. split; [by apply Is_true_true|done].
Qed.

Lemma add_attributes_Val A t t' :
  add_attributes A t = Val t' →
  Forall (λ n, n ∉ (schema t).*1) (attribute_names A) ∧
  rows t' =
    (λ r, r ++ ((λ n, (n, attribute_at A (default PyNone (field r "primary_location_id")) n))
                <$> attribute_names A)) <$> rows t.
Proof.
  unfold add_attributes. case_decide as Hex; [done|]. intros [= <-]. simpl.
  split; [|done]. by apply not_Exists_Forall in Hex; [|apply _].
Qed.

Lemma glob_match_not_database home dir :
  glob_match dir (DB_FILEPATH home) = false.
Proof.
  unfold glob_match, DB_FILEPATH. rewrite last_snoc.
  change (segment_match "*.parquet" "teehr.db") with false. apply andb_false_r.
Qed.

Lemma record_in_insert_database {A} (of_row : row → option A) home m c dir a :
  record_in of_row (<[DB_FILEPATH home := c]> m) dir a → record_in of_row m dir a.
Proof.
  apply record_in_ext. intros p Hp. apply lookup_insert_ne. intros <-.
  by rewrite glob_match_not_database in Hp.
Qed.

Lemma sql_eq_intro a b : a = b → is_null b = false → sql_eq a b = true.
Proof.
  intros -> Hb. unfold sql_eq. rewrite Hb. simpl. by apply bool_decide_eq_true.
Qed.

(** C1 (the join and the attribute methods are modelled from the spec):
    the records the cells insert into the table of joined timeseries each
    pair a primary record and a secondary record, read from the primary
    and secondary Parquet files, that have the same value_time and whose
    locations are related by a record of the crosswalk files; the joined
    record carries the two values, the two locations and the time, and,
    for every attribute the attribute files give for the primary location,
    a field of that name with the value of such an attribute record. *)
Theorem joined_records_pair_related_values home st st' :
  run (cell_database home ++ cell_insert_joined home ++ cell_insert_attributes home) st = Ok st' →
  ∃ db t,
    fs st' !! DB_FILEPATH home = Some (File (DuckDB db)) ∧
    db !! "joined_timeseries" = Some t ∧
    ∀ r, r ∈ rows t →
      ∃ p s x,
        record_in timeseries_of_row (fs st) (PRIMARY_FOLDER home) p ∧
        record_in timeseries_of_row (fs st) (SECONDARY_FOLDER home) s ∧
        record_in crosswalk_of_row (fs st) (CROSSWALK_FOLDER home) x ∧
        (primary_location_id x = location_id p ∧ is_null (location_id p) = false) ∧
        (secondary_location_id x = location_id s ∧ is_null (location_id s) = false) ∧
        (value_time s = value_time p ∧ is_null (value_time s) = false) ∧
        field r "primary_location_id" = Some (location_id p) ∧
        field r "secondary_location_id" = Some (location_id s) ∧
        field r "value_time" = Some (value_time s) ∧
        field r "primary_value" = Some (value p) ∧
        field r "secondary_value" = Some (value s) ∧
        ∀ a, record_in attribute_of_row (fs st) (ATTRIBUTE_FOLDER home) a →
             attr_location_id a = location_id p →
             ∃ a', record_in attribute_of_row (fs st) (ATTRIBUTE_FOLDER home) a' ∧
                   attr_location_id a' = location_id p ∧
                   attribute_name a' = attribute_name a ∧
                   field r (attribute_name a) = Some (attr_value a').
Proof.
  intros (s1 & Hdb & H)%run_app_Ok.
  apply cell_database_Ok in Hdb as (_ & F1 & _).
  unfold cell_insert_joined, cell_insert_attributes, insert_joined_timeseries,
    insert_attributes, ddb in H.
  apply run_cons_Ok in H as (s2 & H2 & H). apply run_cons_Ok in H as (s3 & H3 & [= <-]).
  apply update_joined_timeseries_Ok in H2 as (db1 & t0 & t1 & Hdb1 & Ht0 & Hf1 & F2 & _).
  rewrite F1, lookup_insert_eq in Hdb1. injection Hdb1 as <-.
  rewrite lookup_singleton_eq in Ht0. injection Ht0 as <-.
  inv_res Hf1. rename a into P, a0 into S, a1 into X, E into HP, E0 into HS, E1 into HX.
  injection Hf1 as <-.
  apply update_joined_timeseries_Ok in H3 as (db2 & t1' & t2 & Hdb2 & Ht1 & Hf2 & F3 & _).
  rewrite F2, lookup_insert_eq in Hdb2. injection Hdb2 as <-.
  rewrite lookup_insert_eq in Ht1. injection Ht1 as <-.
  inv_res Hf2. rename a into A, E into HA.
  apply add_attributes_Val in Hf2 as [Hnames Hrows]. simpl in Hnames, Hrows.
  eexists _, t2. split_and!.
  { rewrite F3. apply lookup_insert_eq. }
  { apply lookup_insert_eq. }
  intros r Hr. rewrite Hrows in Hr.
  apply list_elem_of_fmap in Hr as (r0 & -> & Hr0).
  apply elem_of_join in Hr0 as (s & x & p & Hs & Hx & Hp & E1 & E2 & E3 & ->).
  apply sql_eq_true in E1 as [E1 N1], E2 as [E2 N2], E3 as [E3 N3].
  exists p, s, x. split_and!.
  - eapply record_in_insert_database. rewrite <- F1. by apply (read_records_elem _ _ _ _ _ HP).
  - eapply record_in_insert_database. rewrite <- F1. by apply (read_records_elem _ _ _ _ _ HS).
  - eapply record_in_insert_database. rewrite <- F1. by apply (read_records_elem _ _ _ _ _ HX).
  - done.
  - congruence.
  - done.
  - congruence.
  - done.
  - done.
  - by apply assoc_app_l.
  - by apply assoc_app_l.
  - by apply assoc_app_l.
  - by apply assoc_app_l.
  - by apply assoc_app_l.
  - intros a Ha Hloc.
    assert (a ∈ A) as HaA.
    { apply (read_records_elem _ _ _ _ _ HA). revert Ha. apply record_in_ext.
      intros q Hq. rewrite F2, F1.
      rewrite !lookup_insert_ne; [done| |]; intros <-;
        by rewrite glob_match_not_database in Hq. }
    destruct (attribute_at_match A (location_id p) a HaA) as (a' & Ha' & Hl' & Hn' & Hv).
    { apply sql_eq_intro; [done|]. congruence. }
    exists a'. apply sql_eq_true in Hl' as [Hl' _]. split_and!; [|done|done|].
    + eapply record_in_insert_database. eapply record_in_insert_database.
      rewrite <- F1, <- F2. by apply (read_records_elem _ _ _ _ _ HA).
    + unfold field. rewrite assoc_app_r.
      * change (default PyNone (assoc "primary_location_id" (joined_row p s)))
          with (location_id p).
        rewrite (assoc_fmap_pair (attribute_at A (location_id p))), Hv; [done|].
        unfold attribute_names. apply elem_of_remove_dups, list_elem_of_fmap. eauto.
      * eapply Forall_forall in Hnames; [exact Hnames|].
        unfold attribute_names. apply elem_of_remove_dups, list_elem_of_fmap. eauto.
Qed.

(** ** Creating directories *)

Lemma mkdir_Ok q st st' :
  mkdir q st = Ok st' →
  mkdir_parents [] q (fs st) = Val (fs st') ∧ globals st' = globals st.
Proof.
  unfold mkdir. intros H%call_Ok. simpl in H. inv_res H. injection H as <-. done.
Qed.

Lemma mkdir_parents_keeps base rest m m' (p : path) n :
  mkdir_parents base rest m = Val m' → m !! p = Some n → m' !! p = Some n.
Proof.
  intros H Hp. destruct (mkdir_parents_Val _ _ _ _ H p) as [E|(Hn & _)].
  - etrans; [exact E | exact Hp].
  - exfalso. assert (Some n = None) as Hc by (etrans; [symmetry; exact Hp | exact Hn]).
    discriminate Hc.
Qed.

Lemma mkdir_parents_dirs base rest m m' k :
  mkdir_parents base rest m = Val m' → (0 < k ≤ length rest)%nat →
  m' !! (base ++ take k rest) = Some Dir.
Proof.
  revert base m k. induction rest as [|seg rest IH]; intros base m k H Hk; simpl in *; [lia|].
  assert (mkdir_parents (base ++ [seg]) rest (<[base ++ [seg] := Dir]> m) = Val m') as H'.
  { destruct (m !! (base ++ [seg])) as [[|c]|]; try done. }
  destruct k as [|k]; [lia|]. simpl.
  destruct k as [|k].
  - rewrite take_0. apply (mkdir_parents_keeps _ _ _ _ _ _ H'). apply lookup_insert_eq.
  - rewrite (cons_middle seg), app_assoc. apply (IH _ _ (S k) H'). lia.
Qed.

Lemma mkdir_parents_existing (base rest : path) (m : gmap path node) :
  (∀ k, (0 < k ≤ length rest)%nat → m !! (base ++ take k rest) = Some Dir) →
  mkdir_parents base rest m = Val m.
Proof.
  revert base. induction rest as [|seg rest IH]; intros base Hdirs; simpl; [done|].
  assert (m !! (base ++ [seg]) = Some Dir) as Hseg.
  { apply (Hdirs 1%nat). simpl. lia. }
  rewrite Hseg, insert_id by done. apply IH. intros k Hk.
  rewrite <- app_assoc. apply (Hdirs (S k)). simpl. lia.
Qed.

Lemma run_mkdirs_Ok qs st st' :
  run (mkdir <$> qs) st = Ok st' →
  (∀ (p : path) n, fs st !! p = Some n → fs st' !! p = Some n) ∧
  (∀ q k, q ∈ qs → (0 < k ≤ length q)%nat → fs st' !! take k q = Some Dir).
Proof.
  revert st. induction qs as [|q qs IH]; intros st H; simpl in H.
  - injection H as <-. split; [done|]. intros q k Hq. by apply elem_of_nil in Hq.
  - apply run_cons_Ok in H as (st1 & (H1 & _)%mkdir_Ok & H).
    destruct (IH _ H) as [Hkeep Hdirs]. split.
    + intros p n Hp. apply Hkeep. by eapply mkdir_parents_keeps.
    + intros q' k [Heq|Hq']%elem_of_cons Hk; [subst q'|by apply Hdirs].
      apply Hkeep. by apply (mkdir_parents_dirs [] q _ _ k H1).
Qed.

Lemma run_mkdirs_existing qs st :
  (∀ q k, q ∈ qs → (0 < k ≤ length q)%nat → fs st !! take k q = Some Dir) →
  ∃ st', run (mkdir <$> qs) st = Ok st' ∧ fs st' = fs st.
Proof.
  revert st. induction qs as [|q qs IH]; intros st Hdirs; simpl; [eauto|].
  unfold mkdir at 1, call. simpl.
  rewrite (mkdir_parents_existing [] q (fs st)).
  - simpl. destruct (IH (set_fs (fs st) (log_call (CallMkdir q) st))) as (st' & Hrun & Hfs).
    + intros q' k Hq' Hk. simpl. apply Hdirs; [by apply list_elem_of_further|done].
    + exists st'. split; [exact Hrun|]. by rewrite Hfs.
  - intros k Hk. apply Hdirs; [apply list_elem_of_here|done].
Qed.

Lemma cell_folders_mkdirs home : cell_folders home = mkdir <$> table_folders home.
Proof. reflexivity. Qed.

Lemma table_folders_length home d : d ∈ table_folders home → (0 < length d)%nat.
Proof.
  unfold table_folders. rewrite !elem_of_cons, elem_of_nil.
  intros [->|[->|[->|[->|[->|[->|[]]]]]]]; unfold_paths; rewrite !length_app; simpl; lia.
Qed.



Lemma mkdir_parents_no_file (base rest : path) (m : gmap path node) :
  (∀ k, (0 < k ≤ length rest)%nat → is_file m (base ++ take k rest) = false) →
  ∃ m', mkdir_parents base rest m = Val m'.
Proof.
  revert base m. induction rest as [|seg rest IH]; intros base m Hfree; simpl; [eauto|].
  assert (is_file m (base ++ [seg]) = false) as Hseg.
  { apply (Hfree 1%nat). simpl. lia. }
  assert (∃ m', mkdir_parents (base ++ [seg]) rest (<[base ++ [seg] := Dir]> m) = Val m')
    as [m' Hm'].
  { apply IH. intros k Hk. unfold is_file.
    rewrite lookup_insert_ne.
    - rewrite <- app_assoc. apply (Hfree (S k)). simpl. lia.
    - intros E. apply (f_equal length) in E. rewrite !length_app, length_take in E.
      simpl in E. lia. }
  exists m'. unfold is_file in Hseg. unfold path in *. revert Hseg.
  destruct (m !! (base ++ [seg])) as [[|c]|]; intros Hseg;
    [exact Hm' | discriminate Hseg | exact Hm'].
Qed.

Lemma run_mkdirs_no_file qs st :
  (∀ (q : path) k, q ∈ qs → is_file (fs st) (take k q) = false) →
  ∃ st', run (mkdir <$> qs) st = Ok st'.
Proof.
  revert st. induction qs as [|q qs IH]; intros st Hfree; simpl; [eauto|].
  destruct (mkdir_parents_no_file [] q (fs st)) as [m' Hm'].
  { intros k _. apply Hfree, list_elem_of_here. }
  unfold mkdir at 1, call. simpl. rewrite Hm'. simpl. apply IH.
  intros q' k Hq'. simpl. specialize (Hfree q' k (list_elem_of_further _ _ _ Hq')).
  pose proof (mkdir_parents_Val _ _ _ _ Hm' (take k q')) as Hv.
  unfold is_file in *. unfold path in *.
  destruct Hv as [E|(_ & E & _)]; rewrite E; done.
Qed.







(** ** The download cell *)

Lemma cell_download_run home objs st :
  run (cell_download home objs) st = Ok (downloaded home objs st).
Proof. reflexivity. Qed.

Lemma run_notebook home objs st :
  run (notebook home objs) st = run (pipeline home) (downloaded home objs st).
Proof. unfold notebook. by rewrite run_app, cell_download_run. Qed.

Lemma downloaded_fs home objs st :
  fs (downloaded home objs st)
  = s3_cp_recursive objs (example_1 home) (rm_rf (example_1 home) (fs st)).
Proof. reflexivity. Qed.


Lemma rm_rf_lookup_below (p q : path) (m : gmap path node) :
  p `prefix_of` q → rm_rf p m !! q = None.
Proof.
  intros Hp. unfold rm_rf. apply map_lookup_filter_None. right. intros n _ Hn. by apply Hn.
Qed.

Lemma rm_rf_lookup_other (p q : path) (m : gmap path node) :
  ¬ p `prefix_of` q → rm_rf p m !! q = m !! q.
Proof.
  intros Hp. unfold rm_rf. destruct (m !! q) as [n|] eqn:E.
  - apply map_lookup_filter_Some. done.
  - apply map_lookup_filter_None. by left.
Qed.

Lemma frame_above_refl dst m : frame_above dst m m.
Proof. intros q _. by left. Qed.

Lemma frame_above_trans dst m1 m2 m3 :
  frame_above dst m1 m2 → frame_above dst m2 m3 → frame_above dst m1 m3.
Proof.
  intros H12 H23 q Hq.
  destruct (H12 q Hq) as [E1|(N1 & D1 & P1)], (H23 q Hq) as [E2|(N2 & D2 & P2)].
  - left. congruence.
  - right. split_and!; [congruence|done|done].
  - right. split_and!; [done|congruence|done].
  - congruence.
Qed.

Lemma parent_app_key (dst key : path) : key ≠ [] → parent (dst ++ key) = dst ++ parent key.
Proof.
  intros Hne. unfold parent. rewrite length_app.
  assert (0 < length key)%nat by (destruct key; [done|simpl; lia]).
  rewrite take_app_ge by lia. f_equal. f_equal. lia.
Qed.

Lemma prefix_of_app_not (dst r q : path) :
  q `prefix_of` dst ++ r → ¬ dst `prefix_of` q → q `prefix_of` dst.
Proof.
  intros Hq Hn. destruct (prefix_weak_total q dst (dst ++ r)) as [H|H]; [done| |done|done].
  by apply prefix_app_r.
Qed.

Lemma copy_object_frame dst m o : frame_above dst m (copy_object dst m o).
Proof.
  unfold copy_object. destruct o as [key c]. simpl.
  destruct key as [|seg key]; [apply frame_above_refl|].
  set (k := seg :: key).
  destruct (mkdir_parents [] (parent (dst ++ k)) m) as [m'|e] eqn:H; [|apply frame_above_refl].
  assert (frame_above dst m m') as Hm.
  { intros q Hq. destruct (mkdir_parents_Val _ _ _ _ H q) as [E|(N & D & P)]; [by left|right].
    split_and!; [done|done|]. simpl in P. rewrite parent_app_key in P by done.
    by eapply prefix_of_app_not. }
  destruct (m' !! (dst ++ k)) as [[|c0]|] eqn:E; [done| |].
  - eapply frame_above_trans; [exact Hm|]. intros q Hq. left.
    apply lookup_insert_ne. intros <-. apply Hq. by apply prefix_app_r.
  - eapply frame_above_trans; [exact Hm|]. intros q Hq. left.
    apply lookup_insert_ne. intros <-. apply Hq. by apply prefix_app_r.
Qed.

Lemma s3_cp_recursive_frame objs dst m : frame_above dst m (s3_cp_recursive objs dst m).
Proof.
  unfold s3_cp_recursive. revert m. induction objs as [|o objs IH]; intros m; simpl.
  - apply frame_above_refl.
  - eapply frame_above_trans; [apply copy_object_frame | apply IH].
Qed.




Lemma example_1_prefix_DB home : example_1 home `prefix_of` DB_FILEPATH home.
Proof. exists ["teehr_base"; "teehr.db"]. unfold_paths. by rewrite <- !app_assoc. Qed.



(** ** What a run changes in the file system *)

Lemma table_folders_not_below_database home d :
  d ∈ table_folders home → ¬ DB_FILEPATH home `prefix_of` d.
Proof.
  unfold table_folders. rewrite !elem_of_cons, elem_of_nil.
  intros [->|[->|[->|[->|[->|[->|[]]]]]]]; path_neq.
Qed.

Lemma fs_changes_refl home m : fs_changes home m m.
Proof. intros p. by left. Qed.

Lemma fs_changes_trans home m1 m2 m3 :
  fs_changes home m1 m2 → fs_changes home m2 m3 → fs_changes home m1 m3.
Proof.
  intros H12 H23 p.
  destruct (H23 p) as [E|[(Hn & Hd & d & Hd1 & Hd2)|[Hout|Hdb]]].
  - rewrite E. apply H12.
  - destruct (H12 p) as [E|[(_ & Hd' & _)|[(_ & t & Ht)|(-> & _)]]].
    + right; left. rewrite <- E. eauto.
    + congruence.
    + congruence.
    + by apply table_folders_not_below_database in Hd2.
  - right; right; left. done.
  - right; right; right. done.
Qed.

Lemma effect_fs_changes home s e st :
  has_effect s e → effect_allowed home e → fs_changes home (fs st) (fs (final (s st))).
Proof.
  intros Hs He p. specialize (Hs st). destruct e as [|q|q|q]; simpl in *.
  - left. by rewrite Hs.
  - destruct (Hs p) as [?|(? & ? & ?)]; [by left|]. right; left. eauto.
  - destruct Hs as [->|[t ->]]; [by left|].
    destruct (decide (p = q)) as [->|Hne].
    + right; right; left. rewrite lookup_insert_eq. eauto.
    + left. by apply lookup_insert_ne.
  - subst q. destruct Hs as [Hother Hdb].
    destruct (decide (p = DB_FILEPATH home)) as [->|Hne]; [|left; by apply Hother].
    destruct Hdb as [?|?]; [by left|]. right; right; right. done.
Qed.

Lemma run_fs_changes home prog st :
  Forall (λ s, ∃ e, has_effect s e ∧ effect_allowed home e) prog →
  fs_changes home (fs st) (fs (final (run prog st))).
Proof.
  intros H. revert st. induction H as [|s prog (e & Hs & He) _ IH]; intros st; simpl.
  - apply fs_changes_refl.
  - pose proof (effect_fs_changes home s e st Hs He) as H1.
    destruct (s st) as [st1|err st1]; simpl in *; [|done].
    eapply fs_changes_trans; [exact H1 | apply IH].
Qed.

Ltac solve_elem_of :=
  first [ exact I | reflexivity
        | unfold table_folders, parquet_outputs;
          repeat first [ apply list_elem_of_here | apply list_elem_of_further ] ].

Lemma pipeline_fs_changes home st :
  fs_changes home (fs st) (fs (final (run (pipeline home) st))).
Proof.
  apply run_fs_changes. unfold_cells.
  repeat first [ apply Forall_nil_2 | apply Forall_cons_2 | apply Forall_app_2 ];
    (eexists; split; [stmt_effect | simpl; solve_elem_of]).
Qed.

Lemma to_parquet_writes var q : writes (to_parquet var q) q.
Proof.
  intros st st' (df & _ & F & _)%to_parquet_Ok. rewrite F, lookup_insert_eq. eauto.
Qed.

Lemma query_copy_order_by_writes ddb name cols q : writes (query_copy_order_by ddb name cols q) q.
Proof.
  intros st st' (db & t & _ & _ & F & _)%query_copy_order_by_Ok.
  rewrite F, lookup_insert_eq. eauto.
Qed.

(** A file written by statement [k] of a program and left alone by the
    statements after it is there when the run completes. *)
Lemma output_written prog k s q st st' :
  prog !! k = Some s → writes s q → Forall (preserves q) (drop (S k) prog) →
  run prog st = Ok st' → ∃ t, fs st' !! q = Some (File (Parquet t)).
Proof.
  intros Hk Hs Hpost Hrun.
  rewrite <- (take_drop_middle _ _ _ Hk) in Hrun.
  apply run_app_Ok in Hrun as (st1 & _ & Hrun).
  apply run_cons_Ok in Hrun as (st2 & H2 & Hrun).
  destruct (Hs _ _ H2) as [t Ht]. exists t.
  by rewrite (run_Ok_preserves _ _ _ _ Hrun Hpost).
Qed.

Lemma pipeline_outputs_written home st st' p :
  run (pipeline home) st = Ok st' → p ∈ parquet_outputs home →
  ∃ t, fs st' !! p = Some (File (Parquet t)).
Proof.
  intros Hrun. unfold parquet_outputs. rewrite !elem_of_cons, elem_of_nil.
  intros [->|[->|[->|[->|[->|[->|[->|[->|[->|[->|[]]]]]]]]]]].
  - eapply (output_written (pipeline home) 8); [reflexivity|apply to_parquet_writes| |exact Hrun].
    simpl. solve_preserves.
  - eapply (output_written (pipeline home) 10); [reflexivity|apply to_parquet_writes| |exact Hrun].
    simpl. solve_preserves.
  - eapply (output_written (pipeline home) 12); [reflexivity|apply to_parquet_writes| |exact Hrun].
    simpl. solve_preserves.
  - eapply (output_written (pipeline home) 14); [reflexivity|apply to_parquet_writes| |exact Hrun].
    simpl. solve_preserves.
  - eapply (output_written (pipeline home) 16); [reflexivity|apply to_parquet_writes| |exact Hrun].
    simpl. solve_preserves.
  - eapply (output_written (pipeline home) 18); [reflexivity|apply to_parquet_writes| |exact Hrun].
    simpl. solve_preserves.
  - eapply (output_written (pipeline home) 25); [reflexivity|apply to_parquet_writes| |exact Hrun].
    simpl. solve_preserves.
  - eapply (output_written (pipeline home) 32); [reflexivity|apply to_parquet_writes| |exact Hrun].
    simpl. solve_preserves.
  - eapply (output_written (pipeline home) 39); [reflexivity|apply to_parquet_writes| |exact Hrun].
    simpl. solve_preserves.
  - eapply (output_written (pipeline home) 46); [reflexivity|apply query_copy_order_by_writes| |exact Hrun].
    simpl. solve_preserves.
Qed.

(** ** The contents of the converted files *)

Lemma drop_lookup_cons {A} (l : list A) k x : l !! k = Some x → drop k l = x :: drop (S k) l.
Proof.
  revert k. induction l as [|a l IH]; intros [|k] H; simpl in *; try done.
  - by injection H as ->.
  - by apply IH.
Qed.

Lemma frame_of_csv_names l cols : col_names (frame_of_csv l cols) = cols.*1.
Proof. by destruct l. Qed.

Lemma frame_of_csv_columns l cols : columns (frame_of_csv l cols) = cols.
Proof. by destruct l. Qed.

(** A file read by statement [k] of a program and saved by the next one:
    what is saved is what was on disk when the program started, when the
    statements before leave the input alone and the statements after
    leave the output alone. *)
Lemma conversion_written prog k var src dst st st' :
  prog !! k = Some (read_csv var src) → prog !! S k = Some (to_parquet var dst) →
  Forall (preserves src) (take k prog) → Forall (preserves dst) (drop (S (S k)) prog) →
  run prog st = Ok st' →
  ∃ l cols, fs st !! src = Some (File (Csv l cols)) ∧ NoDup cols.*1 ∧
            fs st' !! dst = Some (File (Parquet (frame_table (frame_of_csv l cols)))).
Proof.
  intros Hk Hk' Hpre Hpost Hrun.
  rewrite <- (take_drop k prog), (drop_lookup_cons _ _ _ Hk), (drop_lookup_cons _ _ _ Hk') in Hrun.
  apply run_app_Ok in Hrun as (s1 & H1 & Hrun).
  apply run_cons_Ok in Hrun as (s2 & H2 & Hrun).
  apply run_cons_Ok in Hrun as (s3 & H3 & Hrun).
  apply read_csv_Ok in H2 as (l & cols & Hsrc & G2 & F2 & _).
  apply to_parquet_Ok in H3 as (df & Hdf & F3 & _ & _ & Hnd).
  rewrite G2, lookup_insert_eq in Hdf. injection Hdf as <-.
  rewrite frame_of_csv_names in Hnd.
  exists l, cols. split_and!; [|done|].
  - rewrite <- (run_Ok_preserves _ _ _ _ H1 Hpre). exact Hsrc.
  - rewrite (run_Ok_preserves _ _ _ _ Hrun Hpost), F3. apply lookup_insert_eq.
Qed.

Lemma pipeline_csv_conversion home src dst st st' :
  (src, dst) ∈ csv_conversions home → run (pipeline home) st = Ok st' →
  ∃ l cols, fs st !! src = Some (File (Csv l cols)) ∧ NoDup cols.*1 ∧
            fs st' !! dst = Some (File (Parquet (frame_table (frame_of_csv l cols)))).
Proof.
  unfold csv_conversions. rewrite !elem_of_cons, elem_of_nil.
  intros [E|[E|[E|[E|[E|[]]]]]] Hrun; injection E as -> ->.
  - eapply (conversion_written (pipeline home) 9); [reflexivity|reflexivity| | |exact Hrun];
      simpl; solve_preserves.
  - eapply (conversion_written (pipeline home) 11); [reflexivity|reflexivity| | |exact Hrun];
      simpl; solve_preserves.
  - eapply (conversion_written (pipeline home) 13); [reflexivity|reflexivity| | |exact Hrun];
      simpl; solve_preserves.
  - eapply (conversion_written (pipeline home) 15); [reflexivity|reflexivity| | |exact Hrun];
      simpl; solve_preserves.
  - eapply (conversion_written (pipeline home) 17); [reflexivity|reflexivity| | |exact Hrun];
      simpl; solve_preserves.
Qed.

Lemma pipeline_locations home st st' :
  run (pipeline home) st = Ok st' →
  ∃ cols,
    fs st !! (RAW_DATA_FILEPATH home ++ ["gages.geojson"]) = Some (File (GeoJSON cols)) ∧
    NoDup (col_names (rename "station" "name" (frame_of_columns cols))) ∧
    fs st' !! (GEOMETRY_FILEPATH home ++ ["locations.parquet"])
    = Some (File (Parquet (frame_table (rename "station" "name" (frame_of_columns cols))))).
Proof.
  intros Hrun.
  assert (pipeline home = cell_folders home ++ cell_locations home ++ drop 9 (pipeline home))
    as Hsplit by reflexivity.
  rewrite Hsplit in Hrun.
  apply run_app_Ok in Hrun as (s1 & H1 & Hrun). apply run_app_Ok in Hrun as (s2 & H2 & Hrun).
  unfold cell_locations in H2.
  apply run_cons_Ok in H2 as (s3 & Hread & H2). apply run_cons_Ok in H2 as (s4 & Hren & H2).
  apply run_cons_Ok in H2 as (s5 & Hsave & [= <-]).
  apply read_file_Ok in Hread as (cols & Hsrc & G3 & F3).
  apply rename_inplace_Ok in Hren as (df & Hdf & G4 & F4).
  rewrite G3, lookup_insert_eq in Hdf. injection Hdf as <-.
  apply to_parquet_Ok in Hsave as (df & Hdf & F5 & _ & _ & Hnd).
  rewrite G4, lookup_insert_eq in Hdf. injection Hdf as <-.
  exists cols. split_and!; [|done|].
  - rewrite <- (run_Ok_preserves _ _ _ _ H1) by solve_preserves. exact Hsrc.
  - rewrite (run_Ok_preserves _ _ _ _ Hrun) by (simpl; solve_preserves).
    rewrite F5. apply lookup_insert_eq.
Qed.

Lemma rename_absent old new df : old ∉ col_names df → rename old new df = df.
Proof.
  destruct df as [idx cols]. unfold rename, col_names; cbn [index columns]. intros Hold.
  f_equal. induction cols as [|[k c] cols IH]; [done|].
  rewrite fmap_cons in Hold. cbn [fst] in Hold. apply not_elem_of_cons in Hold as [Hk Hold].
  rewrite fmap_cons. cbv beta iota. rewrite decide_False by done. f_equal. by apply IH.
Qed.

(** ** The frame a timeseries cell saves *)

Lemma add_static_columns_names cfg df :
  col_names (add_static_columns cfg df) = with_static_columns (col_names df).
Proof.
  unfold add_static_columns, with_static_columns, add_name, col_names, setitem_scalar; simpl.
  by rewrite !set_col_fst.
Qed.

Lemma elem_of_add_name c k l : c ∈ add_name k l ↔ c = k ∨ c ∈ l.
Proof.
  unfold add_name. case_decide.
  - split; [by right|]. by intros [->|?].
  - rewrite elem_of_app, list_elem_of_singleton. tauto.
Qed.

Lemma with_static_columns_reference_time names :
  "reference_time" ∈ with_static_columns names.
Proof. unfold with_static_columns. apply elem_of_add_name. by left. Qed.

Lemma add_static_columns_assoc cfg df :
  let n := size (index df) in
  let cols := columns (add_static_columns cfg df) in
  assoc "configuration" cols = Some {| col_dtype := object; col_values := replicate n (Str cfg) |} ∧
  assoc "variable_name" cols =
    Some {| col_dtype := object; col_values := replicate n (Str "streamflow_daily_mean") |} ∧
  assoc "measurement_unit" cols =
    Some {| col_dtype := object; col_values := replicate n (Str "cms") |} ∧
  assoc "reference_time" cols = Some {| col_dtype := object; col_values := replicate n PyNone |}.
Proof.
  unfold add_static_columns, setitem_scalar; simpl. split_and!.
  - rewrite !assoc_set_col_ne by done. apply assoc_set_col_eq.
  - rewrite !assoc_set_col_ne by done. apply assoc_set_col_eq.
  - rewrite !assoc_set_col_ne by done. apply assoc_set_col_eq.
  - apply assoc_set_col_eq.
Qed.

Lemma add_static_columns_other cfg df c :
  c ∉ static_columns →
  assoc c (columns (add_static_columns cfg df)) = assoc c (columns df).
Proof.
  unfold static_columns. rewrite !not_elem_of_cons. intros (N1 & N2 & N3 & N4 & _).
  unfold add_static_columns, setitem_scalar; cbn [columns index].
  by rewrite !assoc_set_col_ne by done.
Qed.

Lemma add_static_columns_index cfg df : index (add_static_columns cfg df) = index df.
Proof. reflexivity. Qed.

Lemma all_NaT_replicate l : Forall (λ v, v = NaT) l → l = replicate (length l) NaT.
Proof. induction 1 as [|v l -> _ IH]; simpl; [done|]. by rewrite <- IH. Qed.

Lemma cast_missing n v vs :
  is_null v = true → mapM to_datetime64 (replicate n v) = Some vs → vs = replicate n NaT.
Proof.
  intros Hv H. pose proof (to_datetime64_missing _ _ H) as Hn.
  rewrite (all_NaT_replicate vs).
  - apply mapM_Some, Forall2_length in H. by rewrite <- H, length_replicate.
  - apply Hn. by apply Forall_replicate.
Qed.

Lemma fst_prod_map {A B} (g : A → B) (l : list (string * A)) : (prod_map id g <$> l).*1 = l.*1.
Proof. induction l as [|[k a] l IH]; [done|]. rewrite !fmap_cons. cbn. f_equal. exact IH. Qed.

Lemma labels_size_eq i j : labels i = labels j → size i = size j.
Proof. unfold size. by intros ->. Qed.

Lemma labels_nil_size i : labels i = [] ↔ size i = 0%nat.
Proof. unfold size. destruct (labels i); simpl; split; done. Qed.

(** The frame [converted cfg src df]: its columns are those of [df] and
    the static ones, its column reference_time holds [NaT] only, and it
    either takes the index [src], when [df] has no rows and [src] has,
    with every other column missing, or it keeps the index and the other
    columns of [df] with the static columns assigned. *)
Lemma converted_Some cfg src df df' :
  converted cfg src df = Some df' →
  col_names df' = with_static_columns (col_names df) ∧
  assoc "reference_time" (columns df')
  = Some {| col_dtype := datetime64_ns; col_values := replicate (size (index df')) NaT |} ∧
  ((labels (index df) = [] ∧ labels src ≠ [] ∧ index df' = src ∧
    ∀ c, c ≠ "reference_time" →
      assoc c (columns df')
      = all_missing (size src) <$> assoc c (columns (add_static_columns cfg df)))
   ∨ (¬ (labels (index df) = [] ∧ labels src ≠ []) ∧ index df' = index df ∧
      ∀ c, c ≠ "reference_time" →
        assoc c (columns df') = assoc c (columns (add_static_columns cfg df)))).
Proof.
  unfold converted. intros H. apply setitem_series_Some in H. cbv zeta in H.
  rewrite add_static_columns_index in H. cbn [missing_reference_time s_index s_dtype s_values] in H.
  destruct H as [(E1 & E2 & Hidx & Hcols)|(Hno & Hidx & vs & Hcols & Hvs)].
  - split_and!.
    + unfold col_names at 1. rewrite Hcols, set_col_fst, fst_prod_map.
      fold (col_names (add_static_columns cfg df)). rewrite add_static_columns_names.
      rewrite decide_True; [done|]. apply with_static_columns_reference_time.
    + rewrite Hcols, Hidx. apply assoc_set_col_eq.
    + left. split_and!; [done|done|done|]. intros c Hc.
      rewrite Hcols, assoc_set_col_ne by done. apply assoc_fmap_snd.
  - assert (vs = replicate (size (index df)) NaT) as ->.
    { destruct Hvs as [[Heq ->]|[_ ->]].
      - by rewrite (labels_size_eq _ _ Heq).
      - unfold reindex. cbn [s_index s_dtype s_values].
        assert (∀ l, (λ lbl, default (na_value datetime64_ns)
                               (at_label lbl (labels src) (replicate (size src) NaT))) <$> l
                     = replicate (length l) NaT) as Hall.
        { induction l as [|lbl l IH]; [done|]. rewrite fmap_cons. cbn [length replicate].
          f_equal; [|exact IH].
          destruct (at_label lbl (labels src) (replicate (size src) NaT)) as [v|] eqn:E; [|done].
          apply at_label_elem, elem_of_replicate in E as [-> _]. done. }
        apply Hall. }
    split_and!.
    + unfold col_names at 1. rewrite Hcols, set_col_fst.
      fold (col_names (add_static_columns cfg df)). rewrite add_static_columns_names.
      rewrite decide_True; [done|]. apply with_static_columns_reference_time.
    + rewrite Hcols, Hidx. apply assoc_set_col_eq.
    + right. split_and!; [done|done|]. intros c Hc.
      rewrite Hcols. by apply assoc_set_col_ne.
Qed.

(** The cells of obs and baseline: the frame keeps its index. *)
Lemma converted_own cfg df :
  ∃ df', converted cfg (index df) df = Some df' ∧ index df' = index df.
Proof.
  unfold converted, setitem_series. rewrite add_static_columns_index.
  cbn [missing_reference_time s_index].
  rewrite decide_False by (intros [E N]; done).
  rewrite decide_True by done. eauto.
Qed.

(** What a conversion cell leaves: the frame [converted cfg idx df],
    saved and bound to the cell's variable, where [idx] is the index of
    the frame whose column is cast: the cell's own frame or, in the cell
    of sim, the frame of baseline as its cell left it. *)
Lemma convert_exact var cfg src target st st' df idx :
  globals st !! var = Some df →
  run (convert var cfg src target) st = Ok st' →
  (src = var ∧ idx = index df) ∨
  (∃ bdf, src ≠ var ∧ globals st !! src = Some bdf ∧ index bdf = idx ∧
          assoc "reference_time" (columns bdf)
          = Some {| col_dtype := datetime64_ns; col_values := replicate (size idx) NaT |}) →
  ∃ df', converted cfg idx df = Some df' ∧ NoDup (col_names df') ∧
    fs st' = <[target := File (Parquet (frame_table df'))]> (fs st) ∧
    globals st' = <[var := df']> (globals st).
Proof.
  intros Hvar Hrun Hsrc.
  pose proof Hrun as Hrun'.
  apply convert_Ok in Hrun as (df0 & sdf & s & s' & df' & Hdf & Hsdf & Hs & Hs' & Hdf' & F & G).
  rewrite Hvar in Hdf. injection Hdf as <-.
  apply getitem_Some in Hs as (col & Hcol & Hsi & _ & Hvals).
  apply astype_datetime64_Some in Hs' as (Hsi' & Hd & Hm).
  rewrite Hvals in Hm. rewrite Hsi in Hsi'.
  assert (s' = missing_reference_time idx) as ->.
  { destruct s' as [i' d' vs']. cbn [s_index s_dtype s_values] in *. subst i' d'.
    unfold missing_reference_time.
    destruct Hsrc as [[-> ->]|(bdf & Hne & Hb & Hbi & Hbc)].
    - rewrite lookup_insert_eq in Hsdf. injection Hsdf as <-.
      destruct (add_static_columns_assoc cfg df) as (_ & _ & _ & Hr).
      rewrite Hr in Hcol. injection Hcol as <-. cbn [col_values] in Hm.
      rewrite add_static_columns_index. f_equal. eapply cast_missing; [|exact Hm]; done.
    - rewrite lookup_insert_ne in Hsdf by done. rewrite Hb in Hsdf. injection Hsdf as <-.
      rewrite Hbc in Hcol. injection Hcol as <-. cbn [col_values] in Hm.
      rewrite Hbi. f_equal. eapply cast_missing; [|exact Hm]; done. }
  exists df'. split_and!; [done| |done|done].
  unfold convert in Hrun'.
  repeat (apply run_cons_Ok in Hrun' as (? & ? & Hrun')).
  match goal with H : to_parquet _ _ _ = Ok _ |- _ =>
    apply to_parquet_Ok in H as (df5 & Hdf5 & _ & G5 & _ & Hnd) end.
  injection Hrun' as <-. rewrite <- G5, G, lookup_insert_eq in Hdf5. by injection Hdf5 as <-.
Qed.

Lemma converted_own_index cfg df df' :
  converted cfg (index df) df = Some df' → index df' = index df.
Proof.
  intros (_ & _ & [(E & N & _)|(_ & Hidx & _)])%converted_Some; done.
Qed.

(** The three timeseries files after the cells after the download: each
    holds the frame [converted] of the frame read from its CSV file, the
    one of sim with the index of the frame of baseline. *)
Lemma pipeline_timeseries home st st' :
  run (pipeline home) st = Ok st' →
  ∃ lo obs lb baseline ls sim o' b' s',
    fs st !! (RAW_DATA_FILEPATH home ++ ["obs.csv"]) = Some (File (Csv lo obs)) ∧
    fs st !! (RAW_DATA_FILEPATH home ++ ["baseline.csv"]) = Some (File (Csv lb baseline)) ∧
    fs st !! (RAW_DATA_FILEPATH home ++ ["sim.csv"]) = Some (File (Csv ls sim)) ∧
    converted "usgs" (index (frame_of_csv lo obs)) (frame_of_csv lo obs) = Some o' ∧
    converted "baseline" (index (frame_of_csv lb baseline)) (frame_of_csv lb baseline)
    = Some b' ∧
    converted "sim" (index (frame_of_csv lb baseline)) (frame_of_csv ls sim) = Some s' ∧
    (NoDup (col_names o') ∧ NoDup (col_names b') ∧ NoDup (col_names s')) ∧
    fs st' !! (PRIMARY_FILEPATH home ++ ["obs.parquet"])
    = Some (File (Parquet (frame_table o'))) ∧
    fs st' !! (SECONDARY_FILEPATH home ++ ["baseline.parquet"])
    = Some (File (Parquet (frame_table b'))) ∧
    fs st' !! (SECONDARY_FILEPATH home ++ ["sim.parquet"])
    = Some (File (Parquet (frame_table s'))).
Proof.
  intros Hrun.
  assert (pipeline home
          = take 19 (pipeline home) ++ cell_obs_read home ++ cell_obs_convert home
            ++ cell_baseline_read home ++ cell_baseline_convert home
            ++ cell_sim_read home ++ cell_sim_convert home ++ drop 40 (pipeline home))
    as Hsplit by reflexivity.
  rewrite Hsplit in Hrun. clear Hsplit.
  apply run_app_Ok in Hrun as (s0 & H0 & H).
  apply run_app_Ok in H as (s1 & Hor & H). apply run_app_Ok in H as (s2 & Hoc & H).
  apply run_app_Ok in H as (s3 & Hbr & H). apply run_app_Ok in H as (s4 & Hbc & H).
  apply run_app_Ok in H as (s5 & Hsr & H). apply run_app_Ok in H as (s6 & Hsc & Hrest).
  pose proof Hor as Hor'. pose proof Hbr as Hbr'. pose proof Hsr as Hsr'.
  apply run_cons_Ok in Hor' as (? & (lo & obs & Hobs & Go & Fo)%read_csv_Ok & [= <-]).
  apply run_cons_Ok in Hbr' as (? & (lb & baseline & Hbase & Gb & Fb)%read_csv_Ok & [= <-]).
  apply run_cons_Ok in Hsr' as (? & (ls & sim & Hsim & Gs & Fs)%read_csv_Ok & [= <-]).
  destruct Fo as [Fo _], Fb as [Fb _], Fs as [Fs _].
  rewrite cell_obs_convert_eq in Hoc. rewrite cell_baseline_convert_eq in Hbc.
  rewrite cell_sim_convert_eq in Hsc.
  pose proof Hoc as Hoc'. pose proof Hbc as Hbc'. pose proof Hsc as Hsc'.
  apply (convert_exact _ _ _ _ _ _ (frame_of_csv lo obs) (index (frame_of_csv lo obs)))
    in Hoc' as (o' & Co & No & Fo' & _);
    [|by rewrite Go, lookup_insert_eq|by left].
  apply (convert_exact _ _ _ _ _ _ (frame_of_csv lb baseline)
           (index (frame_of_csv lb baseline)))
    in Hbc' as (b' & Cb & Nb & Fb' & Gb');
    [|by rewrite Gb, lookup_insert_eq|by left].
  apply (convert_exact _ _ _ _ _ _ (frame_of_csv ls sim) (index (frame_of_csv lb baseline)))
    in Hsc' as (s' & Cs & Ns & Fs' & _);
    [|by rewrite Gs, lookup_insert_eq|].
  2:{ right. exists b'. split_and!; [done| | |].
      - by rewrite Gs, lookup_insert_ne, Gb', lookup_insert_eq.
      - by eapply converted_own_index.
      - destruct (converted_Some _ _ _ _ Cb) as (_ & Hr & _).
        by rewrite (converted_own_index _ _ _ Cb) in Hr. }
  exists lo, obs, lb, baseline, ls, sim, o', b', s'. split_and!; try done.
  - rewrite <- (run_Ok_preserves _ _ _ _ H0) by (simpl; solve_preserves). exact Hobs.
  - rewrite <- (run_Ok_preserves _ _ _ _ H0) by (simpl; solve_preserves).
    rewrite <- (run_Ok_preserves _ _ _ _ Hor) by solve_preserves.
    rewrite <- (run_Ok_preserves _ _ _ _ Hoc) by solve_preserves. exact Hbase.
  - rewrite <- (run_Ok_preserves _ _ _ _ H0) by (simpl; solve_preserves).
    rewrite <- (run_Ok_preserves _ _ _ _ Hor) by solve_preserves.
    rewrite <- (run_Ok_preserves _ _ _ _ Hoc) by solve_preserves.
    rewrite <- (run_Ok_preserves _ _ _ _ Hbr) by solve_preserves.
    rewrite <- (run_Ok_preserves _ _ _ _ Hbc) by solve_preserves. exact Hsim.
  - rewrite (run_Ok_preserves _ _ _ _ Hrest) by (simpl; solve_preserves).
    rewrite (run_Ok_preserves _ _ _ _ Hsc) by solve_preserves.
    rewrite (run_Ok_preserves _ _ _ _ Hsr) by solve_preserves.
    rewrite (run_Ok_preserves _ _ _ _ Hbc) by solve_preserves.
    rewrite (run_Ok_preserves _ _ _ _ Hbr) by solve_preserves.
    rewrite Fo'. apply lookup_insert_eq.
  - rewrite (run_Ok_preserves _ _ _ _ Hrest) by (simpl; solve_preserves).
    rewrite (run_Ok_preserves _ _ _ _ Hsc) by solve_preserves.
    rewrite (run_Ok_preserves _ _ _ _ Hsr) by solve_preserves.
    rewrite Fb'. apply lookup_insert_eq.
  - rewrite (run_Ok_preserves _ _ _ _ Hrest) by (simpl; solve_preserves).
    rewrite Fs'. apply lookup_insert_eq.
Qed.

(** ** The records of the converted frames *)

Lemma frame_table_row df r :
  r ∈ rows (frame_table df) → ∃ i, (i < size (index df))%nat ∧ r = frame_row df i.
Proof. simpl. intros [i Hi]%list_elem_of_lookup. exists i. by apply frame_rows_lookup. Qed.





(** The data a saved timeseries frame holds of the frame read. *)
Lemma converted_holds_rows input cfg src df df' :
  converted cfg src df = Some df' → assigned input = static_columns →
  (∀ k, saved_name input k = k) →
  holds_rows input df (frame_table df').
Proof.
  intros H Has Hsaved i Hi.
  apply converted_Some in H as (_ & _ & [(E & _)|(_ & Hidx & Hcols)]).
  { apply labels_nil_size in E. lia. }
  exists (frame_row df' i). split.
  - simpl. apply frame_rows_lookup_lt. by rewrite Hidx.
  - intros k col Hk Hn. rewrite Hsaved, Has in *.
    apply field_frame_row. rewrite Hcols.
    + by rewrite add_static_columns_other.
    + intros ->. apply Hn. unfold static_columns. rewrite !elem_of_cons. tauto.
Qed.

Lemma frame_holds_rows input df :
  assigned input = [] → (∀ k, saved_name input k = k) → holds_rows input df (frame_table df).
Proof.
  intros Has Hsaved i Hi. exists (frame_row df i). split.
  - simpl. by apply frame_rows_lookup_lt.
  - intros k col Hk _. rewrite Hsaved. by apply field_frame_row.
Qed.

Lemma assoc_rename (cols : list (string * Column)) k col :
  NoDup ((λ '(k, c), (if decide (k = "station") then "name" else k, c)) <$> cols).*1 →
  assoc k cols = Some col →
  assoc (if decide (k = "station") then "name" else k)
        ((λ '(k, c), (if decide (k = "station") then "name" else k, c)) <$> cols)
  = Some col.
Proof.
  induction cols as [|[k0 c0] cols IH]; [done|].
  rewrite fmap_cons. cbn [fst assoc]. rewrite fmap_cons. cbn [fst].
  intros [Hk0 Hnd]%NoDup_cons.
  destruct (decide (k = k0)) as [->|Hne].
  - intros [= ->]. by rewrite decide_True.
  - intros Hk. rewrite decide_False; [by apply IH|].
    intros E. apply Hk0. rewrite <- E.
    clear -Hk. induction cols as [|[k1 c1] cols IH]; [done|].
    simpl in Hk. rewrite fmap_cons. cbn. destruct (decide (k = k1)) as [->|?].
    + apply list_elem_of_here.
    + apply list_elem_of_further. by apply IH.
Qed.

Lemma locations_holds_rows df :
  NoDup (col_names (rename "station" "name" df)) →
  holds_rows "gages.geojson" df (frame_table (rename "station" "name" df)).
Proof.
  intros Hnd i Hi. exists (frame_row (rename "station" "name" df) i). split.
  - simpl. by apply frame_rows_lookup_lt.
  - intros k col Hk _.
    assert (saved_name "gages.geojson" k = if decide (k = "station") then "name" else k) as ->.
    { unfold saved_name. destruct (decide (k = "station")) as [->|?].
      - by rewrite decide_True.
      - rewrite decide_False; [done|]. by intros [_ ?]. }
    apply field_frame_row. unfold rename; cbn [columns]. by apply assoc_rename.
Qed.

(** ** The file system after the download cell *)

Lemma downloaded_frame home objs st (p : path) :
  ¬ example_1 home `prefix_of` p →
  fs (downloaded home objs st) !! p = fs st !! p ∨
  (fs st !! p = None ∧ fs (downloaded home objs st) !! p = Some Dir ∧
   p `prefix_of` example_1 home).
Proof.
  intros Hp. rewrite downloaded_fs.
  destruct (s3_cp_recursive_frame objs (example_1 home) (rm_rf (example_1 home) (fs st)) p Hp)
    as [E|(N & D & P)].
  - left. by rewrite E, rm_rf_lookup_other.
  - right. by rewrite rm_rf_lookup_other in N.
Qed.

Lemma parquet_outputs_below home p : p ∈ parquet_outputs home → example_1 home `prefix_of` p.
Proof.
  unfold parquet_outputs. rewrite !elem_of_cons, elem_of_nil.
  intros [->|[->|[->|[->|[->|[->|[->|[->|[->|[->|[]]]]]]]]]]];
    unfold_paths; rewrite <- !app_assoc; apply prefix_app, prefix_cons, prefix_cons, prefix_nil.
Qed.

(** ** The database file *)

(** The cells after the download cell, from any state. *)
Lemma pipeline_scratch_database home st st' :
  run (pipeline home) st = Ok st' →
  (∃ st1 db,
     run (section_convert home ++ cell_database home) st = Ok st1 ∧
     fs st1 !! DB_FILEPATH home = Some (File (DuckDB db))) ∧
  fs st' !! DB_FILEPATH home = None ∧
  ∀ p c, fs st' !! p = Some (File c) →
         fs st !! p = Some (File c) ∨ (p ∈ parquet_outputs home ∧ ∃ t, c = Parquet t).
Proof.
  intros Hrun. destruct (pipeline_Ok _ _ _ Hrun) as (_ & Hgone & Hcreated).
  split_and!; [done|done|].
  intros p c Hp. pose proof (pipeline_fs_changes home st p) as Hch.
  rewrite Hrun in Hch. simpl in Hch.
  destruct Hch as [E|[(_ & Hd & _)|[(Hout & t & Ht)|(-> & _)]]].
  - left. by rewrite <- E.
  - congruence.
  - right. split; [done|]. exists t. congruence.
  - congruence.
Qed.

(** C5: in a complete run the database file is created (it is a database
    after the cell that opens it), it is gone when the run ends, and a
    file that is there after the run is a file that was there when the
    download cell had run, unchanged, or one of the Parquet outputs;
    outside the directory of the download it is a file that was there
    before the run, unchanged. *)
Theorem database_file_is_scratch home objs st st' :
  run (notebook home objs) st = Ok st' →
  (∃ st1 db,
     run (cell_download home objs ++ section_convert home ++ cell_database home) st = Ok st1 ∧
     fs st1 !! DB_FILEPATH home = Some (File (DuckDB db))) ∧
  fs st' !! DB_FILEPATH home = None ∧
  (∀ p c, fs st' !! p = Some (File c) →
          fs (downloaded home objs st) !! p = Some (File c) ∨
          (p ∈ parquet_outputs home ∧ ∃ t, c = Parquet t)) ∧
  ∀ (p : path) c, ¬ example_1 home `prefix_of` p →
          fs st' !! p = Some (File c) → fs st !! p = Some (File c).
Proof.
  rewrite run_notebook. intros Hrun.
  destruct (pipeline_scratch_database _ _ _ Hrun) as ((st1 & db & H1 & Hdb) & Hgone & Hfr).
  split_and!; [|done|done|].
  - exists st1, db. split; [|done]. by rewrite run_app, cell_download_run.
  - intros p c Hp Hc. destruct (Hfr p c Hc) as [Hd|[Hout _]].
    + destruct (downloaded_frame home objs st p Hp) as [E|(_ & D & _)]; congruence.
    + by apply parquet_outputs_below in Hout.
Qed.

(** ** Where the Parquet files go *)

(** C4: a Parquet file that a run of the notebook, complete or not,
    creates or replaces after the download is one of the outputs the
    cells name, each in one of the six folders primary, secondary,
    crosswalk, geometry, attribute and joined of the TEEHR base
    directory; after a complete run every converted input is a Parquet
    file in the folder of its kind of table, holding the rows of that
    input, and the joined records are in the folder joined. *)
Theorem parquet_files_in_table_folders home objs st :
  (∀ p t, fs (final (run (notebook home objs) st)) !! p = Some (File (Parquet t)) →
          fs (downloaded home objs st) !! p = Some (File (Parquet t)) ∨
          p ∈ parquet_outputs home) ∧
  (∀ p, p ∈ parquet_outputs home →
        ∃ e name, p = (TEEHR_BASE home ++ [folder e]) ++ [name]) ∧
  (∀ st', run (notebook home objs) st = Ok st' →
     (∀ input e output, (input, e, output) ∈ converted_inputs →
        ∃ c f t,
          fs (downloaded home objs st) !! (RAW_DATA_FILEPATH home ++ [input]) = Some (File c) ∧
          read_frame c = Some f ∧
          fs st' !! ((TEEHR_BASE home ++ [folder e]) ++ [output]) = Some (File (Parquet t)) ∧
          holds_rows input f t) ∧
     ∃ t, fs st' !! ((TEEHR_BASE home ++ [folder Joined]) ++ ["joined.parquet"])
          = Some (File (Parquet t))).
Proof.
  rewrite run_notebook. split_and!.
  - intros p t Hp.
    destruct (pipeline_fs_changes home (downloaded home objs st) p)
      as [E|[(_ & Hd & _)|[[Hout _]|(_ & [Hn|[db Hdb]])]]].
    + left. by rewrite <- E.
    + congruence.
    + by right.
    + congruence.
    + congruence.
  - intros p. unfold parquet_outputs. rewrite !elem_of_cons, elem_of_nil.
    intros [->|[->|[->|[->|[->|[->|[->|[->|[->|[->|[]]]]]]]]]]].
    + by exists Geometry, "locations.parquet".
    + by exists Crosswalk, "baseline-crosswalk.parquet".
    + by exists Crosswalk, "sim-crosswalk.parquet".
    + by exists Attribute, "2yr_discharge.parquet".
    + by exists Attribute, "drainage_area.parquet".
    + by exists Attribute, "ecoregion.parquet".
    + by exists Primary, "obs.parquet".
    + by exists Secondary, "baseline.parquet".
    + by exists Secondary, "sim.parquet".
    + by exists Joined, "joined.parquet".
  - intros st' Hrun. split.
    + assert (∀ src dst input, (src, dst) ∈ csv_conversions home →
                assigned input = [] → (∀ k, saved_name input k = k) →
                ∃ c f t, fs (downloaded home objs st) !! src = Some (File c) ∧
                         read_frame c = Some f ∧
                         fs st' !! dst = Some (File (Parquet t)) ∧ holds_rows input f t) as Hcsv.
      { intros src dst input Hin Has Hsaved.
        destruct (pipeline_csv_conversion home src dst _ _ Hin Hrun) as (l & cols & Hs & _ & Hd).
        exists (Csv l cols), (frame_of_csv l cols), (frame_table (frame_of_csv l cols)).
        split_and!; [done|done|done|]. by apply frame_holds_rows. }
      destruct (pipeline_locations home _ _ Hrun) as (gcols & Hg & Hgnd & Hg').
      destruct (pipeline_timeseries home _ _ Hrun)
        as (lo & obs & lb & baseline & ls & sim & o' & b' & s'
            & Ho & Hb & Hs & Co & Cb & Cs & _ & Ho' & Hb' & Hs').
      intros input e output. unfold converted_inputs. rewrite !elem_of_cons, elem_of_nil.
      intros [E|[E|[E|[E|[E|[E|[E|[E|[E|[]]]]]]]]]]; injection E as -> -> ->.
      * exists (GeoJSON gcols), (frame_of_columns gcols),
          (frame_table (rename "station" "name" (frame_of_columns gcols))).
        split_and!; [done|done|done|]. by apply locations_holds_rows.
      * apply (Hcsv (RAW_DATA_FILEPATH home ++ ["baseline-crosswalk.csv"])
                 (CROSSWALK_FILEPATH home ++ ["baseline-crosswalk.parquet"]));
          [unfold csv_conversions; solve_elem_of|done|done].
      * apply (Hcsv (RAW_DATA_FILEPATH home ++ ["sim-crosswalk.csv"])
                 (CROSSWALK_FILEPATH home ++ ["sim-crosswalk.parquet"]));
          [unfold csv_conversions; solve_elem_of|done|done].
      * apply (Hcsv (RAW_DATA_FILEPATH home ++ ["gage_attr_2yr_discharge.csv"])
                 (ATTRIBUTE_FILEPATH home ++ ["2yr_discharge.parquet"]));
          [unfold csv_conversions; solve_elem_of|done|done].
      * apply (Hcsv (RAW_DATA_FILEPATH home ++ ["gage_attr_drainage_area_km2.csv"])
                 (ATTRIBUTE_FILEPATH home ++ ["drainage_area.parquet"]));
          [unfold csv_conversions; solve_elem_of|done|done].
      * apply (Hcsv (RAW_DATA_FILEPATH home ++ ["gage_attr_ecoregion.csv"])
                 (ATTRIBUTE_FILEPATH home ++ ["ecoregion.parquet"]));
          [unfold csv_conversions; solve_elem_of|done|done].
      * exists (Csv lo obs), (frame_of_csv lo obs), (frame_table o').
        split_and!; [done|done|done|]. by eapply converted_holds_rows.
      * exists (Csv lb baseline), (frame_of_csv lb baseline), (frame_table b').
        split_and!; [done|done|done|]. by eapply converted_holds_rows.
      * exists (Csv ls sim), (frame_of_csv ls sim), (frame_table s').
        split_and!; [done|done|done|]. by eapply converted_holds_rows.
    + apply (pipeline_outputs_written home _ st' _ Hrun). solve_elem_of.
Qed.

(** ** The fields of the timeseries records *)

(** The fields of a timeseries frame saved from a file of the data
    model, whatever index it took from such a file. *)
Lemma converted_timeseries_fields cfg c cb f fb df' :
  timeseries_csv c → timeseries_csv cb →
  read_frame c = Some f → read_frame cb = Some fb →
  converted cfg (index fb) f = Some df' →
  (schema (frame_table df')).*1 = timeseries_fields ∧
  ∀ r, r ∈ rows (frame_table df') → r.*1 = timeseries_fields.
Proof.
  intros (cols & -> & Hcols) (colsb & -> & _) [= <-] [= <-] H.
  assert (col_names df' = timeseries_fields ∧ (index_schema (index df')).*1 = []) as [Hn Hi].
  { apply converted_Some in H as (Hn & _ & [(_ & _ & -> & _)|(_ & -> & _)]).
    - split; [|done]. rewrite Hn. simpl. unfold col_names; simpl. by rewrite Hcols.
    - split; [|done]. rewrite Hn. simpl. unfold col_names; simpl. by rewrite Hcols. }
  split.
  - by rewrite frame_table_fst, Hn, Hi, app_nil_r.
  - intros r (i & _ & ->)%frame_table_row. by rewrite frame_row_fst, Hn, Hi, app_nil_r.
Qed.

(** C2, as the cells have it: when the three timeseries files of the
    download have the columns location_id, value_time and value of the
    data model, every timeseries file written by a complete run, and
    every record of it, has exactly the seven fields location_id,
    value_time, value, configuration, variable_name, measurement_unit
    and reference_time, the last four assigned by the conversion cell
    before it saves the frame.  The unit is the field measurement_unit;
    there is no field unit. *)
Theorem timeseries_record_fields home objs st st' :
  run (notebook home objs) st = Ok st' →
  (∀ csv prog out c, (csv, prog, out) ∈ timeseries_cells home →
     fs (downloaded home objs st) !! csv = Some (File c) → timeseries_csv c) →
  ∀ csv prog out, (csv, prog, out) ∈ timeseries_cells home →
    ∃ t, fs st' !! out = Some (File (Parquet t)) ∧
         (schema t).*1 = timeseries_fields ∧
         (∀ r, r ∈ rows t → r.*1 = timeseries_fields) ∧
         "unit" ∉ (schema t).*1.
Proof.
  rewrite run_notebook. intros Hrun Hcsv.
  destruct (pipeline_timeseries home _ _ Hrun)
    as (lo & obs & lb & baseline & ls & sim & o' & b' & s'
        & Ho & Hb & Hs & Co & Cb & Cs & _ & Ho' & Hb' & Hs').
  assert (timeseries_csv (Csv lo obs) ∧ timeseries_csv (Csv lb baseline)
          ∧ timeseries_csv (Csv ls sim)) as (To & Tb & Ts).
  { split_and!; (eapply Hcsv; [|eassumption]); unfold timeseries_cells; solve_elem_of. }
  assert ("unit" ∉ timeseries_fields) as Hunit.
  { unfold timeseries_fields. rewrite !not_elem_of_cons. split_and!; try done.
    apply not_elem_of_nil. }
  intros csv prog out. unfold timeseries_cells. rewrite !elem_of_cons, elem_of_nil.
  intros [E|[E|[E|[]]]]; injection E as -> -> ->.
  - destruct (converted_timeseries_fields _ _ _ _ _ _ To To eq_refl eq_refl Co) as [H1 H2].
    exists (frame_table o'). split_and!; [done|done|done|by rewrite H1].
  - destruct (converted_timeseries_fields _ _ _ _ _ _ Tb Tb eq_refl eq_refl Cb) as [H1 H2].
    exists (frame_table b'). split_and!; [done|done|done|by rewrite H1].
  - destruct (converted_timeseries_fields _ _ _ _ _ _ Ts Tb eq_refl eq_refl Cs) as [H1 H2].
    exists (frame_table s'). split_and!; [done|done|done|by rewrite H1].
Qed.

(** ** The static fields *)


(** ** The calls of a complete run *)


(** ** Failures *)

(** A run raises exactly when one of its statements does, in the state
    the statements before it leave. *)
Lemma run_Raise prog st e st' :
  run prog st = Raise e st' ↔
  ∃ k s sk, prog !! k = Some s ∧ run (take k prog) st = Ok sk ∧ s sk = Raise e st'.
Proof.
  revert st. induction prog as [|s0 prog IH]; intros st.
  - split; [done|]. by intros (k & s & sk & Hk & _).
  - split.
    + cbn [run]. destruct (s0 st) as [s1|e1 s1] eqn:E0.
      * intros (k & s & sk & Hk & Hpre & Hs)%IH. exists (S k), s, sk.
        split_and!; [done| |done]. cbn [take run]. by rewrite E0.
      * intros [= <- <-]. by exists 0%nat, s0, st.
    + intros ([|k] & s & sk & Hk & Hpre & Hs).
      * cbn in Hk, Hpre. injection Hk as <-. injection Hpre as <-.
        cbn [run]. by rewrite Hs.
      * cbn [take run] in Hpre. cbn in Hk. cbn [run].
        destruct (s0 st) as [s1|e1 s1]; [|done]. apply IH. by exists k, s, sk.
Qed.

Lemma call_Raise ev body st e st' :
  call ev body st = Raise e st' ↔ body (log_call ev st) = Err e ∧ st' = log_call ev st.
Proof.
  unfold call. destruct (body (log_call ev st)) as [s|e0]; split.
  - done.
  - by intros [? _].
  - by intros [= -> ->].
  - by intros [[= ->] ->].
Qed.

Lemma res_bind_Err {A B} (x : res A) (f : A → res B) e :
  res_bind x f = Err e ↔ x = Err e ∨ ∃ a, x = Val a ∧ f a = Err e.
Proof.
  destruct x as [a|e0]; simpl; split.
  - eauto.
  - intros [?|(a' & [= <-] & ?)]; done.
  - intros [= ->]. by left.
  - intros [[= ->]|(a' & ? & _)]; done.
Qed.

Lemma get_global_Err var st e :
  get_global var st = Err e ↔ globals st !! var = None ∧ e = NameError var.
Proof.
  unfold get_global. destruct (globals st !! var); simpl; split.
  - done.
  - by intros [? _].
  - by intros [= <-].
  - by intros [_ ->].
Qed.

Lemma of_option_Err {A} e0 (o : option A) e : of_option e0 o = Err e ↔ o = None ∧ e = e0.
Proof.
  destruct o; simpl; split; try done.
  - by intros [? _].
  - by intros [= <-].
  - by intros [_ ->].
Qed.

(** The failure of the library at a statement raises the exception, in
    the state the statement found, with the call logged. *)
Lemma library_raises_Raise s st e :
  library_raises s st e →
  ∃ st', s st = Raise e st' ∧ fs st' = fs st ∧ globals st' = globals st ∧
         ∃ ev, calls st' = calls st ++ [ev].
Proof.
  intros H.
  assert (∀ ev body, body (log_call ev st) = Err e →
            ∃ st', call ev body st = Raise e st' ∧ fs st' = fs st ∧
                   globals st' = globals st ∧ ∃ ev, calls st' = calls st ++ [ev]) as Hcall.
  { intros ev body Hb. exists (log_call ev st). split; [by apply call_Raise|]. simpl. eauto. }
  destruct H.
  all: apply Hcall; cbn [fs globals log_call]; unfold get_global; cbn [fs globals log_call].
  all: repeat (match goal with H : _ = _ |- _ => rewrite H; clear H end;
               cbn [res_bind of_option]).
  all: try done.
  - destruct n as [|[]]; try done. by destruct (H0 tables).
  - by rewrite decide_False.
  - by rewrite decide_True.
Qed.

(** A plain statement raises only when the library fails. *)
Lemma plain_statement_Raise s st e st' :
  plain_statement s → s st = Raise e st' → library_raises s st e.
Proof.
  intros Hs H. destruct Hs.
  all: unfold mkdir, read_file, read_csv, rename_inplace, setitem, setitem_astype_datetime64,
         to_parquet, DuckDBDatabase, update_joined_timeseries, get_joined_timeseries_schema,
         query_copy_order_by, DuckDBJoinedParquet, get_joined_timeseries, get_metrics,
         if_is_file_unlink, unlink in H.
  - done.
  - done.
  - apply call_Raise in H as [H _]. simpl in H.
    apply res_bind_Err in H as [H|(m & _ & H)]; [|done]. by constructor.
  - apply call_Raise in H as [H _]. simpl in H.
    apply res_bind_Err in H as [H|(m & _ & H)]; [|done]. by constructor.
  - apply call_Raise in H as [H _]. simpl in H.
    apply res_bind_Err in H as [H|(m & _ & H)]; [|done]. by constructor.
  - apply call_Raise in H as [H _]. simpl in H.
    apply res_bind_Err in H as [[H ->]%get_global_Err|(m & _ & H)]; [|done]. by constructor.
  - apply call_Raise in H as [H _]. simpl in H.
    apply res_bind_Err in H as [[H ->]%get_global_Err|(m & _ & H)]; [|done]. by constructor.
  - apply call_Raise in H as [H _]. simpl in H.
    apply res_bind_Err in H as [[H ->]%get_global_Err|(sdf & Hsdf%get_global_Val & H)].
    { by apply astype_source_unbound. }
    apply res_bind_Err in H as [[H ->]%of_option_Err|(s & Hs%of_option_Val & H)].
    { by eapply astype_no_column. }
    apply res_bind_Err in H as [[H ->]%of_option_Err|(s' & Hs'%of_option_Val & H)].
    { by eapply astype_raises. }
    apply res_bind_Err in H as [[H ->]%get_global_Err|(df & Hdf%get_global_Val & H)].
    { by eapply astype_target_unbound. }
    apply res_bind_Err in H as [[H ->]%of_option_Err|(df' & _ & H)]; [|done].
    by eapply setitem_series_raises.
  - apply call_Raise in H as [H _]. simpl in H.
    apply res_bind_Err in H as [[H ->]%get_global_Err|(df & Hdf%get_global_Val & H)].
    { by apply to_parquet_unbound. }
    apply res_bind_Err in H as [H|(m & _ & H)]; [|done].
    by eapply to_parquet_raises.
  - destruct (is_file (fs (log_call (CallIsFile p) st)) p) eqn:E; [|done].
    apply call_Raise in H as [H _]. unfold is_file in E. simpl in H, E.
    destruct (fs st !! p) as [[|c]|]; done.
  - apply call_Raise in H as [H _]. simpl in H.
    destruct (fs st !! p) as [n|] eqn:E.
    + assert (e = IOException ∧ ∀ db, n ≠ File (DuckDB db)) as [-> Hn].
      { destruct n as [|[]]; try (injection H as <-; done).
        destruct (tables !! joined_timeseries); done. }
      by eapply DuckDBDatabase_no_database.
    + destruct (is_dir (fs st) (parent p)) eqn:Ed; [done|]. injection H as <-.
      by apply DuckDBDatabase_no_directory.
  - apply call_Raise in H as [H _]. simpl in H.
    apply res_bind_Err in H as [H|(db & Hdb & H)]; [by apply update_no_database|].
    apply res_bind_Err in H as [H|(t & Ht & H)]; [by eapply update_no_table|].
    apply res_bind_Err in H as [H|(t' & _ & H)]; [|done]. by eapply update_raises.
  - apply call_Raise in H as [H _]. simpl in H.
    apply res_bind_Err in H as [H|(db & Hdb & H)]; [by apply schema_no_database|].
    apply res_bind_Err in H as [H|(t & _ & H)]; [|done]. by eapply schema_no_table.
  - apply call_Raise in H as [H _]. simpl in H.
    apply res_bind_Err in H as [H|(db & Hdb & H)]; [by apply query_no_database|].
    apply res_bind_Err in H as [H|(t & Ht & H)]; [by eapply query_no_table|].
    destruct (decide (Forall (λ c, c ∈ (schema t).*1) cols)) as [Hc|Hc].
    + apply res_bind_Err in H as [H|(m & _ & H)]; [|done]. by eapply query_copy_raises.
    + injection H as <-. by eapply query_no_column.
  - by apply call_Raise in H as [H _].
  - apply call_Raise in H as [H _]. simpl in H.
    apply res_bind_Err in H as [H|(rs & _ & H)]; [|done]. by constructor.
  - apply call_Raise in H as [H _]. simpl in H.
    apply res_bind_Err in H as [H|(rs & Hrs & H)]; [by apply get_metrics_raises_joined|].
    apply res_bind_Err in H as [H|(rs' & _ & H)]; [|done].
    by eapply get_metrics_raises_geometry.
Qed.

Lemma notebook_plain home objs : Forall plain_statement (notebook home objs).
Proof.
  unfold notebook, cell_download. unfold_cells.
  unfold insert_joined_timeseries, insert_attributes, insert_calculated_field.
  repeat first [ apply Forall_nil_2 | apply Forall_cons_2 | apply Forall_app_2 ];
    constructor.
Qed.

(** C7: the notebook handles no failure.  Every statement of it is one
    shell command, one library call or the guarded [unlink], with nothing
    around it.  A run raises an exception only when the library function
    of one of its statements fails with that exception (or a name the
    statement uses is not bound), in the state the statements before
    have left; and whenever the library function of a statement fails in
    that state, the run of the notebook raises the library's exception:
    the failing call is the last one made, and the files and the
    variables are as the call found them. *)
Theorem failures_propagate home objs st :
  Forall plain_statement (notebook home objs) ∧
  (∀ e st', run (notebook home objs) st = Raise e st' →
     ∃ k s sk, notebook home objs !! k = Some s ∧
               run (take k (notebook home objs)) st = Ok sk ∧
               library_raises s sk e) ∧
  (∀ k s sk e, notebook home objs !! k = Some s →
     run (take k (notebook home objs)) st = Ok sk →
     library_raises s sk e →
     ∃ st', run (notebook home objs) st = Raise e st' ∧
            fs st' = fs sk ∧ globals st' = globals sk ∧
            ∃ ev, calls st' = calls sk ++ [ev]).
Proof.
  split_and!.
  - apply notebook_plain.
  - intros e st' (k & s & sk & Hk & Hpre & Hs)%run_Raise.
    exists k, s, sk. split_and!; [done|done|].
    eapply plain_statement_Raise; [|exact Hs].
    eapply Forall_lookup_1; [apply notebook_plain | exact Hk].
  - intros k s sk e Hk Hpre Hlib.
    destruct (library_raises_Raise _ _ _ Hlib) as (st' & Hs & Hrest).
    exists st'. split; [|done]. apply run_Raise. by exists k, s, sk.
Qed.

(** ** The reference time of the simulation *)

(** C8: the cell of [sim_ts] assigns to the column reference_time the
    cast column of [baseline_ts], whatever [sim_ts] holds, aligned on
    the labels of the index: the value written for a row is the one
    [baseline_ts] has at the row's label, and the missing value NaT when
    [baseline_ts] has no such label.  The rows are those of [sim_ts], or
    those of [baseline_ts] when [sim_ts] has no row and [baseline_ts]
    has. *)
Theorem sim_reference_time_from_baseline home st st' sim base :
  globals st !! "sim_ts" = Some sim →
  globals st !! "baseline_ts" = Some base →
  NoDup (labels (index base)) →
  run (cell_sim_convert home) st = Ok st' →
  ∃ col vs t,
    assoc "reference_time" (columns base) = Some col ∧
    mapM to_datetime64 (col_values col) = Some vs ∧
    fs st' !! (SECONDARY_FILEPATH home ++ ["sim.parquet"]) = Some (File (Parquet t)) ∧
    assoc "reference_time" (schema t) = Some "datetime64[ns]" ∧
    let idx := if decide (labels (index sim) = [] ∧ labels (index base) ≠ [])
               then labels (index base) else labels (index sim) in
    length (rows t) = length idx ∧
    ∀ i lbl r,
      idx !! i = Some lbl → rows t !! i = Some r →
      field r "reference_time" = Some (default NaT (at_label lbl (labels (index base)) vs)) ∧
      (lbl ∉ labels (index base) → field r "reference_time" = Some NaT).
Proof.
  intros Hsim Hbase Hnd. rewrite cell_sim_convert_eq.
  intros (df & sdf & s & s' & df' & Hdf & Hsdf & Hs & Hs' & Hdf' & F & _)%convert_Ok.
  rewrite Hsim in Hdf. injection Hdf as <-.
  rewrite lookup_insert_ne, Hbase in Hsdf by done. injection Hsdf as <-.
  apply getitem_Some in Hs as (col & Hcol & Hsi & _ & Hvals).
  apply astype_datetime64_Some in Hs' as (Hsi' & Hd & Hm).
  rewrite Hvals in Hm. rewrite Hsi in Hsi'.
  apply setitem_series_Some in Hdf'. cbv zeta in Hdf'.
  rewrite add_static_columns_index, Hsi', Hd in Hdf'.
  exists col, (s_values s'), (frame_table df').
  set (idx := if decide (labels (index sim) = [] ∧ labels (index base) ≠ [])
              then labels (index base) else labels (index sim)).
  assert (size (index df') = length idx ∧
          ∃ vs, assoc "reference_time" (columns df')
                = Some {| col_dtype := datetime64_ns; col_values := vs |} ∧
                ∀ i lbl, idx !! i = Some lbl →
                  default NaT (vs !! i)
                  = default NaT (at_label lbl (labels (index base)) (s_values s')))
    as (Hsize & vs & Hrt & Hvs).
  { unfold idx. destruct Hdf' as [(E & N & Hidx & Hcols)|(Hno & Hidx & vs & Hcols & Hvs)].
    - rewrite decide_True by done. split; [by rewrite Hidx|].
      eexists. split; [rewrite Hcols; apply assoc_set_col_eq|].
      intros i lbl Hi. by rewrite (at_label_lookup _ _ _ _ Hnd Hi).
    - rewrite decide_False by done. split; [by rewrite Hidx|].
      exists vs. split; [rewrite Hcols; apply assoc_set_col_eq|].
      intros i lbl Hi. destruct Hvs as [[Heq ->]|[_ ->]].
      + rewrite <- Heq in Hi. by rewrite (at_label_lookup _ _ _ _ Hnd Hi).
      + unfold reindex. rewrite list_lookup_fmap, Hi. simpl. by rewrite Hd, Hsi'. }
  split_and!; [done|done| | |].
  - rewrite F. apply lookup_insert_eq.
  - by rewrite (frame_table_type _ _ _ Hrt).
  - cbv zeta. fold idx. split; [simpl; by rewrite length_frame_rows|].
    intros i lbl r Hi Hr. simpl in Hr. apply frame_rows_lookup in Hr as [_ ->].
    assert (field (frame_row df' i) "reference_time"
            = Some (default NaT (at_label lbl (labels (index base)) (s_values s')))) as Hfield.
    { rewrite (field_frame_row _ _ _ _ Hrt). simpl. f_equal. by apply Hvs. }
    split; [done|]. intros Hlbl. by rewrite Hfield, at_label_absent.
Qed.

(** ** The notebook on the small dataset *)

Lemma is_ok_final r : is_ok r = true → r = Ok (final r).
Proof. by destruct r. Qed.

Lemma raised_final r e : raised r = Some e → r = Raise e (final r).
Proof. destruct r; simpl; congruence. Qed.

Lemma example_run_complete :
  run (notebook example_home example_objects) example_state = Ok example_final.
Proof. apply is_ok_final. vm_compute. reflexivity. Qed.

(** The run of the small dataset completes on an empty disk too. *)
Lemma example_run_complete_on_empty_disk :
  is_ok (run (notebook example_home example_objects) empty_state) = true.
Proof. vm_compute. reflexivity. Qed.

Lemma timeseries_csv_check (m : gmap path node) (p : path) c :
  match m !! p with
  | Some (File (Csv None cols)) =>
      bool_decide (cols.*1 = [ "location_id"; "value_time"; "value" ])
  | _ => false
  end = true →
  m !! p = Some (File c) → timeseries_csv c.
Proof.
  intros H Hc. unfold path in *. rewrite Hc in H.
  destruct c as [[l|] cols| | |]; try done.
  apply bool_decide_eq_true_1 in H. by exists cols.
Qed.

Lemma csv_check (P : option Column → list (string * Column) → Prop)
    `{∀ l cols, Decision (P l cols)} (m : gmap path node) (p : path) :
  match m !! p with
  | Some (File (Csv l cols)) => bool_decide (P l cols)
  | _ => false
  end = true →
  ∃ l cols, m !! p = Some (File (Csv l cols)) ∧ P l cols.
Proof.
  intros Hc. unfold path in *.
  destruct (m !! p) as [[|[l cols| | |]]|]; try done.
  apply bool_decide_eq_true_1 in Hc. eauto.
Qed.

Lemma failures_propagate_witness :
  ∃ st', run (notebook example_home example_objects_without_gages) example_state
         = Raise DataSourceError st'.
Proof.
  destruct (failures_propagate example_home example_objects_without_gages example_state)
    as (_ & _ & Hraise).
  destruct (Hraise 8%nat
              (read_file "locations" (RAW_DATA_FILEPATH example_home ++ ["gages.geojson"]))
              (final (run (take 8 (notebook example_home example_objects_without_gages))
                        example_state))
              DataSourceError) as (st' & Hrun & _).
  - reflexivity.
  - apply is_ok_final. vm_compute. reflexivity.
  - apply read_file_raises. vm_compute. reflexivity.
  - exists st'. exact Hrun.
Defined.

Lemma export_sorted_by_key_witness :
  run (cell_export example_home) example_with_month = Ok example_exported ∧
  ∃ t, fs example_exported !! (JOINED_FILEPATH example_home ++ ["joined.parquet"])
       = Some (File (Parquet t)) ∧
       StronglySorted (rows_le ["configuration"; "primary_location_id"; "value_time"]) (rows t).
Proof.
  assert (run (cell_export example_home) example_with_month = Ok example_exported) as H
    by (apply is_ok_final; vm_compute; reflexivity).
  split; [exact H|].
  destruct (export_sorted_by_key example_home example_with_month example_exported H)
    as (db & t & t' & _ & _ & Hfile & _ & _ & Hsorted).
  exists t'. split; [exact Hfile | exact Hsorted].
Defined.

Lemma month_field_is_month_of_value_time_witness :
  run (cell_month example_home) example_joined = Ok example_with_month ∧
  ∃ db t, fs example_with_month !! DB_FILEPATH example_home = Some (File (DuckDB db)) ∧
          db !! "joined_timeseries" = Some t ∧
          assoc "month" (schema t) = Some "INTEGER".
Proof.
  assert (run (cell_month example_home) example_joined = Ok example_with_month) as H
    by (apply is_ok_final; vm_compute; reflexivity).
  split; [exact H|].
  destruct (month_field_is_month_of_value_time example_home example_joined example_with_month H)
    as (db & t & db' & t' & _ & _ & Hfile & Htable & Hschema & _).
  exists db', t'. split_and!; [exact Hfile | exact Htable | exact Hschema].
Defined.

Lemma joined_records_pair_related_values_witness :
  run (cell_database example_home ++ cell_insert_joined example_home
       ++ cell_insert_attributes example_home) example_converted = Ok example_joined ∧
  ∃ db t, fs example_joined !! DB_FILEPATH example_home = Some (File (DuckDB db)) ∧
          db !! "joined_timeseries" = Some t.
Proof.
  assert (run (cell_database example_home ++ cell_insert_joined example_home
               ++ cell_insert_attributes example_home) example_converted = Ok example_joined)
    as H by (apply is_ok_final; vm_compute; reflexivity).
  split; [exact H|].
  destruct (joined_records_pair_related_values example_home example_converted example_joined H)
    as (db & t & Hfile & Htable & _).
  exists db, t. split; [exact Hfile | exact Htable].
Defined.

(** The joined table of the small dataset has five records: two pairs
    with the baseline and three with the simulation. *)
Example example_joined_record_count :
  (λ db, match db with
         | Some (File (DuckDB tables)) => length <$> (rows <$> tables !! "joined_timeseries")
         | _ => None
         end) (fs example_joined !! DB_FILEPATH example_home) = Some 5%nat.
Proof. vm_compute. reflexivity. Qed.

(** C2 as the specification words it fails on the files the notebook
    writes: the primary file of the small dataset, read from a file with
    the columns location_id, value_time and value, has no field "unit"
    (the unit is in the column measurement_unit). *)
Lemma spec_timeseries_fields_counterexample :
  ∃ t, fs example_final !! (PRIMARY_FILEPATH example_home ++ ["obs.parquet"])
       = Some (File (Parquet t)) ∧
       ¬ (schema t).*1 ≡ₚ spec_timeseries_fields.
Proof.
  eexists. split; [vm_compute; reflexivity|].
  intros Hp.
  assert ("unit" ∈ spec_timeseries_fields) as Hin
    by (unfold spec_timeseries_fields; rewrite !elem_of_cons; tauto).
  rewrite <- Hp in Hin. refine (bool_decide_eq_false_1 _ _ Hin).
  vm_compute. reflexivity.
Qed.

Lemma timeseries_record_fields_witness :
  ∃ t, fs example_final !! (PRIMARY_FILEPATH example_home ++ ["obs.parquet"])
       = Some (File (Parquet t)) ∧
       (schema t).*1 = timeseries_fields.
Proof.
  destruct (timeseries_record_fields example_home example_objects example_state example_final
              example_run_complete) with
    (csv := RAW_DATA_FILEPATH example_home ++ ["obs.csv"])
    (prog := cell_obs_read example_home ++ cell_obs_convert example_home)
    (out := PRIMARY_FILEPATH example_home ++ ["obs.parquet"])
    as (t & Hfile & Hnames & _).
  - intros csv prog out c. unfold timeseries_cells. rewrite !elem_of_cons, elem_of_nil.
    intros [E|[E|[E|[]]]]; injection E as -> -> ->;
      apply timeseries_csv_check; vm_compute; reflexivity.
  - apply list_elem_of_here.
  - exists t. split; [exact Hfile | exact Hnames].
Defined.

Lemma parquet_files_in_table_folders_witness :
  ∃ c f t,
    fs (downloaded example_home example_objects example_state)
      !! (RAW_DATA_FILEPATH example_home ++ ["obs.csv"]) = Some (File c) ∧
    read_frame c = Some f ∧
    fs example_final !! ((TEEHR_BASE example_home ++ [folder Primary]) ++ ["obs.parquet"])
    = Some (File (Parquet t)) ∧
    holds_rows "obs.csv" f t.
Proof.
  destruct (parquet_files_in_table_folders example_home example_objects example_state)
    as (_ & _ & Hwritten).
  destruct (Hwritten example_final example_run_complete) as [Hinputs _].
  apply (Hinputs "obs.csv" Primary "obs.parquet").
  unfold converted_inputs. rewrite !elem_of_cons. tauto.
Defined.

Lemma database_file_is_scratch_witness :
  fs example_state !! DB_FILEPATH example_home = Some (File (DuckDB ∅)) ∧
  fs example_final !! DB_FILEPATH example_home = None.
Proof.
  split; [vm_compute; reflexivity|].
  destruct (database_file_is_scratch example_home example_objects example_state example_final
              example_run_complete) as (_ & Hgone & _).
  exact Hgone.
Defined.


(** Started with a database file left by an earlier run and on an empty
    disk, the notebook makes the same calls; the download delivers no
    database file, so [unlink] is not called before the database is
    opened. *)
Example example_calls_same_from_any_disk :
  calls (final (run (notebook example_home example_objects) empty_state))
  = calls example_final ∧
  delivers_database example_home example_objects = false.
Proof. split; vm_compute; reflexivity. Qed.



Lemma sim_reference_time_from_baseline_witness :
  ∃ sim base t,
    globals example_before_sim !! "sim_ts" = Some sim ∧
    globals example_before_sim !! "baseline_ts" = Some base ∧
    size (index base) = 2%nat ∧ size (index sim) = 3%nat ∧
    fs (final (run (cell_sim_convert example_home) example_before_sim))
      !! (SECONDARY_FILEPATH example_home ++ ["sim.parquet"]) = Some (File (Parquet t)) ∧
    ∀ r, rows t !! 2%nat = Some r → field r "reference_time" = Some NaT.
Proof.
  assert (bool_decide (is_Some (globals example_before_sim !! "sim_ts")) = true) as Hsim
    by (vm_compute; reflexivity).
  assert (bool_decide (is_Some (globals example_before_sim !! "baseline_ts")) = true) as Hbase
    by (vm_compute; reflexivity).
  apply bool_decide_eq_true_1 in Hsim as [sim Hsim].
  apply bool_decide_eq_true_1 in Hbase as [base Hbase].
  assert (index base = RangeIndex 2 ∧ index sim = RangeIndex 3) as [Hib His].
  { assert (index <$> globals example_before_sim !! "baseline_ts" = Some (RangeIndex 2)) as Hb
      by (vm_compute; reflexivity).
    assert (index <$> globals example_before_sim !! "sim_ts" = Some (RangeIndex 3)) as Hs
      by (vm_compute; reflexivity).
    rewrite Hbase in Hb. rewrite Hsim in Hs. simpl in Hb, Hs. split; congruence. }
  assert (NoDup (labels (index base))) as Hnd by (rewrite Hib; apply NoDup_RangeIndex).
  assert (run (cell_sim_convert example_home) example_before_sim
          = Ok (final (run (cell_sim_convert example_home) example_before_sim))) as H
    by (apply is_ok_final; vm_compute; reflexivity).
  destruct (sim_reference_time_from_baseline example_home example_before_sim _ sim base
              Hsim Hbase Hnd H) as (col & vs & t & _ & _ & Hfile & _ & Hrows).
  cbv zeta in Hrows. rewrite His, Hib in Hrows. destruct Hrows as [_ Hrows].
  exists sim, base, t. split_and!; [exact Hsim | exact Hbase | by rewrite Hib | by rewrite His
                                   | exact Hfile |].
  intros r Hr. apply (Hrows 2%nat (Int 2) r); [reflexivity | exact Hr |].
  apply (bool_decide_eq_true_1 (Int 2 ∉ labels (RangeIndex 2))). vm_compute. reflexivity.
Defined.

(** * Further properties of the cells *)

(** ** The folder cell *)

(** X1: when the folder cell ([mkdir(exist_ok=True, parents=True)], six
    times) returns, the six folders are directories, every file and
    directory that was there is still there, unchanged, and running the
    cell again returns and changes nothing on disk. *)
Theorem folder_cell_creates_keeps_and_repeats home st st' :
  run (cell_folders home) st = Ok st' →
  (∀ d, d ∈ table_folders home → fs st' !! d = Some Dir) ∧
  (∀ (p : path) n, fs st !! p = Some n → fs st' !! p = Some n) ∧
  ∃ st'', run (cell_folders home) st' = Ok st'' ∧ fs st'' = fs st'.
Proof.
  rewrite cell_folders_mkdirs. intros H.
  destruct (run_mkdirs_Ok _ _ _ H) as [Hkeep Hdirs]. split_and!.
  - intros d Hd. rewrite <- (firstn_all d). apply Hdirs; [done|].
    pose proof (table_folders_length home d Hd). lia.
  - exact Hkeep.
  - by apply run_mkdirs_existing.
Qed.





(** ** The guard of the database file *)

(** X3: the guard [if p.is_file(): p.unlink()] never raises, where a bare
    [p.unlink()] raises FileNotFoundError when nothing is at [p]; after
    the guard [p] is not a file, a directory at [p] is left in place, and
    no other path is touched. *)
Theorem guard_never_raises (p : path) st :
  (∃ st', if_is_file_unlink p st = Ok st' ∧
          is_file (fs st') p = false ∧
          (fs st !! p = Some Dir → fs st' !! p = Some Dir) ∧
          (∀ q : path, q ≠ p → fs st' !! q = fs st !! q)) ∧
  (fs st !! p = None → raised (unlink p st) = Some FileNotFoundError).
Proof.
  split.
  - unfold if_is_file_unlink, unlink, call, is_file. simpl.
    destruct (fs st !! p) as [[|c]|] eqn:E; simpl.
    + eexists. split; [done|]. simpl. rewrite E. done.
    + eexists. split; [done|]. simpl. rewrite lookup_delete_eq.
      split_and!; [done|done|]. intros q Hq. by apply lookup_delete_ne.
    + eexists. split; [done|]. simpl. rewrite E. done.
  - intros E. unfold unlink, call. simpl. by rewrite E.
Qed.

(** ** What a run never does *)

(** Two values found at one path are equal. *)
Ltac lookup_clash H1 H2 :=
  let Hc := fresh "Hc" in
  pose proof (eq_trans (eq_sym H1) H2) as Hc; try discriminate Hc.

Lemma no_effect_keeps_dirs s : has_effect s NoEffect → keeps_dirs s.
Proof. intros Hs st p Hp. specialize (Hs st). simpl in Hs. by rewrite Hs. Qed.

Lemma makes_dirs_keeps_dirs s q : has_effect s (MakesDirs q) → keeps_dirs s.
Proof.
  intros Hs st p Hp. destruct (Hs st p) as [E|(Hn & _)].
  - etrans; [exact E | exact Hp].
  - exfalso. assert (Some Dir = None) as Hc by (etrans; [symmetry; exact Hp | exact Hn]).
    discriminate Hc.
Qed.

Lemma to_parquet_keeps_dirs var q : keeps_dirs (to_parquet var q).
Proof.
  intros st p Hp. unfold to_parquet. rewrite call_final.
  destruct (res_bind _ _) as [st'|] eqn:H; [|done].
  inv_res H. apply DataFrame_to_parquet_Val in E0 as (_ & (-> & Hq & _)%write_file_Val).
  injection H as <-. simpl.
  rewrite lookup_insert_ne; [done|]. intros ->. done.
Qed.

Lemma query_copy_order_by_keeps_dirs ddb name cols q :
  keeps_dirs (query_copy_order_by ddb name cols q).
Proof.
  intros st p Hp. unfold query_copy_order_by. rewrite call_final.
  destruct (res_bind _ _) as [st'|] eqn:H; [|done].
  inv_res H. case_decide; [|done]. inv_res H.
  apply copy_to_Val, write_file_Val in E1 as (-> & Hq & _). injection H as <-. simpl.
  rewrite lookup_insert_ne; [done|]. intros ->. done.
Qed.

Lemma if_is_file_unlink_keeps_dirs q : keeps_dirs (if_is_file_unlink q).
Proof.
  intros st p Hp. unfold if_is_file_unlink, unlink, call, is_file. simpl.
  destruct (fs st !! q) as [[|c]|] eqn:E; simpl; try done.
  rewrite lookup_delete_ne; [done|]. intros ->. lookup_clash Hp E.
Qed.

Lemma DuckDBDatabase_keeps_dirs q : keeps_dirs (DuckDBDatabase q).
Proof.
  intros st p Hp. unfold DuckDBDatabase. rewrite call_final. simpl.
  destruct (fs st !! q) as [[|[| | |db]]|] eqn:E; simpl; try done.
  - destruct (db !! joined_timeseries); simpl; [done|].
    rewrite lookup_insert_ne; [done|]. intros ->. lookup_clash Hp E.
  - destruct (is_dir _ _); simpl; [|done].
    rewrite lookup_insert_ne; [done|]. intros ->. lookup_clash Hp E.
Qed.

Lemma update_joined_timeseries_keeps_dirs ev ddb f :
  keeps_dirs (update_joined_timeseries ev ddb f).
Proof.
  intros st p Hp. unfold update_joined_timeseries. rewrite call_final.
  destruct (res_bind _ _) as [st'|] eqn:H; [|done].
  inv_res H. apply open_database_Val in E. injection H as <-. simpl.
  rewrite lookup_insert_ne; [done|]. intros ->. lookup_clash Hp E.
Qed.

Lemma run_keeps_dirs prog : Forall keeps_dirs prog → keeps_dirs (run prog).
Proof.
  intros H. induction H as [|s prog Hs _ IH]; intros st p Hp; simpl; [done|].
  specialize (Hs st p Hp). destruct (s st) as [st1|e st1]; simpl in *; [|done].
  by apply IH.
Qed.

Ltac stmt_keeps_dirs :=
  unfold insert_joined_timeseries, insert_attributes, insert_calculated_field;
  first
    [ apply to_parquet_keeps_dirs | apply query_copy_order_by_keeps_dirs
    | apply if_is_file_unlink_keeps_dirs | apply DuckDBDatabase_keeps_dirs
    | apply update_joined_timeseries_keeps_dirs
    | eapply makes_dirs_keeps_dirs; apply mkdir_effect
    | apply no_effect_keeps_dirs; stmt_effect ].

Lemma pipeline_keeps_dirs home : keeps_dirs (run (pipeline home)).
Proof.
  apply run_keeps_dirs. unfold_cells.
  repeat first [ apply Forall_nil_2 | apply Forall_cons_2 | apply Forall_app_2 ];
    stmt_keeps_dirs.
Qed.

(** X4: a run of the notebook, complete or not, touches nothing outside
    the directory [~/teehr/example-1]: what is there stays as it is.
    After the download cell it removes nothing but the database file: a
    directory stays a directory, and a file other than [teehr.db] stays a
    file, with the content it had unless it is one of the ten Parquet
    outputs. *)
Theorem nothing_but_the_database_is_removed home objs st (p : path) :
  (¬ example_1 home `prefix_of` p →
   ∀ n, fs st !! p = Some n → fs (final (run (notebook home objs) st)) !! p = Some n) ∧
  (fs (downloaded home objs st) !! p = Some Dir →
   fs (final (run (notebook home objs) st)) !! p = Some Dir) ∧
  (∀ c, fs (downloaded home objs st) !! p = Some (File c) → p ≠ DB_FILEPATH home →
        ∃ c', fs (final (run (notebook home objs) st)) !! p = Some (File c') ∧
              (p ∉ parquet_outputs home → c' = c)).
Proof.
  rewrite run_notebook.
  assert (∀ c, fs (downloaded home objs st) !! p = Some (File c) → p ≠ DB_FILEPATH home →
            ∃ c', fs (final (run (pipeline home) (downloaded home objs st))) !! p
                  = Some (File c') ∧ (p ∉ parquet_outputs home → c' = c)) as Hfile.
  { intros c Hp Hdb.
    destruct (pipeline_fs_changes home (downloaded home objs st) p)
      as [E|[(Hn & _)|[(Hout & t & Ht)|(-> & _)]]].
    - exists c. split; [|done]. etrans; [exact E | exact Hp].
    - lookup_clash Hp Hn.
    - exists (Parquet t). split; [exact Ht|]. intros Hnot. done.
    - done. }
  split_and!; [|apply pipeline_keeps_dirs|exact Hfile].
  intros Hp n Hn.
  assert (fs (downloaded home objs st) !! p = Some n) as Hd.
  { destruct (downloaded_frame home objs st p Hp) as [E|(N & _)].
    - by rewrite E.
    - lookup_clash Hn N. }
  destruct n as [|c]; [by apply pipeline_keeps_dirs|].
  destruct (Hfile c Hd) as (c' & Hc' & Hsame).
  - intros ->. apply Hp, example_1_prefix_DB.
  - rewrite Hc', Hsame; [done|]. intros Hout%parquet_outputs_below. by apply Hp.
Qed.

Lemma table_folders_not_below_raw home d (p : path) :
  d ∈ table_folders home → RAW_DATA_FILEPATH home `prefix_of` p → ¬ p `prefix_of` d.
Proof.
  intros Hd [k1 ->] [k2 E]. revert E.
  unfold table_folders in Hd. rewrite !elem_of_cons, elem_of_nil in Hd.
  destruct Hd as [->|[->|[->|[->|[->|[->|[]]]]]]]; unfold_paths;
    rewrite <- !app_assoc; simpl; intros E; apply app_inv_head in E; discriminate E.
Qed.

Lemma parquet_outputs_not_below_raw home (p : path) :
  p ∈ parquet_outputs home → ¬ RAW_DATA_FILEPATH home `prefix_of` p.
Proof.
  unfold parquet_outputs. rewrite !elem_of_cons, elem_of_nil.
  intros [->|[->|[->|[->|[->|[->|[->|[->|[->|[->|[]]]]]]]]]]] [k E]; revert E;
    unfold_paths; rewrite <- !app_assoc; simpl; intros E; apply app_inv_head in E;
    discriminate E.
Qed.

(** X5: the cells after the download only read the raw data: after a
    run, complete or not, every path at or below the raw data directory
    holds what the download cell left there, and nothing is created
    there. *)
Theorem raw_data_untouched home objs st (p : path) :
  RAW_DATA_FILEPATH home `prefix_of` p →
  fs (final (run (notebook home objs) st)) !! p = fs (downloaded home objs st) !! p.
Proof.
  intros Hraw. rewrite run_notebook.
  destruct (pipeline_fs_changes home (downloaded home objs st) p)
    as [E|[(_ & _ & d & Hd & Hpd)|[(Hout & _)|(-> & _)]]].
  - exact E.
  - by destruct (table_folders_not_below_raw home d p Hd Hraw).
  - by destruct (parquet_outputs_not_below_raw home p Hout).
  - destruct Hraw as [k E]. revert E. unfold_paths. rewrite <- !app_assoc. simpl.
    intros E. apply app_inv_head in E. discriminate E.
Qed.

(** ** The contents of the converted files *)

(** X6: a crosswalk or attribute file is saved as it is read: after a
    complete run its Parquet file has the columns of the CSV file the
    download left, in the same order and with the same dtypes, followed
    by the column [__index_level_0__] when the reader took row labels
    from the file; it has one record per row, and in record [i] every
    column holds the CSV file's cell of row [i]. *)
Theorem csv_saved_as_read home objs src dst st st' :
  (src, dst) ∈ csv_conversions home → run (notebook home objs) st = Ok st' →
  ∃ l cols t,
    fs (downloaded home objs st) !! src = Some (File (Csv l cols)) ∧
    fs st' !! dst = Some (File (Parquet t)) ∧
    schema t = ((λ '(k, c), (k, dtype_name (col_dtype c))) <$> cols)
               ++ match l with
                  | Some lc => [("__index_level_0__", dtype_name (col_dtype lc))]
                  | None => []
                  end ∧
    length (rows t) = match l with
                      | Some lc => length (col_values lc)
                      | None => nrows cols
                      end ∧
    ∀ i r,
      rows t !! i = Some r →
      r.*1 = (schema t).*1 ∧
      ∀ c col, assoc c cols = Some col →
        field r c = Some (default (na_value (col_dtype col)) (col_values col !! i)).
Proof.
  rewrite run_notebook. intros Hin Hrun.
  destruct (pipeline_csv_conversion home src dst _ st' Hin Hrun) as (l & cols & Hsrc & _ & Hdst).
  exists l, cols, (frame_table (frame_of_csv l cols)). split_and!; [done|done| | |].
  - unfold frame_table; cbn [schema]. rewrite frame_of_csv_columns. by destruct l.
  - unfold frame_table; cbn [rows]. rewrite length_frame_rows.
    destruct l; [done|]. apply size_RangeIndex.
  - intros i r Hr. simpl in Hr. apply frame_rows_lookup in Hr as [_ ->]. split.
    + by rewrite frame_row_fst, frame_table_fst.
    + intros c col Hc. apply field_frame_row. by rewrite frame_of_csv_columns.
Qed.

(** X7: the geometry file: after a complete run [locations.parquet] has
    the columns of [gages.geojson] as the download left it, the column
    "station" being named "name" and no column being named "station"; the
    records hold the file's values, column by column; a file without a
    column "station" is saved as it is read. *)
Theorem locations_saved_with_station_renamed home objs st st' :
  run (notebook home objs) st = Ok st' →
  ∃ cols t,
    fs (downloaded home objs st) !! (RAW_DATA_FILEPATH home ++ ["gages.geojson"])
    = Some (File (GeoJSON cols)) ∧
    fs st' !! (GEOMETRY_FILEPATH home ++ ["locations.parquet"]) = Some (File (Parquet t)) ∧
    (schema t).*1 = (λ k, if decide (k = "station") then "name" else k) <$> cols.*1 ∧
    ("station" ∉ (schema t).*1) ∧
    NoDup (schema t).*1 ∧
    length (rows t) = nrows cols ∧
    (∀ i r, rows t !! i = Some r →
            r.*2 = (λ kc, default (na_value (col_dtype kc.2)) (col_values kc.2 !! i)) <$> cols) ∧
    ("station" ∉ cols.*1 → t = frame_table (frame_of_columns cols)).
Proof.
  rewrite run_notebook. intros Hrun.
  destruct (pipeline_locations home _ st' Hrun) as (cols & Hsrc & Hnd & Hdst).
  exists cols, (frame_table (rename "station" "name" (frame_of_columns cols))).
  assert ((schema (frame_table (rename "station" "name" (frame_of_columns cols)))).*1
          = (λ k, if decide (k = "station") then "name" else k) <$> cols.*1) as Hnames.
  { rewrite frame_table_fst. unfold col_names, rename, frame_of_columns; simpl.
    rewrite app_nil_r, <- !list_fmap_compose. apply list_fmap_ext. by intros _ [k c] _. }
  split_and!; [done|done|done| | | | |].
  - rewrite Hnames. intros (k & Hk & _)%list_elem_of_fmap. by case_decide.
  - rewrite frame_table_fst. simpl. by rewrite app_nil_r.
  - unfold frame_table; cbn [rows]. rewrite length_frame_rows. apply size_RangeIndex.
  - intros i r Hr. cbn [rows frame_table] in Hr. apply frame_rows_lookup in Hr as [_ ->].
    unfold frame_row, rename, frame_of_columns; simpl.
    rewrite app_nil_r, <- !list_fmap_compose. apply list_fmap_ext. by intros _ [k c] _.
  - intros Habsent. by rewrite rename_absent.
Qed.

(** X8: a timeseries file keeps the data of its CSV file: after a
    complete run the columns of the Parquet file start with the columns
    of the CSV file the download left, followed by those of the four
    static columns the CSV file does not have; when the CSV file has rows
    the Parquet file has one record per row, and in record [i] every
    column of the CSV file other than the four static ones holds the CSV
    file's cell of row [i], with the dtype the reader gave it. *)
Theorem timeseries_saved_with_data home objs csv prog out st st' :
  (csv, prog, out) ∈ timeseries_cells home → run (notebook home objs) st = Ok st' →
  ∃ l cols t,
    fs (downloaded home objs st) !! csv = Some (File (Csv l cols)) ∧
    fs st' !! out = Some (File (Parquet t)) ∧
    with_static_columns cols.*1 `prefix_of` (schema t).*1 ∧
    NoDup (with_static_columns cols.*1) ∧
    (size (index (frame_of_csv l cols)) ≠ 0%nat →
     length (rows t) = size (index (frame_of_csv l cols)) ∧
     ∀ c col, c ∉ static_columns → assoc c cols = Some col →
       assoc c (schema t) = Some (dtype_name (col_dtype col)) ∧
       ∀ i r, rows t !! i = Some r →
              field r c = Some (default (na_value (col_dtype col)) (col_values col !! i))).
Proof.
  rewrite run_notebook. intros Hin Hrun.
  assert (∀ cfg src l cols df',
            converted cfg src (frame_of_csv l cols) = Some df' → NoDup (col_names df') →
            with_static_columns cols.*1 `prefix_of` (schema (frame_table df')).*1 ∧
            NoDup (with_static_columns cols.*1) ∧
            (size (index (frame_of_csv l cols)) ≠ 0%nat →
             length (rows (frame_table df')) = size (index (frame_of_csv l cols)) ∧
             ∀ c col, c ∉ static_columns → assoc c cols = Some col →
               assoc c (schema (frame_table df')) = Some (dtype_name (col_dtype col)) ∧
               ∀ i r, rows (frame_table df') !! i = Some r →
                 field r c
                 = Some (default (na_value (col_dtype col)) (col_values col !! i)))) as Hconv.
  { intros cfg src l cols df' H Hnd.
    apply converted_Some in H as (Hn & _ & Hcase).
    rewrite frame_of_csv_names in Hn. split_and!.
    - rewrite frame_table_fst, Hn. by apply prefix_app_r.
    - by rewrite <- Hn.
    - intros Hrows. destruct Hcase as [(E & _)|(_ & Hidx & Hcols)].
      { by apply labels_nil_size in E. }
      split.
      + simpl. by rewrite length_frame_rows, Hidx.
      + intros c col Hc Hcol.
        assert (assoc c (columns df') = Some col) as Ha.
        { rewrite Hcols, add_static_columns_other, frame_of_csv_columns; [done|done|].
          intros ->. apply Hc. unfold static_columns. rewrite !elem_of_cons. tauto. }
        split; [by apply frame_table_type|].
        intros i r Hr. simpl in Hr. apply frame_rows_lookup in Hr as [_ ->].
        by apply field_frame_row. }
  destruct (pipeline_timeseries home _ _ Hrun)
    as (lo & obs & lb & baseline & ls & sim & o' & b' & s'
        & Ho & Hb & Hs & Co & Cb & Cs & (No & Nb & Ns) & Ho' & Hb' & Hs').
  revert Hin. unfold timeseries_cells. rewrite !elem_of_cons, elem_of_nil.
  intros [E|[E|[E|[]]]]; injection E as -> -> ->.
  - exists lo, obs, (frame_table o'). split_and!; [done|done|..]; by eapply Hconv.
  - exists lb, baseline, (frame_table b'). split_and!; [done|done|..]; by eapply Hconv.
  - exists ls, sim, (frame_table s'). split_and!; [done|done|..]; by eapply Hconv.
Qed.

(** X9: each converted file is determined by its own raw file, and the
    file of sim by the raw files of sim and baseline: two complete runs
    whose downloads leave the same raw file write the same Parquet file
    for it, whatever else the two file systems hold. *)
Theorem converted_file_determined_by_its_input home objs1 objs2 raw e name st1 st1' st2 st2' :
  (raw, e, name) ∈ converted_inputs →
  run (notebook home objs1) st1 = Ok st1' → run (notebook home objs2) st2 = Ok st2' →
  fs (downloaded home objs1 st1) !! (RAW_DATA_FILEPATH home ++ [raw])
  = fs (downloaded home objs2 st2) !! (RAW_DATA_FILEPATH home ++ [raw]) →
  (raw = "sim.csv" →
   fs (downloaded home objs1 st1) !! (RAW_DATA_FILEPATH home ++ ["baseline.csv"])
   = fs (downloaded home objs2 st2) !! (RAW_DATA_FILEPATH home ++ ["baseline.csv"])) →
  fs st1' !! ((TEEHR_BASE home ++ [folder e]) ++ [name])
  = fs st2' !! ((TEEHR_BASE home ++ [folder e]) ++ [name]).
Proof.
  rewrite !run_notebook. intros Hin H1 H2.
  set (d1 := downloaded home objs1 st1) in *. set (d2 := downloaded home objs2 st2) in *.
  assert (∀ src dst, (src, dst) ∈ csv_conversions home →
            fs d1 !! src = fs d2 !! src → fs st1' !! dst = fs st2' !! dst) as Hcsv.
  { intros src dst Hc Heq.
    destruct (pipeline_csv_conversion home _ _ _ _ Hc H1) as (l1 & c1 & S1 & _ & ->).
    destruct (pipeline_csv_conversion home _ _ _ _ Hc H2) as (l2 & c2 & S2 & _ & ->).
    rewrite S1, S2 in Heq. by injection Heq as -> ->. }
  destruct (pipeline_timeseries home _ _ H1)
    as (lo1 & obs1 & lb1 & base1 & ls1 & sim1 & o1 & b1 & s1
        & Ho1 & Hb1 & Hs1 & Co1 & Cb1 & Cs1 & _ & Ho1' & Hb1' & Hs1').
  destruct (pipeline_timeseries home _ _ H2)
    as (lo2 & obs2 & lb2 & base2 & ls2 & sim2 & o2 & b2 & s2
        & Ho2 & Hb2 & Hs2 & Co2 & Cb2 & Cs2 & _ & Ho2' & Hb2' & Hs2').
  revert Hin. unfold converted_inputs. rewrite !elem_of_cons, elem_of_nil.
  intros [E|[E|[E|[E|[E|[E|[E|[E|[E|[]]]]]]]]]]; injection E as -> -> ->; intros Heq Hbase.
  - destruct (pipeline_locations home _ _ H1) as (c1 & S1 & _ & D1).
    destruct (pipeline_locations home _ _ H2) as (c2 & S2 & _ & D2).
    etrans; [exact D1|]. symmetry. etrans; [exact D2|].
    rewrite S1, S2 in Heq. by injection Heq as ->.
  - by apply (Hcsv (RAW_DATA_FILEPATH home ++ ["baseline-crosswalk.csv"])
                (CROSSWALK_FILEPATH home ++ ["baseline-crosswalk.parquet"]));
      [unfold csv_conversions; solve_elem_of|].
  - by apply (Hcsv (RAW_DATA_FILEPATH home ++ ["sim-crosswalk.csv"])
                (CROSSWALK_FILEPATH home ++ ["sim-crosswalk.parquet"]));
      [unfold csv_conversions; solve_elem_of|].
  - by apply (Hcsv (RAW_DATA_FILEPATH home ++ ["gage_attr_2yr_discharge.csv"])
                (ATTRIBUTE_FILEPATH home ++ ["2yr_discharge.parquet"]));
      [unfold csv_conversions; solve_elem_of|].
  - by apply (Hcsv (RAW_DATA_FILEPATH home ++ ["gage_attr_drainage_area_km2.csv"])
                (ATTRIBUTE_FILEPATH home ++ ["drainage_area.parquet"]));
      [unfold csv_conversions; solve_elem_of|].
  - by apply (Hcsv (RAW_DATA_FILEPATH home ++ ["gage_attr_ecoregion.csv"])
                (ATTRIBUTE_FILEPATH home ++ ["ecoregion.parquet"]));
      [unfold csv_conversions; solve_elem_of|].
  - etrans; [exact Ho1'|]. symmetry. etrans; [exact Ho2'|].
    rewrite Ho1, Ho2 in Heq. injection Heq as -> ->. congruence.
  - etrans; [exact Hb1'|]. symmetry. etrans; [exact Hb2'|].
    rewrite Hb1, Hb2 in Heq. injection Heq as -> ->. congruence.
  - etrans; [exact Hs1'|]. symmetry. etrans; [exact Hs2'|].
    rewrite Hs1, Hs2 in Heq. injection Heq as -> ->.
    specialize (Hbase eq_refl). rewrite Hb1, Hb2 in Hbase. injection Hbase as -> ->.
    congruence.
Qed.

(** ** A run that fails between opening and deleting the database *)

Lemma update_joined_timeseries_keeps_database ev ddb f p :
  keeps_database p (update_joined_timeseries ev ddb f).
Proof.
  intros st [db Hp]. unfold update_joined_timeseries. rewrite call_final.
  destruct (res_bind _ _) as [st'|] eqn:H; [|by exists db].
  inv_res H. injection H as <-. simpl.
  destruct (decide (p = ddb)) as [->|N].
  - eexists. apply lookup_insert_eq.
  - exists db. etrans; [|exact Hp]. by apply lookup_insert_ne.
Qed.

Lemma preserves_keeps_database p s : preserves p s → keeps_database p s.
Proof. intros Hs st [db Hp]. exists db. etrans; [apply Hs | exact Hp]. Qed.

Lemma run_keeps_database p prog :
  Forall (keeps_database p) prog → keeps_database p (run prog).
Proof.
  intros H. induction H as [|s prog Hs _ IH]; intros st Hp; simpl; [done|].
  specialize (Hs st Hp). destruct (s st) as [st1|e st1]; simpl in *; [|done].
  by apply IH.
Qed.

Lemma join_cells_keep_database home :
  Forall (keeps_database (DB_FILEPATH home)) (join_cells home).
Proof.
  unfold join_cells, cell_insert_joined, cell_insert_attributes, cell_month, cell_schema,
    cell_export, insert_joined_timeseries, insert_attributes, insert_calculated_field.
  repeat first [ apply Forall_nil_2 | apply Forall_cons_2 | apply Forall_app_2 ];
    first [ apply update_joined_timeseries_keeps_database
          | apply preserves_keeps_database;
            eapply has_effect_preserves; [stmt_effect | path_neq] ].
Qed.

(** X10: nothing deletes the database file when the join fails.  When the
    download, the conversions and the cell that opens the database have
    returned and one of the statements up to the export raises, the run
    of the notebook raises that exception and the database file is left
    on disk, until the download cell of a later run removes it with the
    directory. *)
Theorem database_left_behind_on_failure home objs pre s post st s1 s2 e st' :
  run (cell_download home objs ++ section_convert home ++ cell_database home) st = Ok s1 →
  join_cells home = pre ++ s :: post →
  run pre s1 = Ok s2 → s s2 = Raise e st' →
  run (notebook home objs) st = Raise e st' ∧
  is_database (fs st') (DB_FILEPATH home) ∧
  fs (final (shell_rm_rf (example_1 home) st')) !! DB_FILEPATH home = None.
Proof.
  intros H1 Hsplit Hpre Hs.
  assert (is_database (fs st') (DB_FILEPATH home)) as Hdb.
  { apply run_app_Ok in H1 as (s00 & _ & H1).
    apply run_app_Ok in H1 as (s0 & _ & (_ & F & _)%cell_database_Ok).
    pose proof (join_cells_keep_database home) as Hk.
    rewrite Hsplit in Hk. apply Forall_app in Hk as [Hk1 Hk2]. apply Forall_cons in Hk2 as [Hk2 _].
    assert (is_database (fs s1) (DB_FILEPATH home)) as D1.
    { eexists. rewrite F. apply lookup_insert_eq. }
    apply (run_keeps_database _ _ Hk1) in D1. rewrite Hpre in D1. simpl in D1.
    pose proof (Hk2 s2 D1) as D2. rewrite Hs in D2. exact D2. }
  split_and!; [|exact Hdb|].
  - assert (notebook home objs
            = ((cell_download home objs ++ section_convert home ++ cell_database home) ++ pre)
              ++ s :: (post ++ cell_delete_database home ++ section_query home)) as ->.
    { trans ((cell_download home objs ++ section_convert home ++ cell_database home)
             ++ (pre ++ s :: post) ++ cell_delete_database home ++ section_query home).
      - rewrite <- Hsplit. unfold notebook, pipeline, section_join, join_cells.
        by rewrite <- !app_assoc.
      - by rewrite <- !app_assoc, <- app_comm_cons. }
    apply (run_raise _ _ _ _ s2); [|exact Hs]. by rewrite run_app, H1.
  - simpl. apply rm_rf_lookup_below, example_1_prefix_DB.
Qed.

(** ** When the conversions succeed *)

Lemma parent_app (p : path) x : parent (p ++ [x]) = p.
Proof.
  unfold parent. rewrite length_app. simpl.
  replace (length p + 1 - 1)%nat with (length p) by lia. by rewrite take_app_length.
Qed.

Lemma is_dir_Dir (m : gmap path node) (p : path) : m !! p = Some Dir → is_dir m p = true.
Proof. intros H. destruct p; simpl; [done|]. simpl in H. by rewrite H. Qed.

Lemma write_file_not_dir (p : path) (c : content) (m : gmap path node) :
  m !! p ≠ Some Dir → is_dir m (parent p) = true →
  write_file p c m = Val (<[p := File c]> m).
Proof. intros Hp Hd. unfold write_file. rewrite Hd. by destruct (m !! p) as [[|?]|]. Qed.

(** Writing a frame with distinct column names below a directory, at a
    path that is not a directory. *)
Lemma to_parquet_run var (d : path) name st df :
  globals st !! var = Some df → NoDup (col_names df) →
  fs st !! d = Some Dir → fs st !! (d ++ [name]) ≠ Some Dir →
  to_parquet var (d ++ [name]) st
  = Ok (set_fs (<[d ++ [name] := File (Parquet (frame_table df))]> (fs st))
          (log_call (CallToParquet (d ++ [name])) st)).
Proof.
  intros Hdf Hnd Hd Hp. unfold to_parquet, call, get_global. cbn [log_call globals fs].
  rewrite Hdf. cbn [of_option res_bind]. unfold DataFrame_to_parquet.
  rewrite decide_True by done.
  rewrite write_file_not_dir; [done|exact Hp|]. rewrite parent_app. by apply is_dir_Dir.
Qed.

Lemma read_csv_run var p st l cols :
  fs st !! p = Some (File (Csv l cols)) →
  read_csv var p st = Ok (set_global var (frame_of_csv l cols) (log_call (CallReadCsv p) st)).
Proof. intros H. unfold read_csv, call, pd_read_csv, read_content. simpl. by rewrite H. Qed.

Lemma read_file_run var p st cols :
  fs st !! p = Some (File (GeoJSON cols)) →
  read_file var p st
  = Ok (set_global var (frame_of_columns cols) (log_call (CallReadFile p) st)).
Proof. intros H. unfold read_file, call, gpd_read_file. simpl. by rewrite H. Qed.

Lemma setitem_run var c v st df :
  globals st !! var = Some df →
  setitem var c v st
  = Ok (set_global var (setitem_scalar df c v) (log_call (CallSetitem var c) st)).
Proof. intros H. unfold setitem, call, get_global. simpl. by rewrite H. Qed.

Lemma cast_replicate n v :
  is_null v = true → mapM to_datetime64 (replicate n v) = Some (replicate n NaT).
Proof.
  intros Hv. induction n as [|n IH]; [done|]. cbn [replicate mapM]. rewrite IH.
  by destruct v.
Qed.

Lemma setitem_astype_datetime64_run var c src src_c st sdf s s' df df' :
  globals st !! src = Some sdf → getitem sdf src_c = Some s →
  astype_datetime64 s = Some s' →
  globals st !! var = Some df → setitem_series df c s' = Some df' →
  setitem_astype_datetime64 var c src src_c st
  = Ok (set_global var df' (log_call (CallSetitem var c) st)).
Proof.
  intros Hsdf Hs Hs' Hdf Hdf'. unfold setitem_astype_datetime64, call, get_global.
  cbn [log_call globals fs]. rewrite Hsdf. cbn [of_option res_bind].
  rewrite Hs. cbn [of_option res_bind]. rewrite Hs'. cbn [of_option res_bind].
  rewrite Hdf. cbn [of_option res_bind]. by rewrite Hdf'.
Qed.

Lemma NoDup_add_name k names : NoDup names → NoDup (add_name k names).
Proof.
  intros H. unfold add_name. case_decide; [done|].
  apply NoDup_app. split_and!; [done| |apply NoDup_singleton].
  intros x Hx ->%list_elem_of_singleton. done.
Qed.

Lemma NoDup_with_static_columns names : NoDup names → NoDup (with_static_columns names).
Proof. intros H. unfold with_static_columns. by do 4 apply NoDup_add_name. Qed.

(** The assignment of the column reference_time goes through when the
    labels of the index it comes from are distinct. *)
Lemma converted_is_Some cfg src df : NoDup (labels src) → is_Some (converted cfg src df).
Proof.
  intros Hnd. unfold converted, setitem_series. cbn [missing_reference_time s_index].
  repeat case_decide; eauto. done.
Qed.

(** The cast and the assignment of the column reference_time succeed, for
    the frame's own column and for the column of a frame converted
    before. *)
Lemma convert_run var cfg src (d : path) name st df idx df' :
  globals st !! var = Some df →
  (src = var ∧ idx = index df) ∨
  (∃ bdf, src ≠ var ∧ globals st !! src = Some bdf ∧ index bdf = idx ∧
          assoc "reference_time" (columns bdf)
          = Some {| col_dtype := datetime64_ns; col_values := replicate (size idx) NaT |}) →
  converted cfg idx df = Some df' → NoDup (col_names df') →
  fs st !! d = Some Dir → fs st !! (d ++ [name]) ≠ Some Dir →
  ∃ st', run (convert var cfg src (d ++ [name])) st = Ok st' ∧
         globals st' !! var = Some df'.
Proof.
  intros Hdf Hsrc Hconv Hnd Hd Hp. unfold convert.
  cbn [run]. rewrite (setitem_run _ _ _ _ df) by done.
  cbn [run]. rewrite (setitem_run _ _ _ _ (setitem_scalar df "configuration" (Str cfg)))
    by apply lookup_insert_eq.
  cbn [run]. erewrite setitem_run by apply lookup_insert_eq.
  cbn [run]. erewrite setitem_run by apply lookup_insert_eq.
  cbn [run].
  match goal with |- context [setitem_astype_datetime64 _ _ _ _ ?s] => set (s4 := s) end.
  assert (globals s4 !! var = Some (add_static_columns cfg df)) as Hvar
    by apply lookup_insert_eq.
  assert (fs s4 = fs st) as Hfs by reflexivity.
  assert (∃ sdf s,
            globals s4 !! src = Some sdf ∧ getitem sdf "reference_time" = Some s ∧
            astype_datetime64 s = Some (missing_reference_time idx))
    as (sdf & s & Hsdf & Hs & Hs').
  { destruct Hsrc as [[-> ->]|(bdf & Hne & Hb & Hbi & Hbc)].
    - destruct (add_static_columns_assoc cfg df) as (_ & _ & _ & Hr).
      eexists _, _. split_and!; [exact Hvar| |].
      + unfold getitem. cbv zeta in Hr. rewrite Hr. done.
      + unfold astype_datetime64. cbn [s_values s_index col_values col_dtype].
        rewrite cast_replicate by done. done.
    - eexists _, _. split_and!.
      + unfold s4; simpl. rewrite !lookup_insert_ne by done. exact Hb.
      + unfold getitem. rewrite Hbc. done.
      + unfold astype_datetime64. cbn [s_values s_index col_values col_dtype].
        rewrite cast_replicate by done. simpl. by rewrite Hbi. }
  rewrite (setitem_astype_datetime64_run _ _ _ _ _ _ _ _ _ _ Hsdf Hs Hs' Hvar Hconv).
  cbn [run].
  rewrite (to_parquet_run _ _ _ _ df'); [|apply lookup_insert_eq|done|done|done].
  eexists. split; [done|]. apply lookup_insert_eq.
Qed.

Lemma run_snoc pre u st s s' :
  run pre st = Ok s → run u s = Ok s' → run (pre ++ u) st = Ok s'.
Proof. intros H1 H2. by rewrite run_app, H1. Qed.

Lemma csv_unit_run var src (d : path) name st l cols :
  fs st !! src = Some (File (Csv l cols)) → NoDup cols.*1 →
  fs st !! d = Some Dir → fs st !! (d ++ [name]) ≠ Some Dir →
  ∃ st', run [read_csv var src; to_parquet var (d ++ [name])] st = Ok st'.
Proof.
  intros Hsrc Hnd Hd Hp. cbn [run]. rewrite (read_csv_run _ _ _ l cols Hsrc).
  rewrite (to_parquet_run _ _ _ _ (frame_of_csv l cols));
    [by eexists|apply lookup_insert_eq|by rewrite frame_of_csv_names|done|done].
Qed.

Lemma timeseries_unit_run var cfg src csv (d : path) name st l cols idx :
  fs st !! csv = Some (File (Csv l cols)) → NoDup cols.*1 →
  (src = var ∧ idx = index (frame_of_csv l cols)) ∨
  (∃ bdf, src ≠ var ∧ NoDup (labels idx) ∧ globals st !! src = Some bdf ∧ index bdf = idx ∧
          assoc "reference_time" (columns bdf)
          = Some {| col_dtype := datetime64_ns; col_values := replicate (size idx) NaT |}) →
  fs st !! d = Some Dir → fs st !! (d ++ [name]) ≠ Some Dir →
  ∃ st' df', run (read_csv var csv :: convert var cfg src (d ++ [name])) st = Ok st' ∧
             globals st' !! var = Some df' ∧
             converted cfg idx (frame_of_csv l cols) = Some df'.
Proof.
  intros Hcsv Hnd Hsrc Hd Hp. cbn [run]. rewrite (read_csv_run _ _ _ l cols Hcsv).
  set (s1 := set_global var _ _).
  assert (globals s1 !! var = Some (frame_of_csv l cols)) as Hvar by apply lookup_insert_eq.
  assert (∃ df', converted cfg idx (frame_of_csv l cols) = Some df') as [df' Hconv].
  { destruct Hsrc as [[_ ->]|(bdf & _ & Hndi & _)].
    - destruct (converted_own cfg (frame_of_csv l cols)) as (df' & H & _). eauto.
    - by apply converted_is_Some. }
  assert (NoDup (col_names df')) as Hnd'.
  { destruct (converted_Some _ _ _ _ Hconv) as (-> & _).
    rewrite frame_of_csv_names. by apply NoDup_with_static_columns. }
  destruct (convert_run var cfg src d name s1 (frame_of_csv l cols) idx df') as (st' & Hrun & G);
    [done| |done|done|done|done|].
  - destruct Hsrc as [?|(bdf & Hne & _ & Hb & Hrest)]; [by left|right].
    exists bdf. split_and!; [done| |apply Hrest|apply Hrest].
    unfold s1; simpl. by rewrite lookup_insert_ne.
  - by exists st', df'.
Qed.

(** X11: the conversions check no schema and no value.  When, after the
    download cell, no file stands where one of the six folders or a
    directory above it has to be, the nine raw files are readable
    (GeoJSON for the gages, CSV for the others) with distinct column
    names (for the gages after "station" is renamed), the row labels of
    baseline.csv are distinct and no output path is a directory, the
    cells of the first section all return, whatever columns and values
    the raw files hold: the cast of a column of missing values cannot
    fail, and writing a frame fails on the file system only. *)
Theorem conversions_accept_any_content home objs st :
  (∀ d k, d ∈ table_folders home → is_file (fs (downloaded home objs st)) (take k d) = false) →
  (∃ cols,
     fs (downloaded home objs st) !! (RAW_DATA_FILEPATH home ++ ["gages.geojson"])
     = Some (File (GeoJSON cols)) ∧
     NoDup (col_names (rename "station" "name" (frame_of_columns cols)))) →
  (∀ src dst, (src, dst) ∈ csv_conversions home →
     ∃ l cols, fs (downloaded home objs st) !! src = Some (File (Csv l cols)) ∧ NoDup cols.*1) →
  (∀ csv prog out, (csv, prog, out) ∈ timeseries_cells home →
     ∃ l cols, fs (downloaded home objs st) !! csv = Some (File (Csv l cols)) ∧ NoDup cols.*1) →
  (∀ l cols, fs (downloaded home objs st) !! (RAW_DATA_FILEPATH home ++ ["baseline.csv"])
             = Some (File (Csv l cols)) →
             NoDup (labels (index (frame_of_csv l cols)))) →
  (∀ p, p ∈ parquet_outputs home → fs (downloaded home objs st) !! p ≠ Some Dir) →
  ∃ st', run (cell_download home objs ++ section_convert home) st = Ok st'.
Proof.
  rewrite run_app, cell_download_run. generalize (downloaded home objs st). clear st.
  intros st Hfree (gages & Hgages & Hgnd) Hcsv Hts Hbase Hout.
  destruct (run_mkdirs_no_file (table_folders home) st Hfree) as [s0 H0].
  rewrite <- cell_folders_mkdirs in H0.
  assert (∀ d : path, d ∈ table_folders home → fs s0 !! d = Some Dir) as Hdirs.
  { intros d Hd. pose proof H0 as H0'. rewrite cell_folders_mkdirs in H0'.
    apply run_mkdirs_Ok in H0' as [_ Hdirs].
    rewrite <- (take_ge d (length d)) by lia. apply Hdirs; [done|].
    pose proof (table_folders_length home d Hd). lia. }
  assert (∀ prog s (d : path), run prog s0 = Ok s → Forall (preserves d) prog →
            d ∈ table_folders home → fs s !! d = Some Dir) as Hdir.
  { intros prog s d Hk Hp Hd. rewrite (run_Ok_preserves _ _ _ _ Hk Hp). by apply Hdirs. }
  assert (∀ prog s (p : path), run prog s0 = Ok s → Forall (preserves p) prog →
            preserves p (run (cell_folders home)) →
            p ∈ parquet_outputs home → fs s !! p ≠ Some Dir) as Hfile.
  { intros prog s p Hk Hp Hp0 Hin. rewrite (run_Ok_preserves _ _ _ _ Hk Hp).
    specialize (Hp0 st). rewrite H0 in Hp0. simpl in Hp0. rewrite Hp0. by apply Hout. }
  assert (∀ prog s (p : path) n, run prog s0 = Ok s → Forall (preserves p) prog →
            preserves p (run (cell_folders home)) →
            fs st !! p = Some n → fs s !! p = Some n) as Hraw.
  { intros prog s p n Hk Hp Hp0 Hin. rewrite (run_Ok_preserves _ _ _ _ Hk Hp).
    specialize (Hp0 st). rewrite H0 in Hp0. simpl in Hp0. by rewrite Hp0. }
  assert (∀ p : path, Forall (preserves p) (cell_folders home) →
            preserves p (run (cell_folders home))) as Hpre.
  { intros p Hp s. by apply run_preserves. }
  assert (run [] s0 = Ok s0) as K0 by reflexivity.
  (* locations *)
  assert (∃ s', run (cell_locations home) s0 = Ok s') as [s1 U1].
  { unfold cell_locations. cbn [run]. rewrite (read_file_run _ _ _ gages).
    - unfold rename_inplace at 1, call, get_global. cbn [log_call globals fs set_global].
      rewrite lookup_insert_eq. cbn [of_option res_bind].
      rewrite (to_parquet_run _ _ _ _ (rename "station" "name" (frame_of_columns gages))).
      + by eexists.
      + apply lookup_insert_eq.
      + done.
      + apply (Hdir [] s0); [done|constructor|solve_elem_of].
      + apply (Hfile [] s0); [done|constructor|apply Hpre; solve_preserves|solve_elem_of].
    - apply (Hraw [] s0); [done|constructor|apply Hpre; solve_preserves|done]. }
  pose proof (run_snoc _ _ _ _ _ K0 U1) as K1.
  (* crosswalks and attributes *)
  destruct (Hcsv (RAW_DATA_FILEPATH home ++ ["baseline-crosswalk.csv"])
              (CROSSWALK_FILEPATH home ++ ["baseline-crosswalk.parquet"])
              ltac:(unfold csv_conversions; solve_elem_of)) as (l2 & c2 & C2 & N2).
  destruct (csv_unit_run "baseline_xw" (RAW_DATA_FILEPATH home ++ ["baseline-crosswalk.csv"])
              (CROSSWALK_FILEPATH home) "baseline-crosswalk.parquet" s1 l2 c2) as [s2 U2].
  { apply (Hraw _ _ _ _ K1); [solve_preserves|apply Hpre; solve_preserves|done]. }
  { done. }
  { apply (Hdir _ _ _ K1); [solve_preserves|solve_elem_of]. }
  { apply (Hfile _ _ _ K1); [solve_preserves|apply Hpre; solve_preserves|solve_elem_of]. }
  pose proof (run_snoc _ _ _ _ _ K1 U2) as K2.
  destruct (Hcsv (RAW_DATA_FILEPATH home ++ ["sim-crosswalk.csv"])
              (CROSSWALK_FILEPATH home ++ ["sim-crosswalk.parquet"])
              ltac:(unfold csv_conversions; solve_elem_of)) as (l3 & c3 & C3 & N3).
  destruct (csv_unit_run "sim_xw" (RAW_DATA_FILEPATH home ++ ["sim-crosswalk.csv"])
              (CROSSWALK_FILEPATH home) "sim-crosswalk.parquet" s2 l3 c3) as [s3 U3].
  { apply (Hraw _ _ _ _ K2); [solve_preserves|apply Hpre; solve_preserves|done]. }
  { done. }
  { apply (Hdir _ _ _ K2); [solve_preserves|solve_elem_of]. }
  { apply (Hfile _ _ _ K2); [solve_preserves|apply Hpre; solve_preserves|solve_elem_of]. }
  pose proof (run_snoc _ _ _ _ _ K2 U3) as K3.
  destruct (Hcsv (RAW_DATA_FILEPATH home ++ ["gage_attr_2yr_discharge.csv"])
              (ATTRIBUTE_FILEPATH home ++ ["2yr_discharge.parquet"])
              ltac:(unfold csv_conversions; solve_elem_of)) as (l4 & c4 & C4 & N4).
  destruct (csv_unit_run "attr1" (RAW_DATA_FILEPATH home ++ ["gage_attr_2yr_discharge.csv"])
              (ATTRIBUTE_FILEPATH home) "2yr_discharge.parquet" s3 l4 c4) as [s4 U4].
  { apply (Hraw _ _ _ _ K3); [solve_preserves|apply Hpre; solve_preserves|done]. }
  { done. }
  { apply (Hdir _ _ _ K3); [solve_preserves|solve_elem_of]. }
  { apply (Hfile _ _ _ K3); [solve_preserves|apply Hpre; solve_preserves|solve_elem_of]. }
  pose proof (run_snoc _ _ _ _ _ K3 U4) as K4.
  destruct (Hcsv (RAW_DATA_FILEPATH home ++ ["gage_attr_drainage_area_km2.csv"])
              (ATTRIBUTE_FILEPATH home ++ ["drainage_area.parquet"])
              ltac:(unfold csv_conversions; solve_elem_of)) as (l5 & c5 & C5 & N5).
  destruct (csv_unit_run "attr2" (RAW_DATA_FILEPATH home ++ ["gage_attr_drainage_area_km2.csv"])
              (ATTRIBUTE_FILEPATH home) "drainage_area.parquet" s4 l5 c5) as [s5 U5].
  { apply (Hraw _ _ _ _ K4); [solve_preserves|apply Hpre; solve_preserves|done]. }
  { done. }
  { apply (Hdir _ _ _ K4); [solve_preserves|solve_elem_of]. }
  { apply (Hfile _ _ _ K4); [solve_preserves|apply Hpre; solve_preserves|solve_elem_of]. }
  pose proof (run_snoc _ _ _ _ _ K4 U5) as K5.
  destruct (Hcsv (RAW_DATA_FILEPATH home ++ ["gage_attr_ecoregion.csv"])
              (ATTRIBUTE_FILEPATH home ++ ["ecoregion.parquet"])
              ltac:(unfold csv_conversions; solve_elem_of)) as (l6 & c6 & C6 & N6).
  destruct (csv_unit_run "attr3" (RAW_DATA_FILEPATH home ++ ["gage_attr_ecoregion.csv"])
              (ATTRIBUTE_FILEPATH home) "ecoregion.parquet" s5 l6 c6) as [s6 U6].
  { apply (Hraw _ _ _ _ K5); [solve_preserves|apply Hpre; solve_preserves|done]. }
  { done. }
  { apply (Hdir _ _ _ K5); [solve_preserves|solve_elem_of]. }
  { apply (Hfile _ _ _ K5); [solve_preserves|apply Hpre; solve_preserves|solve_elem_of]. }
  pose proof (run_snoc _ _ _ _ _ K5 U6) as K6.
  (* timeseries *)
  destruct (Hts (RAW_DATA_FILEPATH home ++ ["obs.csv"])
              (cell_obs_read home ++ cell_obs_convert home)
              (PRIMARY_FILEPATH home ++ ["obs.parquet"])
              ltac:(unfold timeseries_cells; solve_elem_of)) as (l7 & c7 & C7 & N7).
  destruct (timeseries_unit_run "obs_ts" "usgs" "obs_ts" (RAW_DATA_FILEPATH home ++ ["obs.csv"])
              (PRIMARY_FILEPATH home) "obs.parquet" s6 l7 c7 (index (frame_of_csv l7 c7)))
    as (s7 & o' & U7 & _).
  { apply (Hraw _ _ _ _ K6); [solve_preserves|apply Hpre; solve_preserves|done]. }
  { done. }
  { by left. }
  { apply (Hdir _ _ _ K6); [solve_preserves|solve_elem_of]. }
  { apply (Hfile _ _ _ K6); [solve_preserves|apply Hpre; solve_preserves|solve_elem_of]. }
  pose proof (run_snoc _ _ _ _ _ K6 U7) as K7.
  destruct (Hts (RAW_DATA_FILEPATH home ++ ["baseline.csv"])
              (cell_baseline_read home ++ cell_baseline_convert home)
              (SECONDARY_FILEPATH home ++ ["baseline.parquet"])
              ltac:(unfold timeseries_cells; solve_elem_of)) as (l8 & c8 & C8 & N8).
  destruct (timeseries_unit_run "baseline_ts" "baseline" "baseline_ts"
              (RAW_DATA_FILEPATH home ++ ["baseline.csv"])
              (SECONDARY_FILEPATH home) "baseline.parquet" s7 l8 c8
              (index (frame_of_csv l8 c8)))
    as (s8 & b' & U8 & G8 & Cb).
  { apply (Hraw _ _ _ _ K7); [solve_preserves|apply Hpre; solve_preserves|done]. }
  { done. }
  { by left. }
  { apply (Hdir _ _ _ K7); [solve_preserves|solve_elem_of]. }
  { apply (Hfile _ _ _ K7); [solve_preserves|apply Hpre; solve_preserves|solve_elem_of]. }
  pose proof (run_snoc _ _ _ _ _ K7 U8) as K8.
  destruct (Hts (RAW_DATA_FILEPATH home ++ ["sim.csv"])
              (cell_sim_read home ++ cell_sim_convert home)
              (SECONDARY_FILEPATH home ++ ["sim.parquet"])
              ltac:(unfold timeseries_cells; solve_elem_of)) as (l9 & c9 & C9 & N9).
  destruct (timeseries_unit_run "sim_ts" "sim" "baseline_ts"
              (RAW_DATA_FILEPATH home ++ ["sim.csv"])
              (SECONDARY_FILEPATH home) "sim.parquet" s8 l9 c9
              (index (frame_of_csv l8 c8)))
    as (s9 & s' & U9 & _).
  { apply (Hraw _ _ _ _ K8); [solve_preserves|apply Hpre; solve_preserves|done]. }
  { done. }
  { right. exists b'. split_and!; [done|by apply Hbase|done| |].
    - by eapply converted_own_index.
    - destruct (converted_Some _ _ _ _ Cb) as (_ & Hr & _).
      by rewrite (converted_own_index _ _ _ Cb) in Hr. }
  { apply (Hdir _ _ _ K8); [solve_preserves|solve_elem_of]. }
  { apply (Hfile _ _ _ K8); [solve_preserves|apply Hpre; solve_preserves|solve_elem_of]. }
  pose proof (run_snoc _ _ _ _ _ K8 U9) as K9.
  exists s9. change (run (section_convert home) st = Ok s9).
  exact (run_snoc _ _ _ _ _ H0 K9).
Qed.

(** ** The files the patterns select *)

Lemma glob_match_in_folder (base : path) f f' n :
  Forall (λ seg, segment_match seg seg = true) base →
  glob_match (base ++ [f']) ((base ++ [f]) ++ [n])
  = segment_match f' f && segment_match "*.parquet" n.
Proof.
  intros Hself. unfold glob_match. rewrite last_snoc, !length_app. simpl.
  replace (length base + 1 <? length base + 1 + 1)%nat with true
    by (symmetry; apply Nat.ltb_lt; lia).
  replace (length base + 1)%nat with (length (base ++ [f])) by (rewrite length_app; simpl; lia).
  rewrite take_app_length. simpl. f_equal.
  destruct (segment_match f' f) eqn:E.
  - apply bool_decide_eq_true_2. apply Forall2_app; [|by repeat constructor].
    clear -Hself. induction Hself; by constructor.
  - apply bool_decide_eq_false_2. intros H. apply Forall2_app_inv in H as [_ H]; [|done].
    apply Forall2_cons_1 in H as [H _]. congruence.
Qed.

Lemma folder_match e e' : segment_match (folder e') (folder e) = true ↔ e' = e.
Proof. destruct e, e'; vm_compute; split; congruence. Qed.

Lemma TEEHR_BASE_self home :
  Forall (λ seg, segment_match seg seg = true) home →
  Forall (λ seg, segment_match seg seg = true) (TEEHR_BASE home).
Proof.
  intros H. unfold TEEHR_BASE. apply Forall_app. split; [done|].
  repeat constructor.
Qed.

(** X12: each pattern [f"{folder}/**/*.parquet"] of the notebook selects
    the files the cells write into that folder and none of the files they
    write into another one, when every name on the way to the home
    directory, read as a pattern, matches itself (as a name without [*],
    [?] or [[] does) and none is [**]: the file of a converted input,
    and [joined.parquet], are selected by the pattern of a folder exactly
    when it is their own.  The raw files and the database file are
    selected by no pattern of a folder. *)
Theorem patterns_select_their_folder home e' :
  Forall (λ seg, segment_match seg seg = true) home → "**" ∉ home →
  (∀ raw e name, (raw, e, name) ∈ converted_inputs →
     (glob_match (TEEHR_BASE home ++ [folder e']) ((TEEHR_BASE home ++ [folder e]) ++ [name])
      = true ↔ e' = e) ∧
     glob_match (TEEHR_BASE home ++ [folder e']) (RAW_DATA_FILEPATH home ++ [raw]) = false) ∧
  (glob_match (TEEHR_BASE home ++ [folder e']) (JOINED_FILEPATH home ++ ["joined.parquet"])
   = true ↔ e' = Joined) ∧
  glob_match (TEEHR_BASE home ++ [folder e']) (DB_FILEPATH home) = false.
Proof.
  intros Hself%TEEHR_BASE_self _.
  assert (∀ e name, segment_match "*.parquet" name = true →
            glob_match (TEEHR_BASE home ++ [folder e']) ((TEEHR_BASE home ++ [folder e]) ++ [name])
            = true ↔ e' = e) as Hown.
  { intros e name Hn. rewrite glob_match_in_folder, Hn, andb_true_r by done.
    apply folder_match. }
  split_and!.
  - intros raw e name Hin. split.
    + apply Hown. revert Hin. unfold converted_inputs. rewrite !elem_of_cons, elem_of_nil.
      intros [E|[E|[E|[E|[E|[E|[E|[E|[E|[]]]]]]]]]]; injection E as -> -> ->;
        vm_compute; reflexivity.
    + unfold glob_match, TEEHR_BASE, RAW_DATA_FILEPATH. rewrite !length_app. simpl.
      replace (length home + 3 + 1 <? length home + 3 + 1)%nat with false; [done|].
      symmetry. apply Nat.ltb_ge. lia.
  - apply (Hown Joined). vm_compute. reflexivity.
  - apply glob_match_not_database.
Qed.

(** ** The further properties on the small dataset *)

Lemma folder_cell_creates_keeps_and_repeats_witness :
  ∃ st'', run (cell_folders example_home)
              (final (run (cell_folders example_home) example_downloaded)) = Ok st'' ∧
          fs st'' = fs (final (run (cell_folders example_home) example_downloaded)).
Proof.
  assert (run (cell_folders example_home) example_downloaded
          = Ok (final (run (cell_folders example_home) example_downloaded))) as H
    by (apply is_ok_final; vm_compute; reflexivity).
  destruct (folder_cell_creates_keeps_and_repeats example_home example_downloaded _ H)
    as (_ & _ & Hrep).
  exact Hrep.
Defined.


Lemma nothing_but_the_database_is_removed_witness :
  fs example_final !! example_home = Some Dir.
Proof.
  destruct (nothing_but_the_database_is_removed example_home example_objects example_state
              example_home) as (Hout & _).
  apply Hout.
  - apply (bool_decide_eq_true_1 (¬ _)). vm_compute. reflexivity.
  - vm_compute. reflexivity.
Defined.

Lemma raw_data_untouched_witness :
  fs example_final !! (RAW_DATA_FILEPATH example_home ++ ["obs.csv"])
  = fs example_downloaded !! (RAW_DATA_FILEPATH example_home ++ ["obs.csv"]).
Proof.
  apply (raw_data_untouched example_home example_objects example_state
           (RAW_DATA_FILEPATH example_home ++ ["obs.csv"])).
  exists ["obs.csv"]. reflexivity.
Defined.

Lemma csv_saved_as_read_witness :
  ∃ l cols t,
    fs example_downloaded !! (RAW_DATA_FILEPATH example_home ++ ["sim-crosswalk.csv"])
    = Some (File (Csv l cols)) ∧
    fs example_final !! (CROSSWALK_FILEPATH example_home ++ ["sim-crosswalk.parquet"])
    = Some (File (Parquet t)) ∧
    (schema t).*1 = cols.*1 ++ match l with Some _ => ["__index_level_0__"] | None => [] end.
Proof.
  destruct (csv_saved_as_read example_home example_objects
              (RAW_DATA_FILEPATH example_home ++ ["sim-crosswalk.csv"])
              (CROSSWALK_FILEPATH example_home ++ ["sim-crosswalk.parquet"])
              example_state example_final)
    as (l & cols & t & Hsrc & Hdst & Hschema & _).
  - unfold csv_conversions. apply list_elem_of_further, list_elem_of_here.
  - exact example_run_complete.
  - exists l, cols, t. split_and!; [exact Hsrc | exact Hdst |].
    rewrite Hschema, fmap_app. f_equal.
    + rewrite <- list_fmap_compose. apply list_fmap_ext. by intros _ [k c] _.
    + by destruct l.
Defined.

Lemma locations_saved_with_station_renamed_witness :
  ∃ t, fs example_final !! (GEOMETRY_FILEPATH example_home ++ ["locations.parquet"])
       = Some (File (Parquet t)) ∧
       "station" ∉ (schema t).*1.
Proof.
  destruct (locations_saved_with_station_renamed example_home example_objects example_state
              example_final example_run_complete) as (cols & t & _ & Hdst & _ & Hno & _).
  exists t. split; [exact Hdst | exact Hno].
Defined.

Lemma timeseries_saved_with_data_witness :
  ∃ l cols t,
    fs example_downloaded !! (RAW_DATA_FILEPATH example_home ++ ["sim.csv"])
    = Some (File (Csv l cols)) ∧
    fs example_final !! (SECONDARY_FILEPATH example_home ++ ["sim.parquet"])
    = Some (File (Parquet t)) ∧
    with_static_columns cols.*1 `prefix_of` (schema t).*1.
Proof.
  destruct (timeseries_saved_with_data example_home example_objects
              (RAW_DATA_FILEPATH example_home ++ ["sim.csv"])
              (cell_sim_read example_home ++ cell_sim_convert example_home)
              (SECONDARY_FILEPATH example_home ++ ["sim.parquet"])
              example_state example_final)
    as (l & cols & t & Hsrc & Hdst & Hnames & _).
  - unfold timeseries_cells.
    apply list_elem_of_further, list_elem_of_further, list_elem_of_here.
  - exact example_run_complete.
  - exists l, cols, t. split_and!; [exact Hsrc | exact Hdst | exact Hnames].
Defined.

Lemma converted_file_determined_by_its_input_witness :
  fs example_final !! ((TEEHR_BASE example_home ++ [folder Secondary]) ++ ["sim.parquet"])
  = fs (final (run (notebook example_home example_objects) empty_state))
      !! ((TEEHR_BASE example_home ++ [folder Secondary]) ++ ["sim.parquet"]).
Proof.
  apply (converted_file_determined_by_its_input example_home example_objects example_objects
           "sim.csv" Secondary "sim.parquet"
           example_state example_final empty_state
           (final (run (notebook example_home example_objects) empty_state))).
  - unfold converted_inputs. solve_elem_of.
  - exact example_run_complete.
  - apply is_ok_final. exact example_run_complete_on_empty_disk.
  - vm_compute. reflexivity.
  - intros _. vm_compute. reflexivity.
Defined.

Lemma database_left_behind_on_failure_witness :
  ∃ st', run (notebook example_home example_objects_without_values) example_state
         = Raise BinderException st' ∧
         is_database (fs st') (DB_FILEPATH example_home).
Proof.
  set (s1 := final (run (cell_download example_home example_objects_without_values
                         ++ section_convert example_home ++ cell_database example_home)
                      example_state)).
  set (s := insert_joined_timeseries (ddb example_home) (PRIMARY_FOLDER example_home)
              (SECONDARY_FOLDER example_home) (CROSSWALK_FOLDER example_home) true).
  exists (final (s s1)).
  destruct (database_left_behind_on_failure example_home example_objects_without_values [] s
              (cell_insert_attributes example_home ++ cell_month example_home
               ++ cell_schema example_home ++ cell_export example_home)
              example_state s1 s1 BinderException (final (s s1)))
    as (Hrun & Hdb & _).
  - apply is_ok_final. vm_compute. reflexivity.
  - reflexivity.
  - reflexivity.
  - apply raised_final. vm_compute. reflexivity.
  - split; [exact Hrun | exact Hdb].
Defined.

Lemma conversions_accept_any_content_witness :
  ∃ st', run (cell_download example_home example_objects ++ section_convert example_home)
             example_state = Ok st'.
Proof.
  apply (conversions_accept_any_content example_home example_objects example_state).
  - intros d k. unfold table_folders. rewrite !elem_of_cons, elem_of_nil.
    intros [->|[->|[->|[->|[->|[->|[]]]]]]];
      do 7 (destruct k as [|k]; [vm_compute; reflexivity|]); vm_compute; reflexivity.
  - eexists. split; [vm_compute; reflexivity|].
    apply (bool_decide_eq_true_1 (NoDup _)). vm_compute. reflexivity.
  - intros src dst. unfold csv_conversions. rewrite !elem_of_cons, elem_of_nil.
    intros [E|[E|[E|[E|[E|[]]]]]]; injection E as -> ->;
      apply (csv_check (λ _ cols, NoDup cols.*1)); vm_compute; reflexivity.
  - intros csv prog out. unfold timeseries_cells. rewrite !elem_of_cons, elem_of_nil.
    intros [E|[E|[E|[]]]]; injection E as -> -> ->;
      apply (csv_check (λ _ cols, NoDup cols.*1)); vm_compute; reflexivity.
  - intros l cols Hb.
    destruct (csv_check (λ l cols, NoDup (labels (index (frame_of_csv l cols))))
                (fs (downloaded example_home example_objects example_state))
                (RAW_DATA_FILEPATH example_home ++ ["baseline.csv"]))
      as (l' & cols' & Hb' & Hnd); [vm_compute; reflexivity|].
    pose proof (eq_trans (eq_sym Hb) Hb') as E. by injection E as -> ->.
  - intros p. unfold parquet_outputs. rewrite !elem_of_cons, elem_of_nil.
    intros [->|[->|[->|[->|[->|[->|[->|[->|[->|[->|[]]]]]]]]]]]; vm_compute; discriminate.
Defined.

Lemma patterns_select_their_folder_witness :
  glob_match (TEEHR_BASE example_home ++ [folder Primary])
    ((TEEHR_BASE example_home ++ [folder Primary]) ++ ["obs.parquet"]) = true ∧
  glob_match (TEEHR_BASE example_home ++ [folder Secondary])
    ((TEEHR_BASE example_home ++ [folder Primary]) ++ ["obs.parquet"]) = false.
Proof.
  assert (Forall (λ seg, segment_match seg seg = true) example_home) as Hhome
    by (repeat constructor).
  assert ("**" ∉ example_home) as Hstars
    by (apply (bool_decide_eq_true_1 (_ ∉ _)); vm_compute; reflexivity).
  destruct (patterns_select_their_folder example_home Primary Hhome Hstars) as (H1 & _).
  destruct (patterns_select_their_folder example_home Secondary Hhome Hstars) as (H2 & _).
  assert (("obs.csv", Primary, "obs.parquet") ∈ converted_inputs) as Hin
    by (unfold converted_inputs; rewrite !elem_of_cons; tauto).
  split.
  - by apply (H1 _ _ _ Hin).
  - destruct (H2 _ _ _ Hin) as [H _].
    destruct (glob_match _ _); [|done]. by destruct H as [H _]; specialize (H eq_refl).
Defined.
